(** * compilador: lexer, expression builder, statement recognizers

    A shallow embedding of [archivo.c++]: the tokenizer [Lexico], the AST
    with [getType] / [evaluate], the expression builder [construirAST]
    with its semantic stack, the statement recognizers and the driver
    [analisisSintactico], followed by the properties of the specification.

    Conventions of the embedding.
    - [std::string] is [string] (a sequence of bytes); [size_t] cursors
      are [nat] (a cursor never exceeds [tokens.size()], so no wrap-around
      can occur); [int] is [Z] with its range checked where the code
      computes with it; [double] is IEEE-754 binary64 ([PrimFloat.float]).
    - The globals [tablaSimbolos], [idGlobalCounter] and [pilaSemantica]
      form the record [Estado], threaded explicitly.
    - A call either returns, leaves with a C++ exception, or has
      undefined behaviour ([tokens[i]] past the end, [top()] of an empty
      stack, an overflowing conversion): the three outcomes of [Res].
    - Text written to [cout] is not part of the state; every call made
      while printing that can throw is kept. *)

From Stdlib Require Import ZArith Bool List String Ascii Lia Floats.
From Stdlib Require Import DecimalString DecimalZ DecimalPos.
Import ListNotations.
Local Open Scope string_scope.
Local Open Scope list_scope.

(* ================================================================= *)
(** ** Characters and the character classes of the regular expressions *)

Definition codigo (c : ascii) : N := N_of_ascii c.

Definition en_rango (lo hi : N) (c : ascii) : bool :=
  (N.leb lo (codigo c) && N.leb (codigo c) hi)%bool.

(** [\d] *)
Definition es_digito (c : ascii) : bool := en_rango 48 57 c.

(** [[a-zA-Z]] *)
Definition es_letra (c : ascii) : bool := en_rango 65 90 c || en_rango 97 122 c.

(** [[a-zA-Z_]] *)
Definition es_inicio_ident (c : ascii) : bool := es_letra c || Ascii.eqb c "_".

(** [\w], which is also [[a-zA-Z0-9_]] *)
Definition es_palabra (c : ascii) : bool := es_inicio_ident c || es_digito c.

Definition comilla : ascii := "034"%char.

(** The longest prefix of [s] whose characters satisfy [p], and the rest
    (a greedy [p*]). *)
Fixpoint tomar_mientras (p : ascii -> bool) (s : string) : string * string :=
  match s with
  | EmptyString => (EmptyString, EmptyString)
  | String c r =>
      if p c then let '(a, b) := tomar_mientras p r in (String c a, b)
      else (EmptyString, s)
  end.

Fixpoint todos (p : ascii -> bool) (s : string) : bool :=
  match s with
  | EmptyString => true
  | String c r => p c && todos p r
  end.

(** [val.find(c) != string::npos] *)
Fixpoint contiene (c : ascii) (s : string) : bool :=
  match s with
  | EmptyString => false
  | String d r => Ascii.eqb d c || contiene c r
  end.

Definition no_vacia (s : string) : bool :=
  match s with EmptyString => false | String _ _ => true end.

(** [regex_match(s, \d+)] *)
Definition solo_digitos (s : string) : bool := no_vacia s && todos es_digito s.

(** [regex_match(s, \d+(\.\d+)?)] *)
Definition numero_sin_signo (s : string) : bool :=
  let '(ent, resto) := tomar_mientras es_digito s in
  no_vacia ent &&
  match resto with
  | EmptyString => true
  | String c frac => Ascii.eqb c "." && solo_digitos frac
  end.

Definition quitar_menos (s : string) : string :=
  match s with
  | String "-" r => r
  | _ => s
  end.

(* ================================================================= *)
(** ** Exceptions and outcomes *)

Inductive excepcion : Type :=
| runtime_error (what : string)
| invalid_argument (what : string)   (* thrown by std::stod *)
| out_of_range (what : string).      (* thrown by std::stod *)

(** How a call ends: it returns a value, it is left by an exception, or
    its behaviour is undefined. [SinFuel] is the fourth outcome, of this
    model only: the recursive functions of the parser count their calls
    down from a bound, which is proved never to be reached
    ([terminacion]). *)
Inductive Res (A : Type) : Type :=
| Ret (a : A)
| Throw (e : excepcion)
| Undef
| SinFuel.

Arguments Ret {A} a.
Arguments Throw {A} e.
Arguments Undef {A}.
Arguments SinFuel {A}.

Definition rbind {A B : Type} (r : Res A) (k : A -> Res B) : Res B :=
  match r with
  | Ret a => k a
  | Throw e => Throw e
  | Undef => Undef
  | SinFuel => SinFuel
  end.

(* ================================================================= *)
(** ** Numbers: [std::stod], [std::to_string], [static_cast<int>] *)

Definition double : Type := float.

Definition valor_digito (c : ascii) : Z := Z.of_N (codigo c) - 48.

(** Decimal digits read from the front of [s]: the number read so far,
    how many digits were read, and what follows them. *)
Fixpoint leer_digitos (acc : Z) (n : Z) (s : string) : Z * Z * string :=
  match s with
  | String c r =>
      if es_digito c then leer_digitos (10 * acc + valor_digito c) (n + 1) r
      else (acc, n, s)
  | EmptyString => (acc, n, s)
  end.

Definition es_hex (c : ascii) : bool :=
  es_digito c || en_rango 65 70 c || en_rango 97 102 c.

Definition valor_hex (c : ascii) : Z :=
  if es_digito c then valor_digito c
  else if en_rango 65 70 c then Z.of_N (codigo c) - 55
  else Z.of_N (codigo c) - 87.

Fixpoint leer_hex (acc : Z) (n : Z) (s : string) : Z * Z * string :=
  match s with
  | String c r =>
      if es_hex c then leer_hex (16 * acc + valor_hex c) (n + 1) r
      else (acc, n, s)
  | EmptyString => (acc, n, s)
  end.

(** An exponent part: the marker character was already consumed; an
    optional sign and at least one digit must follow, otherwise there is
    no exponent. *)
Definition leer_exponente (s : string) : Z :=
  let '(neg, r) :=
    match s with
    | String "-" r => (true, r)
    | String "+" r => (false, r)
    | _ => (false, s)
    end in
  let '(e, n, _) := leer_digitos 0 0 r in
  if (n =? 0)%Z then 0%Z else if neg then (- e)%Z else e.

Definition minuscula (c : ascii) : ascii :=
  if en_rango 65 90 c then ascii_of_N (codigo c + 32) else c.

(** Case-insensitive test that [s] begins with the lower-case word [w]. *)
Fixpoint empieza_con (w s : string) : bool :=
  match w, s with
  | EmptyString, _ => true
  | String a w', String c s' => Ascii.eqb a (minuscula c) && empieza_con w' s'
  | String _ _, EmptyString => false
  end.

(** [isspace] in the "C" locale. *)
Definition isspace (c : ascii) : bool := Ascii.eqb c " " || en_rango 9 13 c.

Fixpoint saltar_espacios (s : string) : string :=
  match s with
  | String c r => if isspace c then saltar_espacios r else s
  | EmptyString => s
  end.

(** [p / q] rounded to the nearest binary64 value, ties to even. *)
Definition redondear (neg : bool) (p q : positive) : spec_float :=
  SFdiv prec emax (S754_finite neg p 0) (S754_finite false q 0).

(** Whether the binary64 value [m * 2^e] is exactly [p / q]. *)
Definition es_exacto (m : positive) (e : Z) (p q : positive) : bool :=
  if (0 <=? e)%Z then (Z.pos m * 2 ^ e * Z.pos q =? Z.pos p)%Z
  else (Z.pos m * Z.pos q =? Z.pos p * 2 ^ (- e))%Z.

(** Whether [strtod] counts the magnitude [p / q] as tiny. On x86-64
    tininess is detected after rounding: [p / q] is tiny when, rounded to
    53 bits with an exponent that is not bounded below, it is still
    under the least normal value [2^-1022], that is when
    [p / q < 2^-1022 - 2^-1076] (at [2^-1022 - 2^-1076] itself the tie
    goes up to [2^-1022]). *)
Definition diminuto (p q : positive) : bool :=
  (Z.pos p * 2 ^ 1076 <? (2 ^ 54 - 1) * Z.pos q)%Z.

(** The value [strtod] gives to the magnitude [p / q] with sign [neg], or
    the [ERANGE] report that [stod] turns into [out_of_range]: on
    overflow, and on a tiny magnitude whose result is not exact (the
    result may then be the least normal value). *)
Definition convertir (neg : bool) (p : Z) (q : positive) : Res double :=
  match p with
  | Zpos p' =>
      match redondear neg p' q with
      | S754_finite s m e =>
          if diminuto p' q && negb (es_exacto m e p' q)
          then Throw (out_of_range "stod")
          else Ret (SF2Prim (S754_finite s m e))
      | S754_zero _ => Throw (out_of_range "stod")
      | S754_infinity _ => Throw (out_of_range "stod")
      | S754_nan => Ret nan
      end
  | _ => Ret (if neg then neg_zero else zero)
  end.

(** [m * b^e] as a fraction. *)
Definition escalar (m : Z) (b : Z) (e : Z) : Z * positive :=
  if (0 <=? e)%Z then (m * b ^ e, 1%positive)%Z
  else (m, Z.to_pos (b ^ (- e))).

(** The decimal form: digits, an optional fraction, an optional exponent;
    at least one digit. *)
Definition stod_decimal (neg : bool) (s : string) : Res double :=
  let '(m1, n1, r1) := leer_digitos 0 0 s in
  let '(m2, n2, r2) :=
    match r1 with
    | String "." r => let '(m, n, r') := leer_digitos m1 0 r in (m, n, r')
    | _ => (m1, 0%Z, r1)
    end in
  if (n1 + n2 =? 0)%Z then Throw (invalid_argument "stod")
  else
    let ex :=
      match r2 with
      | String c r => if Ascii.eqb (minuscula c) "e" then leer_exponente r else 0%Z
      | EmptyString => 0%Z
      end in
    let '(p, q) := escalar m2 10 (ex - n2) in
    convertir neg p q.

(** The hexadecimal form, after its [0x] prefix: [None] when no
    hexadecimal digit follows (the prefix is then not part of the
    number). *)
Definition stod_hex (neg : bool) (s : string) : option (Res double) :=
  let '(m1, n1, r1) := leer_hex 0 0 s in
  let '(m2, n2, r2) :=
    match r1 with
    | String "." r => let '(m, n, r') := leer_hex m1 0 r in (m, n, r')
    | _ => (m1, 0%Z, r1)
    end in
  if (n1 + n2 =? 0)%Z then None
  else
    let ex :=
      match r2 with
      | String c r => if Ascii.eqb (minuscula c) "p" then leer_exponente r else 0%Z
      | EmptyString => 0%Z
      end in
    let '(p, q) := escalar m2 2 (ex - 4 * n2) in
    Some (convertir neg p q).

(** [std::stod(s)]: [strtod] in the "C" locale on the longest prefix of
    [s] that is a number; [invalid_argument] when there is none,
    [out_of_range] when [strtod] reports [ERANGE]. *)
Definition stod (s : string) : Res double :=
  let s1 := saltar_espacios s in
  let '(neg, s2) :=
    match s1 with
    | String "-" r => (true, r)
    | String "+" r => (false, r)
    | _ => (false, s1)
    end in
  if empieza_con "inf" s2 then Ret (if neg then neg_infinity else infinity)
  else if empieza_con "nan" s2 then Ret nan
  else
    match s2 with
    | String "0" (String x r) =>
        if Ascii.eqb (minuscula x) "x" then
          match stod_hex neg r with
          | Some v => v
          | None => stod_decimal neg s2
          end
        else stod_decimal neg s2
    | _ => stod_decimal neg s2
    end.

(** [std::to_string(int)] *)
Definition to_string_int (n : Z) : string := NilZero.string_of_int (Z.to_int n).

(** The quotient [a / b] rounded to the nearest integer, ties to even. *)
Definition div_redondeo (a b : Z) : Z :=
  let q := (a / b)%Z in
  let r := (a mod b)%Z in
  match (2 * r ?= b)%Z with
  | Lt => q
  | Gt => (q + 1)%Z
  | Eq => if Z.even q then q else (q + 1)%Z
  end.

Fixpoint ceros (n : nat) : string :=
  match n with
  | O => EmptyString
  | S k => String "0" (ceros k)
  end.

(** [s] padded with zeros on the left to [ancho] characters. *)
Definition rellenar (ancho : nat) (s : string) : string :=
  ceros (ancho - String.length s) ++ s.

(** A magnitude given in millionths, printed with six decimals. *)
Definition seis_decimales (millonesimas : Z) : string :=
  to_string_int (millonesimas / 1000000) ++ "." ++
  rellenar 6 (to_string_int (millonesimas mod 1000000)).

(** [std::to_string(double)], which is [printf("%f")]: six decimals of
    the exact value, rounded to nearest. The sign of a NaN is not part of
    a [float]; the NaN that an invalid operation produces on x86-64 has
    its sign bit set and prints as [-nan]. *)
Definition to_string_double (x : double) : string :=
  match Prim2SF x with
  | S754_nan => "-nan"
  | S754_infinity s => if s then "-inf" else "inf"
  | S754_zero s => if s then "-0.000000" else "0.000000"
  | S754_finite s m e =>
      let mm :=
        if (0 <=? e)%Z then (Z.pos m * 2 ^ e * 1000000)%Z
        else div_redondeo (Z.pos m * 1000000) (2 ^ (- e)) in
      (if s then "-" else EmptyString) ++ seis_decimales mm
  end.

Definition INT_MIN : Z := (-2147483648)%Z.
Definition INT_MAX : Z := 2147483647%Z.

(** [static_cast<int>(x)]: the fractional part is discarded; undefined
    when the truncated value is not an [int]. *)
Definition static_cast_int (x : double) : Res Z :=
  match Prim2SF x with
  | S754_zero _ => Ret 0%Z
  | S754_finite s m e =>
      let mag := if (0 <=? e)%Z then (Z.pos m * 2 ^ e)%Z else (Z.pos m / 2 ^ (- e))%Z in
      let v := if s then (- mag)%Z else mag in
      if (INT_MIN <=? v)%Z && (v <=? INT_MAX)%Z then Ret v else Undef
  | _ => Undef
  end.

(* ================================================================= *)
(** ** Data model *)

Inductive DataType : Type := INT | FLOAT | STRING | UNKNOWN.

Definition DataType_eqb (a b : DataType) : bool :=
  match a, b with
  | INT, INT | FLOAT, FLOAT | STRING, STRING | UNKNOWN, UNKNOWN => true
  | _, _ => false
  end.

Module Tok.
Record t : Type := mk { tipo : string; valor : string }.
End Tok.
Definition Token : Type := Tok.t.

Module Sim.
Record t : Type :=
  mk { nombre : string; tipo : string; valor : string; id_contador : string }.
End Sim.
Definition Simbolo : Type := Sim.t.

(** The three globals of the program. *)
Record Estado : Type := mkEstado {
  tablaSimbolos : list Simbolo;
  idGlobalCounter : Z;
  pilaSemantica : list DataType   (* top of the stack first *)
}.

Definition estado_inicial : Estado := mkEstado [] 1 [].

(** Computations on the globals: an outcome and the globals as the call
    leaves them (for [Undef], as they were when the behaviour became
    undefined). *)
Definition M (A : Type) : Type := Estado -> Res A * Estado.

Definition ret {A : Type} (a : A) : M A := fun st => (Ret a, st).

Definition bind {A B : Type} (m : M A) (k : A -> M B) : M B :=
  fun st =>
    match m st with
    | (Ret a, st') => k a st'
    | (Throw e, st') => (Throw e, st')
    | (Undef, st') => (Undef, st')
    | (SinFuel, st') => (SinFuel, st')
    end.

Definition lift {A : Type} (r : Res A) : M A := fun st => (r, st).

Definition throw {A : Type} (e : excepcion) : M A := lift (Throw e).

Declare Scope res_scope.
Delimit Scope res_scope with res.
Notation "x <- e ;; k" := (rbind e (fun x => k))
  (at level 61, e at next level, right associativity) : res_scope.

Declare Scope m_scope.
Delimit Scope m_scope with m.
Notation "x <- e ;; k" := (bind e (fun x => k))
  (at level 61, e at next level, right associativity) : m_scope.
Notation "' p <- e ;; k" := (bind e (fun x => let 'p := x in k))
  (at level 61, p pattern, e at next level, right associativity) : m_scope.
Notation "e ;; k" := (bind e (fun _ => k))
  (at level 61, right associativity) : m_scope.

Definition leer_tabla : M (list Simbolo) := fun st => (Ret (tablaSimbolos st), st).

(** [pilaSemantica.push(t)] *)
Definition push (t : DataType) : M unit :=
  fun st =>
    (Ret tt, mkEstado (tablaSimbolos st) (idGlobalCounter st) (t :: pilaSemantica st)).

(** [t = pilaSemantica.top(); pilaSemantica.pop();] *)
Definition top_pop : M DataType :=
  fun st =>
    match pilaSemantica st with
    | t :: resto => (Ret t, mkEstado (tablaSimbolos st) (idGlobalCounter st) resto)
    | [] => (Undef, st)
    end.

(** [tokens[i]] *)
Definition leer (tokens : list Token) (i : nat) : Res Token :=
  match nth_error tokens i with
  | Some t => Ret t
  | None => Undef
  end.

(** [i < tokens.size() && tokens[i].tipo == tipo] *)
Definition es_tipo (tokens : list Token) (i : nat) (tipo : string) : bool :=
  match nth_error tokens i with
  | Some t => Tok.tipo t =? tipo
  | None => false
  end.

(** [i < tokens.size() && tokens[i].tipo == "OPERADOR" && tokens[i].valor == ";"] *)
Definition es_punto_y_coma (tokens : list Token) (i : nat) : bool :=
  match nth_error tokens i with
  | Some t => (Tok.tipo t =? "OPERADOR") && (Tok.valor t =? ";")
  | None => false
  end.

(* ================================================================= *)
(** ** The syntax tree: [Node], [getType], [evaluate] *)

Inductive Node : Type :=
| NumberNode (value : double) (dataType : DataType)
| VariableNode (name : string)
| OperatorNode (op : ascii) (left right : Node).

(** [NumberNode(const string& val)] *)
Definition NumberNode_cadena (val : string) : Res Node :=
  if contiene "." val then (v <- stod val ;; Ret (NumberNode v FLOAT))%res
  else (v <- stod val ;; Ret (NumberNode v INT))%res.

(** [VariableNode::getType] *)
Fixpoint getType_variable (tabla : list Simbolo) (name : string) : Res DataType :=
  match tabla with
  | simbolo :: resto =>
      if Sim.nombre simbolo =? name then
        if Sim.tipo simbolo =? "int" then Ret INT
        else if Sim.tipo simbolo =? "float" then Ret FLOAT
        else if Sim.tipo simbolo =? "string" then Ret STRING
        else getType_variable resto name
      else getType_variable resto name
  | [] => Throw (runtime_error ("Variable no encontrada: " ++ name))
  end.

(** [VariableNode::evaluate] *)
Fixpoint evaluate_variable (tabla : list Simbolo) (name : string) : Res double :=
  match tabla with
  | simbolo :: resto =>
      if Sim.nombre simbolo =? name then stod (Sim.valor simbolo)
      else evaluate_variable resto name
  | [] => Throw (runtime_error ("Variable no encontrada: " ++ name))
  end.

(** The body of [OperatorNode::getType] once both operand types are known. *)
Definition tipo_operacion (op : ascii) (leftType rightType : DataType) : Res DataType :=
  if (DataType_eqb leftType INT && DataType_eqb rightType FLOAT)
     || (DataType_eqb leftType FLOAT && DataType_eqb rightType INT)
  then Ret FLOAT
  else if negb (DataType_eqb leftType rightType)
  then Throw (runtime_error
         "Error de tipo: no se pueden mezclar tipos diferentes en operaciones")
  else if DataType_eqb leftType STRING && negb (Ascii.eqb op "+")
  then Throw (runtime_error
         "Error de tipo: solo se permite la concatenación (+) con strings")
  else Ret leftType.

Fixpoint getType (tabla : list Simbolo) (n : Node) : Res DataType :=
  match n with
  | NumberNode _ dataType => Ret dataType
  | VariableNode name => getType_variable tabla name
  | OperatorNode op lhs rhs =>
      (leftType <- getType tabla lhs ;;
       rightType <- getType tabla rhs ;;
       tipo_operacion op leftType rightType)%res
  end.

(** The [switch (op)] of [OperatorNode::evaluate]. *)
Definition aplicar (op : ascii) (lval rval : double) : Res double :=
  if Ascii.eqb op "+" then Ret (lval + rval)%float
  else if Ascii.eqb op "-" then Ret (lval - rval)%float
  else if Ascii.eqb op "*" then Ret (lval * rval)%float
  else if Ascii.eqb op "/" then Ret (lval / rval)%float
  else Throw (runtime_error "Operador desconocido").

Fixpoint evaluate (tabla : list Simbolo) (n : Node) : Res double :=
  match n with
  | NumberNode value _ => Ret value
  | VariableNode name => evaluate_variable tabla name
  | OperatorNode op lhs rhs =>
      (operationType <- getType tabla n ;;
       if DataType_eqb operationType STRING
       then Throw (runtime_error
              "Las operaciones con strings deben manejarse en otra función")
       else
         lval <- evaluate tabla lhs ;;
         rval <- evaluate tabla rhs ;;
         aplicar op lval rval)%res
  end.

(* ================================================================= *)
(** ** Type helpers and symbol lookup *)

Definition stringToDataType (tipo : string) : DataType :=
  if tipo =? "int" then INT
  else if tipo =? "float" then FLOAT
  else if tipo =? "string" then STRING
  else UNKNOWN.

Definition dataTypeToString (tipo : DataType) : string :=
  match tipo with
  | INT => "int"
  | FLOAT => "float"
  | STRING => "string"
  | UNKNOWN => "unknown"
  end.

Definition esValorCompatible (valor tipo : string) : bool :=
  if tipo =? "int" then solo_digitos (quitar_menos valor)
  else if tipo =? "float" then numero_sin_signo (quitar_menos valor)
  else if tipo =? "string" then true
  else false.

(** [buscarVariable]: the first symbol called [nombre], if any. *)
Definition buscarVariable (tabla : list Simbolo) (nombre : string) : option Simbolo :=
  find (fun s => Sim.nombre s =? nombre) tabla.

(** [buscarDato]: the value of the first symbol called [nombre]. *)
Fixpoint buscarDato (tabla : list Simbolo) (nombre : string) : Res string :=
  match tabla with
  | s :: resto =>
      if Sim.nombre s =? nombre then Ret (Sim.valor s) else buscarDato resto nombre
  | [] => Throw (runtime_error ("Error: Variable '" ++ nombre ++ "' no declarada"))
  end.

(* ================================================================= *)
(** ** The expression builder [construirAST] *)

(** [valor[0]]: the first character, or the terminating NUL of an empty
    string. *)
Definition primer_caracter (s : string) : ascii :=
  match s with
  | String c _ => c
  | EmptyString => Ascii.zero
  end.

(** What an operator does to the semantic stack. *)
Definition verificar_tipos : M unit :=
  (tipoDerecho <- top_pop ;;
   tipoIzquierdo <- top_pop ;;
   if (DataType_eqb tipoIzquierdo INT && DataType_eqb tipoDerecho FLOAT)
      || (DataType_eqb tipoIzquierdo FLOAT && DataType_eqb tipoDerecho INT)
   then push FLOAT
   else if DataType_eqb tipoIzquierdo tipoDerecho
   then push tipoIzquierdo
   else throw (runtime_error "Tipos incompatibles"))%m.

(** One operand at [tokens[i]]: a parenthesised expression (built by
    [rec]), a number or an identifier. The code has this text twice, for
    the first operand and for the right operand of an operator; the two
    differ in the exception [otro] raised on any other token. The result
    carries the cursor after the operand. *)
Definition factor (rec : nat -> M (Node * nat)) (tokens : list Token) (i : nat)
    (otro : string -> excepcion) : M (Node * nat) :=
  (t <- lift (leer tokens i) ;;
   if Tok.tipo t =? "PARENTESIS_IZQUIERDO" then
     ' (n, j) <- rec (i + 1) ;;
     if es_tipo tokens j "PARENTESIS_DERECHO" then ret (n, j + 1)
     else throw (runtime_error "Se esperaba ')'")
   else if Tok.tipo t =? "NUMERO" then
     n <- lift (NumberNode_cadena (Tok.valor t)) ;;
     tabla <- leer_tabla ;;
     ty <- lift (getType tabla n) ;;
     push ty ;;
     ret (n, i + 1)
   else if Tok.tipo t =? "IDENTIFICADOR" then
     tabla <- leer_tabla ;;
     ty <- lift (getType tabla (VariableNode (Tok.valor t))) ;;
     push ty ;;
     ret (VariableNode (Tok.valor t), i + 1)
   else throw (otro (Tok.valor t)))%m.

Definition sin_fuel {A : Type} : M A := lift SinFuel.

(** [construirAST] is [construirAST_rec]; its [while] loop, entered with
    the tree built so far, is [operadores]. Both count their calls and
    iterations down from [fuel]. *)
Fixpoint construirAST_rec (fuel : nat) (tokens : list Token) (i : nat)
    {struct fuel} : M (Node * nat) :=
  match fuel with
  | O => sin_fuel
  | S f =>
      (' (lhs, i1) <- factor (construirAST_rec f tokens) tokens i
                        (fun v => runtime_error ("Factor inesperado: " ++ v)) ;;
       operadores f tokens lhs i1)%m
  end
with operadores (fuel : nat) (tokens : list Token) (lhs : Node) (i : nat)
    {struct fuel} : M (Node * nat) :=
  match fuel with
  | O => sin_fuel
  | S f =>
      match nth_error tokens i with
      | Some t =>
          if Tok.tipo t =? "ARITMETICO" then
            (' (rhs, i2) <- factor (construirAST_rec f tokens) tokens (i + 1)
                              (fun _ => runtime_error "Operando derecho inválido") ;;
             verificar_tipos ;;
             operadores f tokens (OperatorNode (primer_caracter (Tok.valor t)) lhs rhs) i2)%m
          else ret (lhs, i)
      | None => ret (lhs, i)
      end
  end.

(** Every call or iteration consumes a token, so [S (length tokens)] is
    fuel enough. *)
Definition construirAST (tokens : list Token) (i : nat) : M (Node * nat) :=
  construirAST_rec (S (List.length tokens)) tokens i.

(* ================================================================= *)
(** ** Statement recognizers

    A recognizer takes the cursor [i] by reference and returns [bool]:
    here it returns the pair of its result and the cursor it leaves. *)

(** The condition that opens [esOperacionAritmetica]. [&&] binds tighter
    than [||], so it reads
    [(i + 3 < size && t[i] is IDENTIFICADOR)
     || (t[i] is PARENTESIS_IZQUIERDO && t[i+1] is OPERADOR)
     || t[i+1] is PARENTESIS_IZQUIERDO
     || (t[i+1] is PARENTESIS_DERECHO && t[i+1].valor == "=")],
    evaluated left to right with short circuit. *)
Definition condicion_aritmetica (tokens : list Token) (i : nat) : Res bool :=
  (a_b <- (if Nat.ltb (i + 3) (List.length tokens)
           then t <- leer tokens i ;; Ret (Tok.tipo t =? "IDENTIFICADOR")
           else Ret false) ;;
   if (a_b : bool) then Ret true
   else
     t <- leer tokens i ;;
     c_d <- (if Tok.tipo t =? "PARENTESIS_IZQUIERDO"
             then t1 <- leer tokens (i + 1) ;; Ret (Tok.tipo t1 =? "OPERADOR")
             else Ret false) ;;
     if (c_d : bool) then Ret true
     else
       t1 <- leer tokens (i + 1) ;;
       if Tok.tipo t1 =? "PARENTESIS_IZQUIERDO" then Ret true
       else if Tok.tipo t1 =? "PARENTESIS_DERECHO" then Ret (Tok.valor t1 =? "=")
       else Ret false)%res.

(** The value written back for [resultado]. *)
Definition valor_nuevo (tipoDestino : DataType) (resultado : double) : Res string :=
  if DataType_eqb tipoDestino INT
  then (n <- static_cast_int resultado ;; Ret (to_string_int n))%res
  else Ret (to_string_double resultado).

(** The loop that updates the value in the symbol table: the first symbol
    called [nombreVariable] gets the new value, then [break]. *)
Fixpoint actualizar (tabla : list Simbolo) (nombreVariable : string)
    (tipoDestino : DataType) (resultado : double) : Res (list Simbolo) :=
  match tabla with
  | simbolo :: resto =>
      if Sim.nombre simbolo =? nombreVariable then
        (v <- valor_nuevo tipoDestino resultado ;;
         Ret (Sim.mk (Sim.nombre simbolo) (Sim.tipo simbolo) v
                     (Sim.id_contador simbolo) :: resto))%res
      else
        (r <- actualizar resto nombreVariable tipoDestino resultado ;;
         Ret (simbolo :: r))%res
  | [] => Ret []
  end.

Definition poner_tabla (tabla : list Simbolo) : M unit :=
  fun st => (Ret tt, mkEstado tabla (idGlobalCounter st) (pilaSemantica st)).

(** [mostrarExpresionSimple]: the calls it makes while printing. *)
Fixpoint mostrarExpresionSimple (tabla : list Simbolo) (node : Node) : Res unit :=
  match node with
  | NumberNode _ _ => Ret tt
  | VariableNode _ => (_ <- getType tabla node ;; Ret tt)%res
  | OperatorNode _ lhs rhs =>
      (_ <- mostrarExpresionSimple tabla lhs ;;
       _ <- mostrarExpresionSimple tabla rhs ;;
       _ <- getType tabla node ;;
       Ret tt)%res
  end.

(** The [try] block of [esOperacionAritmetica], entered with the cursor
    [i] already past the identifier and the token after it.
    ([construirAST] never returns a null pointer, so the test of [!root]
    has no case here.) Without the final semicolon control leaves the
    block and reaches the last [return false] of the function. *)
Definition intento_aritmetico (tokens : list Token) (posInicial i : nat)
    (nombreVariable : string) (simboloDestino : Simbolo) : M (bool * nat) :=
  (' (root, j) <- construirAST tokens i ;;
   tipoExpresion <- top_pop ;;
   let tipoDestino := stringToDataType (Sim.tipo simboloDestino) in
   if negb (DataType_eqb tipoExpresion tipoDestino) then ret (false, posInicial)
   else if es_punto_y_coma tokens j then
     tabla <- leer_tabla ;;
     resultado <- lift (evaluate tabla root) ;;
     nueva <- lift (actualizar tabla nombreVariable tipoDestino resultado) ;;
     poner_tabla nueva ;;
     lift (mostrarExpresionSimple nueva root) ;;
     lift (evaluate nueva root) ;;
     ret (true, j + 1)
   else ret (false, j))%m.

(** [catch (const runtime_error& e) { i = posInicial; return false; }];
    any other exception leaves the function. *)
Definition capturar (posInicial : nat) (m : M (bool * nat)) : M (bool * nat) :=
  fun st =>
    match m st with
    | (Throw (runtime_error _), st') => (Ret (false, posInicial), st')
    | r => r
    end.

Definition esOperacionAritmetica (tokens : list Token) (i : nat) : M (bool * nat) :=
  (entra <- lift (condicion_aritmetica tokens i) ;;
   if (entra : bool) then
     t <- lift (leer tokens i) ;;
     let nombreVariable := Tok.valor t in
     tabla <- leer_tabla ;;
     match buscarVariable tabla nombreVariable with
     | None => ret (false, i)
     | Some simboloDestino =>
         capturar i (intento_aritmetico tokens i (i + 2) nombreVariable simboloDestino)
     end
   else ret (false, i))%m.

(** The cursor after an optional semicolon at [i]. *)
Definition tras_punto_y_coma (tokens : list Token) (i : nat) : nat :=
  if es_punto_y_coma tokens i then i + 1 else i.

Definition esLectura (tokens : list Token) (i : nat) : M (bool * nat) :=
  if Nat.ltb (i + 3) (List.length tokens)
     && es_tipo tokens i "LECTURA"
     && es_tipo tokens (i + 1) "PARENTESIS_IZQUIERDO"
     && es_tipo tokens (i + 2) "IDENTIFICADOR"
     && es_tipo tokens (i + 3) "PARENTESIS_DERECHO"
  then
    (t2 <- lift (leer tokens (i + 2)) ;;
     tabla <- leer_tabla ;;
     match buscarVariable tabla (Tok.valor t2) with
     | None => ret (false, i)
     | Some _ => ret (true, tras_punto_y_coma tokens (i + 4))
     end)%m
  else ret (false, i).

Definition esEscritura (tokens : list Token) (i : nat) : M (bool * nat) :=
  if Nat.ltb (i + 3) (List.length tokens)
     && es_tipo tokens i "ESCRITURA"
     && es_tipo tokens (i + 1) "PARENTESIS_IZQUIERDO"
     && (es_tipo tokens (i + 2) "IDENTIFICADOR"
         || es_tipo tokens (i + 2) "NUMERO"
         || es_tipo tokens (i + 2) "CADENA")
     && es_tipo tokens (i + 3) "PARENTESIS_DERECHO"
  then
    (t2 <- lift (leer tokens (i + 2)) ;;
     tabla <- leer_tabla ;;
     if (Tok.tipo t2 =? "IDENTIFICADOR")
        && match buscarVariable tabla (Tok.valor t2) with
           | None => true
           | Some _ => false
           end
     then ret (false, i)
     else ret (true, tras_punto_y_coma tokens (i + 4)))%m
  else ret (false, i).

(** The initial value of a declaration, from the token after [=]: the
    text of a number or string, or the value of a declared variable of
    the same type; [None] on each of the three error returns. *)
Definition valor_inicial (tabla : list Simbolo) (tipo : string) (t3 : Token)
    : option string :=
  if (Tok.tipo t3 =? "NUMERO") || (Tok.tipo t3 =? "CADENA") then Some (Tok.valor t3)
  else if Tok.tipo t3 =? "IDENTIFICADOR" then
    match buscarVariable tabla (Tok.valor t3) with
    | None => None
    | Some varExistente =>
        if negb (tipo =? Sim.tipo varExistente) then None
        else Some (Sim.valor varExistente)
    end
  else None.

(** [idContador = "id" + to_string(idGlobalCounter++);
     tablaSimbolos.push_back({nombre, tipo, valor, idContador});] *)
Definition agregar (nombre tipo valor : string) : M unit :=
  fun st =>
    if (idGlobalCounter st =? INT_MAX)%Z then (Undef, st)
    else
      (Ret tt,
       mkEstado
         (tablaSimbolos st ++
            [Sim.mk nombre tipo valor ("id" ++ to_string_int (idGlobalCounter st))])
         (idGlobalCounter st + 1)%Z
         (pilaSemantica st)).

Definition esDeclaracionVariable (tokens : list Token) (i : nat) : M (bool * nat) :=
  if Nat.ltb (i + 3) (List.length tokens)
     && es_tipo tokens i "VARIABLE"
     && es_tipo tokens (i + 1) "IDENTIFICADOR"
     && es_tipo tokens (i + 2) "OPERADOR"
     && match nth_error tokens (i + 2) with
        | Some t2 => Tok.valor t2 =? "="
        | None => false
        end
  then
    (t0 <- lift (leer tokens i) ;;
     t1 <- lift (leer tokens (i + 1)) ;;
     t3 <- lift (leer tokens (i + 3)) ;;
     let tipo := Tok.valor t0 in
     let nombre := Tok.valor t1 in
     tabla <- leer_tabla ;;
     if existsb (fun simbolo => Sim.nombre simbolo =? nombre) tabla
     then ret (false, i)
     else
       match valor_inicial tabla tipo t3 with
       | None => ret (false, i)
       | Some valor =>
           if negb (esValorCompatible valor tipo) then ret (false, i)
           else
             agregar nombre tipo valor ;;
             if es_punto_y_coma tokens (i + 4) then ret (true, i + 5)
             else ret (false, i + 4)
       end)%m
  else ret (false, i).

(** The test that opens [esBloqueWhile] and [esBloqueIf]:
    [palabra ( operand comparison operand )]. *)
Definition cabecera (tokens : list Token) (i : nat) (tipo palabra : string) : bool :=
  Nat.ltb (i + 6) (List.length tokens)
  && es_tipo tokens i tipo
  && match nth_error tokens i with
     | Some t => Tok.valor t =? palabra
     | None => false
     end
  && es_tipo tokens (i + 1) "PARENTESIS_IZQUIERDO"
  && (es_tipo tokens (i + 2) "IDENTIFICADOR" || es_tipo tokens (i + 2) "NUMERO")
  && es_tipo tokens (i + 3) "COMPARACION"
  && (es_tipo tokens (i + 4) "IDENTIFICADOR" || es_tipo tokens (i + 4) "NUMERO")
  && es_tipo tokens (i + 5) "PARENTESIS_DERECHO".

(** [esBloqueWhile], with [analizarBloque] as [bloque]. *)
Definition esBloqueWhile (bloque : nat -> M (bool * nat)) (tokens : list Token)
    (i : nat) : M (bool * nat) :=
  if cabecera tokens i "CICLO" "while" then
    if es_tipo tokens (i + 6) "LLAVE_IZQUIERDA" then
      (' (ok, j) <- bloque (i + 7) ;;
       if negb ok then ret (false, j)
       else if es_tipo tokens j "LLAVE_DERECHA" then ret (true, j + 1)
       else ret (false, j))%m
    else ret (false, i + 6)
  else ret (false, i).

(** An operand of the condition of [esBloqueIf] is acceptable when it is
    a number or a declared variable. *)
Definition operando_declarado (tabla : list Simbolo) (t : Token) : bool :=
  (Tok.tipo t =? "NUMERO")
  || match buscarVariable tabla (Tok.valor t) with
     | Some _ => true
     | None => false
     end.

(** [esBloqueIf], with [analizarBloque] as [bloque]. *)
Definition esBloqueIf (bloque : nat -> M (bool * nat)) (tokens : list Token)
    (i : nat) : M (bool * nat) :=
  if cabecera tokens i "CONDICION" "if" then
    (t2 <- lift (leer tokens (i + 2)) ;;
     t4 <- lift (leer tokens (i + 4)) ;;
     tabla <- leer_tabla ;;
     if negb (operando_declarado tabla t2) then ret (false, i)
     else if negb (operando_declarado tabla t4) then ret (false, i)
     else if es_tipo tokens (i + 6) "LLAVE_IZQUIERDA" then
       ' (ok, j) <- bloque (i + 7) ;;
       if negb ok then ret (false, j)
       else if es_tipo tokens j "LLAVE_DERECHA" then
         if es_tipo tokens (j + 1) "CONDICION"
            && match nth_error tokens (j + 1) with
               | Some t => Tok.valor t =? "else"
               | None => false
               end
         then
           if es_tipo tokens (j + 2) "LLAVE_IZQUIERDA" then
             ' (ok2, k) <- bloque (j + 3) ;;
             if negb ok2 then ret (false, k)
             else if es_tipo tokens k "LLAVE_DERECHA" then ret (true, k + 1)
             else ret (true, k)
           else ret (false, j + 2)
         else ret (true, j + 1)
       else ret (false, j)
     else ret (false, i + 6))%m
  else ret (false, i).

(** The six recognizers in the order in which [analizarBloque] and
    [analisisSintactico] try them, each on the cursor the previous one
    left: the result is [true] at the first that succeeds. *)
Definition reconocer (bloque : nat -> M (bool * nat)) (tokens : list Token)
    (i : nat) : M (bool * nat) :=
  (' (ok1, i1) <- esDeclaracionVariable tokens i ;;
   if (ok1 : bool) then ret (true, i1) else
   ' (ok2, i2) <- esEscritura tokens i1 ;;
   if (ok2 : bool) then ret (true, i2) else
   ' (ok3, i3) <- esLectura tokens i2 ;;
   if (ok3 : bool) then ret (true, i3) else
   ' (ok4, i4) <- esBloqueIf bloque tokens i3 ;;
   if (ok4 : bool) then ret (true, i4) else
   ' (ok5, i5) <- esBloqueWhile bloque tokens i4 ;;
   if (ok5 : bool) then ret (true, i5) else
   esOperacionAritmetica tokens i5)%m.

Fixpoint analizarBloque_rec (fuel : nat) (tokens : list Token) (i : nat)
    {struct fuel} : M (bool * nat) :=
  match fuel with
  | O => sin_fuel
  | S f =>
      if Nat.ltb i (List.length tokens) && negb (es_tipo tokens i "LLAVE_DERECHA") then
        (' (ok, j) <- reconocer (analizarBloque_rec f tokens) tokens i ;;
         if (ok : bool) then analizarBloque_rec f tokens j else ret (false, j))%m
      else ret (true, i)
  end.

Definition analizarBloque (tokens : list Token) (i : nat) : M (bool * nat) :=
  analizarBloque_rec (S (List.length tokens)) tokens i.

Definition limpiarPilaSemantica : M unit :=
  fun st => (Ret tt, mkEstado (tablaSimbolos st) (idGlobalCounter st) []).

(** The loop of [analisisSintactico], from cursor [i]. *)
Fixpoint analisisSintactico_rec (fuel : nat) (tokens : list Token) (i : nat)
    {struct fuel} : M bool :=
  match fuel with
  | O => sin_fuel
  | S f =>
      if Nat.ltb i (List.length tokens) then
        (limpiarPilaSemantica ;;
         ' (ok, j) <- reconocer (analizarBloque tokens) tokens i ;;
         if (ok : bool) then analisisSintactico_rec f tokens j else ret false)%m
      else ret true
  end.

Definition analisisSintactico (tokens : list Token) : M bool :=
  analisisSintactico_rec (S (List.length tokens)) tokens 0.

(* ================================================================= *)
(** ** The tokenizer [Lexico]

    A pattern is tried with [regex_search] on the text from [pos] on and
    counts only when its match starts at offset 0: it is modelled by the
    function giving the match of the pattern at the start of the
    remaining text, if there is one. The text before [pos] is not visible
    to the search, so a [\b] at the start of a key word holds. *)

Definition patron : Type := string -> option string.

(** The rest of [s] after its prefix [w]. *)
Fixpoint tras_prefijo (w s : string) : option string :=
  match w, s with
  | EmptyString, _ => Some s
  | String a w', String c s' => if Ascii.eqb a c then tras_prefijo w' s' else None
  | String _ _, EmptyString => None
  end.

(** [\b] after a word: the text ends or goes on with a non-word
    character. *)
Definition fin_de_palabra (resto : string) : bool :=
  match resto with
  | EmptyString => true
  | String c _ => negb (es_palabra c)
  end.

(** [\b(w1|w2|...)\b] *)
Fixpoint palabras (ws : list string) : patron :=
  fun s =>
    match ws with
    | w :: otras =>
        match tras_prefijo w s with
        | Some resto => if fin_de_palabra resto then Some w else palabras otras s
        | None => palabras otras s
        end
    | [] => None
    end.

(** [(w1|w2|...)] *)
Fixpoint literales (ws : list string) : patron :=
  fun s =>
    match ws with
    | w :: otras =>
        match tras_prefijo w s with
        | Some _ => Some w
        | None => literales otras s
        end
    | [] => None
    end.

(** A class of single characters. *)
Definition caracter (p : ascii -> bool) : patron :=
  fun s =>
    match s with
    | String c _ => if p c then Some (String c EmptyString) else None
    | EmptyString => None
    end.

Definition uno_de (cs : list ascii) (c : ascii) : bool :=
  existsb (Ascii.eqb c) cs.

(** The pattern [cadena]: a double quote, characters other than the
    double quote, a double quote. *)
Definition cadena : patron :=
  fun s =>
    match s with
    | String c r =>
        if Ascii.eqb c comilla then
          let '(cuerpo, resto) := tomar_mientras (fun d => negb (Ascii.eqb d comilla)) r in
          match resto with
          | String _ _ => Some (String comilla (cuerpo ++ String comilla EmptyString)%string)
          | EmptyString => None
          end
        else None
    | EmptyString => None
    end.

(** [\d+(\.\d+)?] *)
Definition numeros : patron :=
  fun s =>
    let '(ent, resto) := tomar_mientras es_digito s in
    if no_vacia ent then
      match resto with
      | String "." r =>
          let '(frac, _) := tomar_mientras es_digito r in
          if no_vacia frac then Some (ent ++ String "." frac)%string else Some ent
      | _ => Some ent
      end
    else None.

(** [[a-zA-Z_][a-zA-Z0-9_]*] *)
Definition identificadores : patron :=
  fun s =>
    match s with
    | String c r =>
        if es_inicio_ident c then Some (String c (fst (tomar_mientras es_palabra r)))
        else None
    | EmptyString => None
    end.

Definition patrones : list (patron * string) :=
  [ (palabras ["int"; "float"; "string"], "VARIABLE");
    (palabras ["while"], "CICLO");
    (palabras ["write"], "ESCRITURA");
    (palabras ["read"], "LECTURA");
    (literales [">="; "<="; "=="; "!="; ">"; "<"], "COMPARACION");
    (caracter (uno_de ["+"; "-"; "/"; "*"]%char), "ARITMETICO");
    (literales ["="; ";"], "OPERADOR");
    (cadena, "CADENA");
    (caracter (Ascii.eqb ")"), "PARENTESIS_DERECHO");
    (caracter (Ascii.eqb "("), "PARENTESIS_IZQUIERDO");
    (caracter (Ascii.eqb "]"), "CORCHETE_DERECHO");
    (caracter (Ascii.eqb "["), "CORCHETE_IZQUIERDO");
    (caracter (Ascii.eqb "}"), "LLAVE_DERECHA");
    (caracter (Ascii.eqb "{"), "LLAVE_IZQUIERDA");
    (numeros, "NUMERO");
    (palabras ["if"; "else"], "CONDICION");
    (identificadores, "IDENTIFICADOR") ].

(** The [for] loop over [patrones]: the token of the first pattern that
    matches at the start of [s]. *)
Fixpoint primer_patron (ps : list (patron * string)) (s : string) : option Token :=
  match ps with
  | (p, tipo) :: otros =>
      match p s with
      | Some m => Some (Tok.mk tipo m)
      | None => primer_patron otros s
      end
  | [] => None
  end.

(** The [while] loop of [Lexico] on the text from [pos] on. After a token
    [pos] advances by the length of its text: the [omitir] characters
    still to be passed over belong to that token. *)
Fixpoint Lexico_desde (input : string) (omitir : nat) : list Token :=
  match input with
  | EmptyString => []
  | String _ resto =>
      match omitir with
      | S k => Lexico_desde resto k
      | O =>
          match primer_patron patrones input with
          | Some t => t :: Lexico_desde resto (String.length (Tok.valor t) - 1)
          | None => Lexico_desde resto 0
          end
      end
  end.

Definition Lexico (input : string) : list Token := Lexico_desde input 0.

(** [main] after the source text has been read: the verdict and the
    globals at the end. *)
Definition principal (codigo_completo : string) : Res bool * Estado :=
  analisisSintactico (Lexico codigo_completo) estado_inicial.

(* ================================================================= *)
(** ** Notions used to state the properties *)

(** The tree [((t0 op1 t1) op2 t2) ...] of a first term and the
    following (operator, term) pairs, associated to the left. *)
Definition anidar (t0 : Node) (cola : list (ascii * Node)) : Node :=
  fold_left (fun acc p => OperatorNode (fst p) acc (snd p)) cola t0.

(** The value [((v0 op1 v1) op2 v2) ...], computed from left to right. *)
Fixpoint aplicar_izquierda (v0 : double) (cola : list (ascii * double)) : Res double :=
  match cola with
  | (op, v) :: resto => (w <- aplicar op v0 v ;; aplicar_izquierda w resto)%res
  | [] => Ret v0
  end.

(** The grammar [expr := term (AR term)*], [term := NUM | ID | ( expr )]
    read on the tokens from cursor [i] to cursor [j], with the tree it
    denotes when every operator associates to the left and no operator
    has precedence over another. *)
Inductive es_expresion (tokens : list Token) : nat -> nat -> Node -> Prop :=
| expresion_plana : forall i j k t0 cola,
    es_termino tokens i j t0 ->
    es_cola tokens j k cola ->
    es_expresion tokens i k (anidar t0 cola)
with es_termino (tokens : list Token) : nat -> nat -> Node -> Prop :=
| termino_numero : forall i t n,
    nth_error tokens i = Some t ->
    Tok.tipo t = "NUMERO" ->
    NumberNode_cadena (Tok.valor t) = Ret n ->
    es_termino tokens i (i + 1) n
| termino_identificador : forall i t,
    nth_error tokens i = Some t ->
    Tok.tipo t = "IDENTIFICADOR" ->
    es_termino tokens i (i + 1) (VariableNode (Tok.valor t))
| termino_parentesis : forall i j t n,
    nth_error tokens i = Some t ->
    Tok.tipo t = "PARENTESIS_IZQUIERDO" ->
    es_expresion tokens (i + 1) j n ->
    es_tipo tokens j "PARENTESIS_DERECHO" = true ->
    es_termino tokens i (j + 1) n
with es_cola (tokens : list Token) : nat -> nat -> list (ascii * Node) -> Prop :=
| cola_vacia : forall i, es_cola tokens i i []
| cola_operador : forall i j k t n cola,
    nth_error tokens i = Some t ->
    Tok.tipo t = "ARITMETICO" ->
    es_termino tokens (i + 1) j n ->
    es_cola tokens j k cola ->
    es_cola tokens i k ((primer_caracter (Tok.valor t), n) :: cola).

(** The names of the symbol table are pairwise distinct. *)
Definition nombres_distintos (st : Estado) : Prop :=
  NoDup (map Sim.nombre (tablaSimbolos st)).

(** What a recognizer entered at cursor [i] returns: the cursor never
    goes back, and it moves forward when the recognizer succeeds. *)
Definition avanza (i : nat) (r : Res (bool * nat) * Estado) : Prop :=
  forall ok j st', r = (Ret (ok, j), st') -> i <= j /\ (ok = true -> i < j).

(** Distinct names before give distinct names after. *)
Definition mantiene_distintos (st st' : Estado) : Prop :=
  nombres_distintos st -> nombres_distintos st'.

(** The names of the symbol table, in order, are the same in both states. *)
Definition mismos_nombres (st st' : Estado) : Prop :=
  map Sim.nombre (tablaSimbolos st') = map Sim.nombre (tablaSimbolos st).

(** The symbol table and the id counter are the same in both states. *)
Definition mismos_simbolos (st st' : Estado) : Prop :=
  tablaSimbolos st' = tablaSimbolos st /\ idGlobalCounter st' = idGlobalCounter st.

(** The exact value of a finite [double] as a fraction. *)
Definition fraccion (x : double) : option (Z * Z) :=
  match Prim2SF x with
  | S754_zero _ => Some (0, 1)%Z
  | S754_finite s m e =>
      let n := if s then Z.neg m else Z.pos m in
      Some (if (0 <=? e)%Z then (n * 2 ^ e, 1)%Z else (n, 2 ^ (- e))%Z)
  | _ => None
  end.

(** A relation between the state before a computation and the state it
    leaves, whatever its outcome. *)
Definition conserva {A : Type} (R : Estado -> Estado -> Prop) (m : M A) : Prop :=
  forall st, R st (snd (m st)).

(** ** Example programs *)

(** The symbol table after [int x=5; int y=3;]. *)
Definition tabla_xy : list Simbolo :=
  [Sim.mk "x" "int" "5" "id1"; Sim.mk "y" "int" "3" "id2"].

Definition estado_xy : Estado := mkEstado tabla_xy 3 [].

(** The tree [(x + y) * x]. *)
Definition arbol_suma_producto : Node :=
  OperatorNode "*" (OperatorNode "+" (VariableNode "x") (VariableNode "y"))
               (VariableNode "x").

(** The program [int x = 5; x = x + 1;] and the globals after its
    declaration. *)
Definition tokens_incremento : list Token := Lexico "int x = 5; x = x + 1;".

Definition estado_x5 : Estado := mkEstado [Sim.mk "x" "int" "5" "id1"] 2 [].

(** A string literal: [s] between double quotes. *)
Definition entre_comillas (s : string) : string :=
  String comilla (s ++ String comilla EmptyString).

(** The tokens of [string s = a; string t = b; s = s + t;] for two
    identifiers [s], [t] and two string literals [a], [b]. *)
Definition programa_concatenacion (s t a b : string) : list Token :=
  [ Tok.mk "VARIABLE" "string"; Tok.mk "IDENTIFICADOR" s; Tok.mk "OPERADOR" "=";
    Tok.mk "CADENA" a; Tok.mk "OPERADOR" ";";
    Tok.mk "VARIABLE" "string"; Tok.mk "IDENTIFICADOR" t; Tok.mk "OPERADOR" "=";
    Tok.mk "CADENA" b; Tok.mk "OPERADOR" ";";
    Tok.mk "IDENTIFICADOR" s; Tok.mk "OPERADOR" "="; Tok.mk "IDENTIFICADOR" s;
    Tok.mk "ARITMETICO" "+"; Tok.mk "IDENTIFICADOR" t; Tok.mk "OPERADOR" ";" ].

(** The symbol table after the two declarations of that program. *)
Definition tabla_cadenas (s t a b : string) : list Simbolo :=
  [Sim.mk s "string" a "id1"; Sim.mk t "string" b "id2"].

Definition codigo_concatenacion : string :=
  "string s = " ++ entre_comillas "a" ++ "; string t = " ++ entre_comillas "b"
  ++ "; s = s + t; ".

(** The text thrown by [OperatorNode::evaluate] on a string operation. *)
Definition UnsupportedStringOperation : excepcion :=
  runtime_error "Las operaciones con strings deben manejarse en otra función".

(** The same program with [-] in place of [+]. *)
Definition programa_resta (s t a b : string) : list Token :=
  [ Tok.mk "VARIABLE" "string"; Tok.mk "IDENTIFICADOR" s; Tok.mk "OPERADOR" "=";
    Tok.mk "CADENA" a; Tok.mk "OPERADOR" ";";
    Tok.mk "VARIABLE" "string"; Tok.mk "IDENTIFICADOR" t; Tok.mk "OPERADOR" "=";
    Tok.mk "CADENA" b; Tok.mk "OPERADOR" ";";
    Tok.mk "IDENTIFICADOR" s; Tok.mk "OPERADOR" "="; Tok.mk "IDENTIFICADOR" s;
    Tok.mk "ARITMETICO" "-"; Tok.mk "IDENTIFICADOR" t; Tok.mk "OPERADOR" ";" ].

Definition codigo_resta : string :=
  "string s = " ++ entre_comillas "a" ++ "; string t = " ++ entre_comillas "b"
  ++ "; s = s - t; ".

(** The program [int z = 0; z = 7 / 2;], the globals after its
    declaration and the tree [7 / 2]. *)
Definition tokens_division : list Token := Lexico "int z = 0; z = 7 / 2; ".

Definition estado_z0 : Estado := mkEstado [Sim.mk "z" "int" "0" "id1"] 2 [].

Definition arbol_division : Node :=
  OperatorNode "/" (NumberNode 7%float INT) (NumberNode 2%float INT).

(** ** Further notions: invariants of the globals, the forms of tokens *)

(** What a symbol keeps for ever: its name, its declared type and its id. *)
Definition clave (s : Simbolo) : string * string * string :=
  (Sim.nombre s, Sim.tipo s, Sim.id_contador s).

(** The symbols of [st] are still in [st'], in the same order and with
    the same name, type and id, possibly followed by new ones, and the id
    counter is not lower. *)
Definition crece (st st' : Estado) : Prop :=
  (exists nuevos,
      map clave (tablaSimbolos st') = map clave (tablaSimbolos st) ++ nuevos)
  /\ (idGlobalCounter st <= idGlobalCounter st')%Z.

(** Name, type and id of every symbol and the id counter are the same in
    both states: only values may differ. *)
Definition mismas_claves (st st' : Estado) : Prop :=
  map clave (tablaSimbolos st') = map clave (tablaSimbolos st)
  /\ idGlobalCounter st' = idGlobalCounter st.

(** The id of the k-th symbol declared. *)
Definition id_de (k : nat) : string := "id" ++ to_string_int (Z.of_nat k).

(** The ids of the table are id1, id2, ... in order, and the id counter
    is the number of the next one. *)
Definition ids_en_orden (st : Estado) : Prop :=
  map Sim.id_contador (tablaSimbolos st)
    = map id_de (seq 1 (List.length (tablaSimbolos st)))
  /\ idGlobalCounter st = Z.of_nat (S (List.length (tablaSimbolos st))).

(** The texts that [to_string] gives to the values that are not finite. *)
Definition es_no_finito (v : string) : bool :=
  (v =? "inf") || (v =? "-inf") || (v =? "-nan").

(** The value of a symbol of type [int] is an integer numeral, the value
    of a symbol of type [float] is a decimal numeral or the text of a
    value that is not finite. *)
Definition valor_numerico (s : Simbolo) : bool :=
  if Sim.tipo s =? "int" then esValorCompatible (Sim.valor s) "int"
  else if Sim.tipo s =? "float"
  then esValorCompatible (Sim.valor s) "float" || es_no_finito (Sim.valor s)
  else true.

Definition valores_numericos (st : Estado) : Prop :=
  forallb valor_numerico (tablaSimbolos st) = true.

(** Ids in order before give ids in order after. *)
Definition mantiene_ids (st st' : Estado) : Prop :=
  ids_en_orden st -> ids_en_orden st'.

(** Numeric values before give numeric values after. *)
Definition mantiene_valores (st st' : Estado) : Prop :=
  valores_numericos st -> valores_numericos st'.

(** The text thrown by [OperatorNode::getType] on strings under an
    operator other than [+]. *)
Definition SoloConcatenacion : excepcion :=
  runtime_error "Error de tipo: solo se permite la concatenación (+) con strings".

(** The type [T] that the builder leaves on the semantic stack for the
    tree [n] is the type of [n]: what [getType] returns, unless [n]
    combines strings under an operator other than [+], which the stack
    takes for a string and [getType] rejects. *)
Definition tipo_en_pila (tabla : list Simbolo) (n : Node) (T : DataType) : Prop :=
  getType tabla n = Ret T
  \/ (T = STRING /\ getType tabla n = Throw SoloConcatenacion).

(** The outcome is not a [runtime_error] that leaves the call. *)
Definition sin_runtime_error {A : Type} (r : Res A) : Prop :=
  match r with
  | Throw (runtime_error _) => False
  | _ => True
  end.

(** The program that copies one string variable into another. *)
Definition codigo_copia : string :=
  "string s = " ++ entre_comillas "a" ++ "; string t = " ++ entre_comillas "b"
  ++ "; s = t; ".

(** The globals [st] with the entries [base] under the semantic stack. *)
Definition sobre (base : list DataType) (st : Estado) : Estado :=
  mkEstado (tablaSimbolos st) (idGlobalCounter st) (pilaSemantica st ++ base).

(** A computation that never looks under the semantic stack it is given:
    it runs in the same way on a stack with more entries underneath, and
    leaves them there. *)
Definition marco {A : Type} (m : M A) : Prop :=
  forall base st, m (sobre base st) = (fst (m st), sobre base (snd (m st))).

(** [v] is one of the texts [ws]. *)
Definition en (ws : list string) (v : string) : bool := existsb (String.eqb v) ws.

(** The key words of the language. *)
Definition reservadas : list string :=
  ["int"; "float"; "string"; "while"; "write"; "read"; "if"; "else"].

(** The whole of [v] matches the pattern of identifiers: a letter or an
    underscore, then letters, digits and underscores. *)
Definition es_identificador (v : string) : bool :=
  match v with
  | String c r => es_inicio_ident c && todos es_palabra r
  | EmptyString => false
  end.

(** The whole of [v] matches the pattern of strings: a double quote,
    characters other than the double quote, a double quote. *)
Definition es_cadena (v : string) : bool :=
  match v with
  | String c r =>
      Ascii.eqb c comilla
      && (snd (tomar_mientras (fun d => negb (Ascii.eqb d comilla)) r)
          =? String comilla EmptyString)
  | EmptyString => false
  end.

(** The categories of tokens and the texts that each admits. *)
Definition categorias : list (string * (string -> bool)) :=
  [ ("VARIABLE", en ["int"; "float"; "string"]);
    ("CICLO", en ["while"]);
    ("ESCRITURA", en ["write"]);
    ("LECTURA", en ["read"]);
    ("COMPARACION", en [">="; "<="; "=="; "!="; ">"; "<"]);
    ("ARITMETICO", en ["+"; "-"; "/"; "*"]);
    ("OPERADOR", en ["="; ";"]);
    ("CADENA", es_cadena);
    ("PARENTESIS_DERECHO", en [")"]);
    ("PARENTESIS_IZQUIERDO", en ["("]);
    ("CORCHETE_DERECHO", en ["]"]);
    ("CORCHETE_IZQUIERDO", en ["["]);
    ("LLAVE_DERECHA", en ["}"]);
    ("LLAVE_IZQUIERDA", en ["{"]);
    ("NUMERO", numero_sin_signo);
    ("CONDICION", en ["if"; "else"]);
    ("IDENTIFICADOR", fun v => es_identificador v && negb (en reservadas v)) ].

(** The text of the token fits its category. *)
Definition forma (t : Token) : bool :=
  existsb (fun c => (Tok.tipo t =? fst c) && snd c (Tok.valor t)) categorias.

(** The texts of the tokens, each followed by a blank. *)
Fixpoint unir (tokens : list Token) : string :=
  match tokens with
  | t :: resto => Tok.valor t ++ String " " (unir resto)
  | [] => EmptyString
  end.

(** Two token sequences of the same length that are equal from position
    [k] on. *)
Definition coinciden (k : nat) (a b : list Token) : Prop :=
  List.length a = List.length b
  /\ forall p, k <= p -> nth_error a p = nth_error b p.

(** The globals [st] with the type [T] pushed on the semantic stack. *)
Definition con_tipo (T : DataType) (st : Estado) : Estado :=
  mkEstado (tablaSimbolos st) (idGlobalCounter st) (T :: pilaSemantica st).

(** [getType] succeeds on every variable of the tree. *)
Fixpoint hojas_con_tipo (tabla : list Simbolo) (n : Node) : Prop :=
  match n with
  | NumberNode _ _ => True
  | VariableNode name => exists T, getType_variable tabla name = Ret T
  | OperatorNode _ lhs rhs => hojas_con_tipo tabla lhs /\ hojas_con_tipo tabla rhs
  end.

(** The loop of [main] that reads the source file: every line that is
    not empty, followed by a blank. *)
Fixpoint codigo_completo (lineas : list string) : string :=
  match lineas with
  | linea :: resto =>
      if no_vacia linea then (linea ++ String " " (codigo_completo resto))%string
      else codigo_completo resto
  | [] => EmptyString
  end.

(* ================================================================= *)
(** * Properties *)

(** ** The monad of the globals *)

Lemma bind_ret_inv {A B : Type} (m : M A) (k : A -> M B) st b st' :
  bind m k st = (Ret b, st') ->
  exists a st1, m st = (Ret a, st1) /\ k a st1 = (Ret b, st').
Proof.
  unfold bind. destruct (m st) as [[a | e | | ] st1]; intro H; try discriminate.
  exists a, st1. auto.
Qed.

Lemma lift_ret_inv {A : Type} (r : Res A) st a st' :
  lift r st = (Ret a, st') -> r = Ret a /\ st' = st.
Proof. unfold lift. intro H. inversion H. auto. Qed.

Lemma ret_inv {A : Type} (x a : A) st st' :
  ret x st = (Ret a, st') -> x = a /\ st' = st.
Proof. unfold ret. intro H. inversion H. auto. Qed.

Lemma rbind_ret_inv {A B : Type} (r : Res A) (k : A -> Res B) b :
  rbind r k = Ret b -> exists a, r = Ret a /\ k a = Ret b.
Proof. destruct r; simpl; intro H; try discriminate. eauto. Qed.

Section Conserva.
Variable R : Estado -> Estado -> Prop.
Hypothesis R_refl : forall st, R st st.
Hypothesis R_trans : forall a b c, R a b -> R b c -> R a c.

Lemma conserva_ret {A : Type} (a : A) : conserva R (ret a).
Proof. intro st. apply R_refl. Qed.

Lemma conserva_lift {A : Type} (r : Res A) : conserva R (lift r).
Proof. intro st. apply R_refl. Qed.

Lemma conserva_bind {A B : Type} (m : M A) (k : A -> M B) :
  conserva R m -> (forall a, conserva R (k a)) -> conserva R (bind m k).
Proof.
  intros Hm Hk st. unfold bind. specialize (Hm st).
  destruct (m st) as [[a | e | | ] st1]; simpl in *; auto.
  eapply R_trans; [exact Hm | apply Hk].
Qed.

Lemma conserva_leer_tabla : conserva R leer_tabla.
Proof. intro st. apply R_refl. Qed.

End Conserva.

(** ** The expression builder *)

Lemma mismos_simbolos_refl st : mismos_simbolos st st.
Proof. split; reflexivity. Qed.

Lemma mismos_simbolos_trans a b c :
  mismos_simbolos a b -> mismos_simbolos b c -> mismos_simbolos a c.
Proof. intros [H1 H2] [H3 H4]. split; congruence. Qed.

Lemma conserva_push t : conserva mismos_simbolos (push t).
Proof. intro st. split; reflexivity. Qed.

Lemma conserva_top_pop : conserva mismos_simbolos top_pop.
Proof. intro st. unfold top_pop. destruct (pilaSemantica st); split; reflexivity. Qed.

Ltac caso_if :=
  match goal with
  | |- context [if ?b then _ else _] => destruct b eqn:?
  end.

Ltac caso_if_en H :=
  match type of H with
  | context [if ?b then _ else _] => destruct b eqn:?
  end.

Ltac conserva_con refl trans :=
  first
    [ apply (conserva_ret _ refl)
    | apply (conserva_lift _ refl)
    | apply (conserva_leer_tabla _ refl)
    | apply (conserva_bind _ trans); [ | intros ] ].

Ltac conserva_paso :=
  first
    [ apply conserva_push
    | apply conserva_top_pop
    | conserva_con mismos_simbolos_refl mismos_simbolos_trans ].

Lemma conserva_verificar_tipos : conserva mismos_simbolos verificar_tipos.
Proof.
  unfold verificar_tipos, throw.
  repeat conserva_paso.
  caso_if; [ conserva_paso | caso_if; conserva_paso ].
Qed.

Lemma conserva_factor rec tokens i otro :
  (forall k, conserva mismos_simbolos (rec k)) ->
  conserva mismos_simbolos (factor rec tokens i otro).
Proof.
  intro Hrec. unfold factor, throw.
  conserva_paso; [ conserva_paso | ].
  caso_if.
  { conserva_paso; [ apply Hrec | ]. destruct a0 as [n j].
    caso_if; conserva_paso. }
  caso_if.
  { repeat (conserva_paso; try solve [conserva_paso]). }
  caso_if.
  { repeat (conserva_paso; try solve [conserva_paso]). }
  conserva_paso.
Qed.

(** Building an expression touches the semantic stack only: whatever
    the outcome, the symbol table and the id counter are as before. *)
Lemma conserva_construirAST_rec tokens fuel :
  (forall i, conserva mismos_simbolos (construirAST_rec fuel tokens i)) /\
  (forall lhs i, conserva mismos_simbolos (operadores fuel tokens lhs i)).
Proof.
  induction fuel as [| f [IH1 IH2]]; split; intros;
    cbn [construirAST_rec operadores].
  - unfold sin_fuel; conserva_paso.
  - unfold sin_fuel; conserva_paso.
  - conserva_paso.
    + apply conserva_factor. exact IH1.
    + destruct a as [n j]. apply IH2.
  - destruct (nth_error tokens i) as [t |]; [ | conserva_paso ].
    destruct (Tok.tipo t =? "ARITMETICO"); [ | conserva_paso ].
    conserva_paso.
    + apply conserva_factor. exact IH1.
    + destruct a as [n j]. conserva_paso.
      * apply conserva_verificar_tipos.
      * apply IH2.
Qed.

Lemma conserva_construirAST tokens i :
  conserva mismos_simbolos (construirAST tokens i).
Proof. apply conserva_construirAST_rec. Qed.

Lemma leer_ret_inv tokens i t :
  leer tokens i = Ret t -> nth_error tokens i = Some t.
Proof. unfold leer. destruct (nth_error tokens i); intro H; inversion H; auto. Qed.

(** Inversion of a successful computation, one [bind] at a time. *)
Ltac inv_bind H :=
  let a := fresh "a" in
  let st := fresh "st" in
  let E := fresh "E" in
  apply bind_ret_inv in H; destruct H as (a & st & E & H).

Tactic Notation "inv_bind_as" hyp(H) ident(a) ident(st) ident(E) :=
  apply bind_ret_inv in H; destruct H as (a & st & E & H).

Ltac inv_lift H :=
  let E := fresh "E" in
  apply lift_ret_inv in H; destruct H as [H E]; subst.

Ltac inv_ret H :=
  let E := fresh "E" in
  apply ret_inv in H; destruct H as [H E]; subst.

(** The operand read by [factor] is a term of the grammar, provided the
    recursive call builds expressions of the grammar. *)
Lemma factor_forma rec tokens i otro st n j st' :
  (forall k st0 n0 j0 st0',
      rec k st0 = (Ret (n0, j0), st0') -> es_expresion tokens k j0 n0) ->
  factor rec tokens i otro st = (Ret (n, j), st') ->
  es_termino tokens i j n.
Proof.
  intros Hrec H. unfold factor in H.
  inv_bind H. inv_lift E. apply leer_ret_inv in E.
  destruct (Tok.tipo a =? "PARENTESIS_IZQUIERDO") eqn:Epar.
  { inv_bind H. destruct a0 as [n0 j0].
    destruct (es_tipo tokens j0 "PARENTESIS_DERECHO") eqn:Ecierre.
    - inv_ret H. inversion H; subst.
      apply String.eqb_eq in Epar.
      eapply termino_parentesis; eauto.
    - unfold throw, lift in H. discriminate. }
  destruct (Tok.tipo a =? "NUMERO") eqn:Enum.
  { inv_bind H. inv_lift E0. inv_bind H. inv_bind H. inv_bind H.
    inv_ret H. inversion H; subst.
    apply String.eqb_eq in Enum.
    eapply termino_numero; eauto. }
  destruct (Tok.tipo a =? "IDENTIFICADOR") eqn:Eid.
  { inv_bind H. inv_bind H. inv_bind H.
    inv_ret H. inversion H; subst.
    apply String.eqb_eq in Eid.
    eapply termino_identificador; eauto. }
  unfold throw, lift in H. discriminate.
Qed.

Lemma es_tipo_false_None tokens i tipo :
  nth_error tokens i = None -> es_tipo tokens i tipo = false.
Proof. unfold es_tipo. intros ->. reflexivity. Qed.

(** What [construirAST] returns is the left-nested tree of the terms it
    read, and it stops only where no arithmetic operator follows. *)
Lemma construirAST_rec_forma tokens fuel :
  (forall i st n j st',
      construirAST_rec fuel tokens i st = (Ret (n, j), st') ->
      es_expresion tokens i j n /\ es_tipo tokens j "ARITMETICO" = false) /\
  (forall lhs i st n j st',
      operadores fuel tokens lhs i st = (Ret (n, j), st') ->
      exists cola,
        es_cola tokens i j cola /\ n = anidar lhs cola /\
        es_tipo tokens j "ARITMETICO" = false).
Proof.
  induction fuel as [| f [IH1 IH2]]; split; intros until st'; intro H;
    cbn [construirAST_rec operadores] in H; try discriminate.
  - inv_bind H. destruct a as [lhs i1].
    apply factor_forma in E; [ | intros; eapply IH1; eauto ].
    apply IH2 in H. destruct H as (cola & Hcola & -> & Hfin).
    split; [ econstructor; eauto | exact Hfin ].
  - destruct (nth_error tokens i) as [t |] eqn:Et.
    + destruct (Tok.tipo t =? "ARITMETICO") eqn:Eop.
      * inv_bind H. destruct a as [rhs i2].
        apply factor_forma in E; [ | intros; eapply IH1; eauto ].
        inv_bind H. apply IH2 in H. destruct H as (cola & Hcola & -> & Hfin).
        exists ((primer_caracter (Tok.valor t), rhs) :: cola).
        apply String.eqb_eq in Eop.
        repeat split; [ econstructor; eauto | exact Hfin ].
      * inv_ret H. inversion H; subst.
        exists []. repeat split; [ constructor | ].
        unfold es_tipo. rewrite Et. exact Eop.
    + inv_ret H. inversion H; subst.
      exists []. repeat split; [ constructor | ].
      apply es_tipo_false_None. exact Et.
Qed.

(** ** Evaluation *)

Lemma evaluate_operador tabla op lhs rhs v :
  evaluate tabla (OperatorNode op lhs rhs) = Ret v ->
  exists lval rval,
    evaluate tabla lhs = Ret lval /\ evaluate tabla rhs = Ret rval /\
    aplicar op lval rval = Ret v.
Proof.
  cbn [evaluate]. intro H.
  apply rbind_ret_inv in H. destruct H as (ty & _ & H).
  destruct (DataType_eqb ty STRING); [ discriminate | ].
  apply rbind_ret_inv in H. destruct H as (lval & El & H).
  apply rbind_ret_inv in H. destruct H as (rval & Er & H).
  exists lval, rval. auto.
Qed.

(** The value of a left-nested tree is the left-to-right combination of
    the values of its terms. *)
Lemma evaluate_anidar tabla cola :
  forall t0 v,
    evaluate tabla (anidar t0 cola) = Ret v ->
    exists v0 vs,
      evaluate tabla t0 = Ret v0 /\
      Forall2 (fun p q => fst p = fst q /\ evaluate tabla (snd p) = Ret (snd q)) cola vs /\
      aplicar_izquierda v0 vs = Ret v.
Proof.
  induction cola as [| [op t] cola IH]; intros t0 v H.
  - exists v, []. simpl in *. auto.
  - cbn [anidar fold_left fst snd] in H.
    apply IH in H. destruct H as (w & vs & Hw & Hvs & Hfold).
    apply evaluate_operador in Hw. destruct Hw as (lval & rval & El & Er & Hap).
    exists lval, ((op, rval) :: vs).
    split; [ exact El | split ].
    + constructor; [ split; [ reflexivity | exact Er ] | exact Hvs ].
    + cbn [aplicar_izquierda]. rewrite Hap. exact Hfold.
Qed.

(** C1. Expressions associate to the left with one precedence for all
    operators. Whenever [construirAST] returns a tree for the tokens from
    [i] to [j], these tokens are a first term followed by (operator,
    term) pairs, no operator follows at [j], the tree is the left-nested
    [((t0 op1 t1) op2 t2) ...], and whenever that tree evaluates to [v],
    [v] is [((v0 op1 v1) op2 v2) ...] computed from left to right on the
    values of the terms. In particular, with x=5 and y=3, [x + y * x] is
    built as [(x + y) * x] and evaluates to 40, and the program
    [int x=5; int y=3; int z=0; z = x + y * x;] stores 40 in z. *)
Theorem C1_asociacion_izquierda :
  (forall tokens i st root j st',
      construirAST tokens i st = (Ret (root, j), st') ->
      exists k t0 cola,
        es_termino tokens i k t0 /\ es_cola tokens k j cola /\
        es_tipo tokens j "ARITMETICO" = false /\
        root = anidar t0 cola /\
        forall tabla v,
          evaluate tabla root = Ret v ->
          exists v0 vs,
            evaluate tabla t0 = Ret v0 /\
            Forall2 (fun p q => fst p = fst q /\ evaluate tabla (snd p) = Ret (snd q))
                    cola vs /\
            aplicar_izquierda v0 vs = Ret v)
  /\ (construirAST (Lexico "x + y * x;") 0 estado_xy
        = (Ret (arbol_suma_producto, 5), mkEstado tabla_xy 3 [INT])
      /\ evaluate tabla_xy arbol_suma_producto = Ret 40%float)
  /\ principal "int x=5; int y=3; int z=0; z = x + y * x; "
       = (Ret true,
          mkEstado [Sim.mk "x" "int" "5" "id1"; Sim.mk "y" "int" "3" "id2";
                    Sim.mk "z" "int" "40" "id3"] 4 []).
Proof.
  split; [ | split; [ split | ]; vm_compute; reflexivity ].
  intros tokens i st root j st' H.
  apply construirAST_rec_forma in H. destruct H as [Hexp Hfin].
  inversion Hexp as [i0 k j0 t0 cola Ht Hc]; subst.
  exists k, t0, cola. repeat split; auto.
  intros tabla v Hv. apply evaluate_anidar. exact Hv.
Qed.

(** The general statement of C1 at [x + y * x] with x=5 and y=3. *)
Lemma C1_testigo :
  exists k t0 cola,
    es_termino (Lexico "x + y * x;") 0 k t0 /\
    es_cola (Lexico "x + y * x;") k 5 cola /\
    es_tipo (Lexico "x + y * x;") 5 "ARITMETICO" = false /\
    arbol_suma_producto = anidar t0 cola /\
    forall tabla v,
      evaluate tabla arbol_suma_producto = Ret v ->
      exists v0 vs,
        evaluate tabla t0 = Ret v0 /\
        Forall2 (fun p q => fst p = fst q /\ evaluate tabla (snd p) = Ret (snd q))
                cola vs /\
        aplicar_izquierda v0 vs = Ret v.
Proof.
  apply (proj1 C1_asociacion_izquierda (Lexico "x + y * x;") 0 estado_xy
               arbol_suma_producto 5 (mkEstado tabla_xy 3 [INT])).
  vm_compute. reflexivity.
Defined.

(** ** The arithmetic assignment *)

Lemma leer_tabla_inv st a st' :
  leer_tabla st = (Ret a, st') -> a = tablaSimbolos st /\ st' = st.
Proof. unfold leer_tabla. intro H. inversion H. auto. Qed.

Lemma capturar_true_inv pos m st j st' :
  capturar pos m st = (Ret (true, j), st') -> m st = (Ret (true, j), st').
Proof.
  unfold capturar. destruct (m st) as [[a | [w | w | w] | | ] st1]; intro H;
    try discriminate; try exact H.
Qed.

(** The update loop rewrites the value of the first symbol with the
    name, the one [buscarVariable] finds, and nothing else. *)
Lemma actualizar_inv tabla nombre destino tipoDestino resultado nueva :
  buscarVariable tabla nombre = Some destino ->
  actualizar tabla nombre tipoDestino resultado = Ret nueva ->
  exists antes despues v,
    tabla = antes ++ destino :: despues /\
    (forall s, In s antes -> Sim.nombre s <> nombre) /\
    Sim.nombre destino = nombre /\
    valor_nuevo tipoDestino resultado = Ret v /\
    nueva = antes ++ Sim.mk (Sim.nombre destino) (Sim.tipo destino) v
                            (Sim.id_contador destino) :: despues.
Proof.
  revert nueva. unfold buscarVariable.
  induction tabla as [| s resto IH]; intros nueva Hb Ha; [ discriminate | ].
  cbn [find actualizar] in *.
  destruct (Sim.nombre s =? nombre) eqn:En.
  - inversion Hb; subst destino.
    apply rbind_ret_inv in Ha. destruct Ha as (v & Hv & Ha). inversion Ha; subst.
    exists [], resto, v. apply String.eqb_eq in En.
    repeat split; auto.
  - apply rbind_ret_inv in Ha. destruct Ha as (r & Hr & Ha). inversion Ha; subst.
    destruct (IH r Hb Hr) as (antes & despues & v & -> & Hantes & Hn & Hv & ->).
    exists (s :: antes), despues, v. apply String.eqb_neq in En.
    repeat split; auto.
    intros s0 [<- | Hin]; auto.
Qed.

(** What a successful arithmetic assignment did, step by step. *)
Lemma esOperacionAritmetica_exito tokens i st j st' :
  esOperacionAritmetica tokens i st = (Ret (true, j), st') ->
  exists t destino root k st1 resultado nueva,
    nth_error tokens i = Some t /\
    buscarVariable (tablaSimbolos st) (Tok.valor t) = Some destino /\
    construirAST tokens (i + 2) st = (Ret (root, k), st1) /\
    j = k + 1 /\
    evaluate (tablaSimbolos st) root = Ret resultado /\
    actualizar (tablaSimbolos st) (Tok.valor t)
               (stringToDataType (Sim.tipo destino)) resultado = Ret nueva /\
    tablaSimbolos st' = nueva /\
    idGlobalCounter st' = idGlobalCounter st.
Proof.
  intro H. unfold esOperacionAritmetica in H.
  inv_bind_as H entra s0 Ec. inv_lift Ec. destruct entra; [ | inv_ret H; discriminate ].
  inv_bind_as H t s1 Et. inv_lift Et. apply leer_ret_inv in Et.
  inv_bind_as H tabla s2 Etab. apply leer_tabla_inv in Etab. destruct Etab as [-> ->].
  destruct (buscarVariable (tablaSimbolos st) (Tok.valor t)) as [destino |] eqn:Eb;
    [ | inv_ret H; discriminate ].
  apply capturar_true_inv in H. unfold intento_aritmetico in H.
  inv_bind_as H rk st1 East. destruct rk as [root k].
  pose proof (conserva_construirAST tokens (i + 2) st) as Hc.
  rewrite East in Hc. destruct Hc as [Htab Hcnt]. cbn [snd] in Htab, Hcnt.
  inv_bind_as H tipoExpresion st2 Epop.
  pose proof (conserva_top_pop st1) as Hp. rewrite Epop in Hp.
  destruct Hp as [Htab2 Hcnt2]. cbn [snd] in Htab2, Hcnt2.
  destruct (negb (DataType_eqb tipoExpresion (stringToDataType (Sim.tipo destino))));
    [ inv_ret H; discriminate | ].
  destruct (es_punto_y_coma tokens k); [ | inv_ret H; discriminate ].
  inv_bind_as H tabla s3 Etab. apply leer_tabla_inv in Etab. destruct Etab as [-> ->].
  inv_bind_as H resultado s4 Eev. inv_lift Eev.
  inv_bind_as H nueva s5 Eact. inv_lift Eact.
  inv_bind_as H u st3 Eponer. unfold poner_tabla in Eponer.
  inversion Eponer; subst u st3. clear Eponer.
  inv_bind_as H u1 s6 Emostrar. inv_lift Emostrar.
  inv_bind_as H u2 s7 Eev2. inv_lift Eev2.
  inv_ret H. inversion H; subst j.
  rewrite Htab2, Htab in Eev, Eact.
  exists t, destino, root, k, st1, resultado, nueva.
  cbn [tablaSimbolos idGlobalCounter].
  repeat split; auto. congruence.
Qed.

(** C10. A successful arithmetic assignment changes one thing in the
    symbol table: the value of the entry of its destination, the first
    entry with the name of the token at the cursor. That entry keeps its
    name, declared type and id, every other entry and the order of the
    table are unchanged, the id counter is unchanged, and the value
    stored is the text of the result of evaluating the built tree on the
    table as it was before the write. *)
Theorem C10_asignacion_marco :
  forall tokens i st j st',
    esOperacionAritmetica tokens i st = (Ret (true, j), st') ->
    exists t destino root k st1 resultado v antes despues,
      nth_error tokens i = Some t /\
      buscarVariable (tablaSimbolos st) (Tok.valor t) = Some destino /\
      construirAST tokens (i + 2) st = (Ret (root, k), st1) /\
      j = k + 1 /\
      evaluate (tablaSimbolos st) root = Ret resultado /\
      valor_nuevo (stringToDataType (Sim.tipo destino)) resultado = Ret v /\
      tablaSimbolos st = antes ++ destino :: despues /\
      (forall s, In s antes -> Sim.nombre s <> Tok.valor t) /\
      tablaSimbolos st'
        = antes ++ Sim.mk (Sim.nombre destino) (Sim.tipo destino) v
                          (Sim.id_contador destino) :: despues /\
      idGlobalCounter st' = idGlobalCounter st.
Proof.
  intros tokens i st j st' H.
  apply esOperacionAritmetica_exito in H.
  destruct H as (t & destino & root & k & st1 & resultado & nueva
                 & Ht & Hb & Hast & Hj & Hev & Hact & Htab' & Hcnt).
  destruct (actualizar_inv _ _ _ _ _ _ Hb Hact)
    as (antes & despues & v & Htabla & Hantes & Hn & Hv & Hnueva).
  exists t, destino, root, k, st1, resultado, v, antes, despues.
  repeat split; auto. congruence.
Qed.

(** The general statement of C10 at the assignment of
    [int x = 5; x = x + 1;]. *)
Lemma C10_testigo :
  exists t destino root k st1 resultado v antes despues,
    nth_error tokens_incremento 5 = Some t /\
    buscarVariable (tablaSimbolos estado_x5) (Tok.valor t) = Some destino /\
    construirAST tokens_incremento (5 + 2) estado_x5 = (Ret (root, k), st1) /\
    11 = k + 1 /\
    evaluate (tablaSimbolos estado_x5) root = Ret resultado /\
    valor_nuevo (stringToDataType (Sim.tipo destino)) resultado = Ret v /\
    tablaSimbolos estado_x5 = antes ++ destino :: despues /\
    (forall s, In s antes -> Sim.nombre s <> Tok.valor t) /\
    tablaSimbolos (mkEstado [Sim.mk "x" "int" "6" "id1"] 2 [])
      = antes ++ Sim.mk (Sim.nombre destino) (Sim.tipo destino) v
                        (Sim.id_contador destino) :: despues /\
    idGlobalCounter (mkEstado [Sim.mk "x" "int" "6" "id1"] 2 [])
      = idGlobalCounter estado_x5.
Proof.
  apply (C10_asignacion_marco tokens_incremento 5 estado_x5 11
           (mkEstado [Sim.mk "x" "int" "6" "id1"] 2 [])).
  vm_compute. reflexivity.
Defined.

(** ** Distinct names *)

Lemma mantiene_distintos_refl st : mantiene_distintos st st.
Proof. intro H. exact H. Qed.

Lemma mantiene_distintos_trans a b c :
  mantiene_distintos a b -> mantiene_distintos b c -> mantiene_distintos a c.
Proof. unfold mantiene_distintos. auto. Qed.

Lemma mismos_nombres_refl st : mismos_nombres st st.
Proof. reflexivity. Qed.

Lemma mismos_nombres_trans a b c :
  mismos_nombres a b -> mismos_nombres b c -> mismos_nombres a c.
Proof. unfold mismos_nombres. congruence. Qed.

Lemma conserva_debil {A : Type} (R R' : Estado -> Estado -> Prop) (m : M A) :
  (forall a b, R a b -> R' a b) -> conserva R m -> conserva R' m.
Proof. intros HR Hm st. apply HR, Hm. Qed.

Lemma mismos_simbolos_nombres a b : mismos_simbolos a b -> mismos_nombres a b.
Proof. intros [H _]. unfold mismos_nombres. rewrite H. reflexivity. Qed.

Lemma mismos_nombres_distintos a b : mismos_nombres a b -> mantiene_distintos a b.
Proof. unfold mismos_nombres, mantiene_distintos, nombres_distintos. intros ->. auto. Qed.

Lemma actualizar_nombres tabla nombre tipoDestino resultado :
  forall nueva,
    actualizar tabla nombre tipoDestino resultado = Ret nueva ->
    map Sim.nombre nueva = map Sim.nombre tabla.
Proof.
  induction tabla as [| s resto IH]; intros nueva H; cbn [actualizar] in H.
  - inversion H. reflexivity.
  - destruct (Sim.nombre s =? nombre).
    + apply rbind_ret_inv in H. destruct H as (v & _ & H). inversion H. reflexivity.
    + apply rbind_ret_inv in H. destruct H as (r & Hr & H). inversion H.
      cbn [map]. rewrite (IH r Hr). reflexivity.
Qed.

Ltac nombres_paso :=
  first
    [ apply (conserva_debil _ _ _ mismos_simbolos_nombres); apply conserva_top_pop
    | apply (conserva_debil _ _ _ mismos_simbolos_nombres); apply conserva_construirAST
    | conserva_con mismos_nombres_refl mismos_nombres_trans ].

(** The assignment recognizer never adds, removes, renames or reorders
    a symbol, whatever its outcome. *)
Lemma conserva_esOperacionAritmetica tokens i :
  conserva mismos_nombres (esOperacionAritmetica tokens i).
Proof.
  unfold esOperacionAritmetica.
  nombres_paso; [ nombres_paso | ]. destruct a; [ | nombres_paso ].
  nombres_paso; [ nombres_paso | ]. nombres_paso; [ nombres_paso | ].
  destruct (buscarVariable a0 (Tok.valor a)) as [destino |]; [ | nombres_paso ].
  assert (Hint : conserva mismos_nombres
                   (intento_aritmetico tokens i (i + 2) (Tok.valor a) destino)).
  { unfold intento_aritmetico.
    nombres_paso; [ nombres_paso | ]. destruct a1 as [root k].
    nombres_paso; [ nombres_paso | ].
    caso_if; [ nombres_paso | ]. caso_if; [ | nombres_paso ].
    intro st. unfold bind, leer_tabla, lift, poner_tabla, ret.
    destruct (evaluate (tablaSimbolos st) root); try apply mismos_nombres_refl.
    destruct (actualizar _ _ _ _) as [nueva | | | ] eqn:Ea; try apply mismos_nombres_refl.
    apply actualizar_nombres in Ea.
    destruct (mostrarExpresionSimple nueva root);
      [ destruct (evaluate nueva root) | .. ]; exact Ea. }
  intro st. unfold capturar. specialize (Hint st).
  destruct (intento_aritmetico _ _ _ _ _ st) as [[r | [w | w | w] | | ] st1]; exact Hint.
Qed.

(** A declaration leaves the names as they are or appends one that was
    not there, whatever its outcome. *)
Lemma esDeclaracionVariable_nombres tokens i st :
  let nombres := map Sim.nombre (tablaSimbolos st) in
  let nombres' := map Sim.nombre (tablaSimbolos (snd (esDeclaracionVariable tokens i st))) in
  nombres' = nombres \/ exists n, ~ In n nombres /\ nombres' = nombres ++ [n].
Proof.
  cbv zeta. unfold esDeclaracionVariable.
  caso_if; [ | left; reflexivity ].
  unfold bind, lift, leer_tabla.
  destruct (leer tokens i) as [t0 | | | ]; try (left; reflexivity).
  destruct (leer tokens (i + 1)) as [t1 | | | ]; try (left; reflexivity).
  destruct (leer tokens (i + 3)) as [t3 | | | ]; try (left; reflexivity).
  match goal with
  | |- context [existsb ?f ?l] => destruct (existsb f l) eqn:Ex
  end; [ left; reflexivity | ].
  destruct (valor_inicial _ _ _) as [valor |]; [ | left; reflexivity ].
  caso_if; [ left; reflexivity | ].
  unfold agregar. caso_if; [ left; reflexivity | ].
  right. exists (Tok.valor t1). split.
  - intro Hin. apply in_map_iff in Hin. destruct Hin as (s & Hs & Hin).
    assert (existsb (fun simbolo => Sim.nombre simbolo =? Tok.valor t1)
                    (tablaSimbolos st) = true) as Hex.
    { apply existsb_exists. exists s. split; [ exact Hin | ].
      apply String.eqb_eq. exact Hs. }
    congruence.
  - caso_if; unfold ret; cbn [snd tablaSimbolos]; rewrite map_app; reflexivity.
Qed.

Lemma conserva_esDeclaracionVariable tokens i :
  conserva mantiene_distintos (esDeclaracionVariable tokens i).
Proof.
  intros st Hnd. unfold nombres_distintos in *.
  destruct (esDeclaracionVariable_nombres tokens i st) as [-> | (n & Hn & ->)];
    [ exact Hnd | ].
  apply NoDup_app; [ exact Hnd | repeat constructor; intros [] | ].
  intros x Hx [<- | []]. contradiction.
Qed.

Ltac distintos_paso :=
  conserva_con mantiene_distintos_refl mantiene_distintos_trans.

Lemma conserva_esLectura tokens i : conserva mantiene_distintos (esLectura tokens i).
Proof.
  unfold esLectura. caso_if; [ | distintos_paso ].
  repeat (distintos_paso; try solve [distintos_paso]).
  destruct (buscarVariable _ _); distintos_paso.
Qed.

Lemma conserva_esEscritura tokens i : conserva mantiene_distintos (esEscritura tokens i).
Proof.
  unfold esEscritura. caso_if; [ | distintos_paso ].
  repeat (distintos_paso; try solve [distintos_paso]).
  caso_if; distintos_paso.
Qed.

Lemma conserva_esBloqueWhile bloque tokens i :
  (forall k, conserva mantiene_distintos (bloque k)) ->
  conserva mantiene_distintos (esBloqueWhile bloque tokens i).
Proof.
  intro Hb. unfold esBloqueWhile.
  caso_if; [ | distintos_paso ]. caso_if; [ | distintos_paso ].
  distintos_paso; [ apply Hb | ]. destruct a as [ok j].
  repeat (caso_if; try distintos_paso).
Qed.

Lemma conserva_esBloqueIf bloque tokens i :
  (forall k, conserva mantiene_distintos (bloque k)) ->
  conserva mantiene_distintos (esBloqueIf bloque tokens i).
Proof.
  intro Hb. unfold esBloqueIf.
  caso_if; [ | distintos_paso ].
  distintos_paso; [ distintos_paso | ]. distintos_paso; [ distintos_paso | ].
  distintos_paso; [ distintos_paso | ].
  caso_if; [ distintos_paso | ]. caso_if; [ distintos_paso | ].
  caso_if; [ | distintos_paso ].
  distintos_paso; [ apply Hb | ]. destruct a2 as [ok j].
  caso_if; [ distintos_paso | ]. caso_if; [ | distintos_paso ].
  caso_if; [ | distintos_paso ]. caso_if; [ | distintos_paso ].
  distintos_paso; [ apply Hb | ]. destruct a2 as [ok2 k].
  repeat (caso_if; try distintos_paso).
Qed.

Lemma conserva_reconocer bloque tokens i :
  (forall k, conserva mantiene_distintos (bloque k)) ->
  conserva mantiene_distintos (reconocer bloque tokens i).
Proof.
  intro Hb. unfold reconocer.
  distintos_paso; [ apply conserva_esDeclaracionVariable | ].
  destruct a as [ok1 i1]. destruct ok1; [ distintos_paso | ].
  distintos_paso; [ apply conserva_esEscritura | ].
  destruct a as [ok2 i2]. destruct ok2; [ distintos_paso | ].
  distintos_paso; [ apply conserva_esLectura | ].
  destruct a as [ok3 i3]. destruct ok3; [ distintos_paso | ].
  distintos_paso; [ apply conserva_esBloqueIf; exact Hb | ].
  destruct a as [ok4 i4]. destruct ok4; [ distintos_paso | ].
  distintos_paso; [ apply conserva_esBloqueWhile; exact Hb | ].
  destruct a as [ok5 i5]. destruct ok5; [ distintos_paso | ].
  apply (conserva_debil _ _ _ mismos_nombres_distintos).
  apply conserva_esOperacionAritmetica.
Qed.

Lemma conserva_analizarBloque_rec tokens fuel :
  forall i, conserva mantiene_distintos (analizarBloque_rec fuel tokens i).
Proof.
  induction fuel as [| f IH]; intro i; cbn [analizarBloque_rec].
  - unfold sin_fuel. distintos_paso.
  - caso_if; [ | distintos_paso ].
    distintos_paso; [ apply conserva_reconocer; exact IH | ].
    destruct a as [ok j]. destruct ok; [ apply IH | distintos_paso ].
Qed.

Lemma conserva_limpiarPilaSemantica : conserva mismos_simbolos limpiarPilaSemantica.
Proof. intro st. split; reflexivity. Qed.

Lemma conserva_analisisSintactico_rec tokens fuel :
  forall i, conserva mantiene_distintos (analisisSintactico_rec fuel tokens i).
Proof.
  induction fuel as [| f IH]; intro i; cbn [analisisSintactico_rec].
  - unfold sin_fuel. distintos_paso.
  - caso_if; [ | distintos_paso ].
    distintos_paso.
    { apply (conserva_debil _ _ _ mismos_nombres_distintos).
      apply (conserva_debil _ _ _ mismos_simbolos_nombres).
      apply conserva_limpiarPilaSemantica. }
    distintos_paso.
    { apply conserva_reconocer. intro k. apply conserva_analizarBloque_rec. }
    destruct a0 as [ok j]. destruct ok; [ apply IH | distintos_paso ].
Qed.

(** C9. The names of the symbol table are pairwise distinct in every
    state that a run reaches. The table starts empty; a declaration
    leaves the names as they are or appends a name that was not in the
    table; the assignment recognizer leaves the list of names as it is;
    and from a table with distinct names every recognizer, the block
    analysis and the driver loop stopped after any number of statements
    leave a table with distinct names, whatever their outcome. Hence the
    table at the end of the analysis of any source text has distinct
    names. *)
Theorem C9_nombres_unicos :
  forall tokens fuel i st,
    nombres_distintos st ->
    nombres_distintos estado_inicial
    /\ (let nombres := map Sim.nombre (tablaSimbolos st) in
        let nombres' :=
          map Sim.nombre (tablaSimbolos (snd (esDeclaracionVariable tokens i st))) in
        nombres' = nombres \/ exists n, ~ In n nombres /\ nombres' = nombres ++ [n])
    /\ map Sim.nombre (tablaSimbolos (snd (esOperacionAritmetica tokens i st)))
         = map Sim.nombre (tablaSimbolos st)
    /\ nombres_distintos (snd (esDeclaracionVariable tokens i st))
    /\ nombres_distintos (snd (esEscritura tokens i st))
    /\ nombres_distintos (snd (esLectura tokens i st))
    /\ nombres_distintos (snd (esBloqueIf (analizarBloque tokens) tokens i st))
    /\ nombres_distintos (snd (esBloqueWhile (analizarBloque tokens) tokens i st))
    /\ nombres_distintos (snd (esOperacionAritmetica tokens i st))
    /\ nombres_distintos (snd (analizarBloque_rec fuel tokens i st))
    /\ nombres_distintos (snd (analisisSintactico_rec fuel tokens i st))
    /\ forall codigo, nombres_distintos (snd (principal codigo)).
Proof.
  intros tokens fuel i st Hnd.
  assert (Hini : nombres_distintos estado_inicial) by constructor.
  assert (Hbloque : forall k, conserva mantiene_distintos (analizarBloque tokens k))
    by (intro k; apply conserva_analizarBloque_rec).
  split; [ exact Hini | ].
  split; [ apply esDeclaracionVariable_nombres | ].
  split; [ apply conserva_esOperacionAritmetica | ].
  split; [ apply conserva_esDeclaracionVariable; exact Hnd | ].
  split; [ apply conserva_esEscritura; exact Hnd | ].
  split; [ apply conserva_esLectura; exact Hnd | ].
  split; [ apply conserva_esBloqueIf; [ exact Hbloque | exact Hnd ] | ].
  split; [ apply conserva_esBloqueWhile; [ exact Hbloque | exact Hnd ] | ].
  split; [ apply (conserva_debil _ _ _ mismos_nombres_distintos);
           [ apply conserva_esOperacionAritmetica | exact Hnd ] | ].
  split; [ apply conserva_analizarBloque_rec; exact Hnd | ].
  split; [ apply conserva_analisisSintactico_rec; exact Hnd | ].
  intro codigo. unfold principal, analisisSintactico.
  apply conserva_analisisSintactico_rec. exact Hini.
Qed.

(** The general statement of C9 on the program [int x = 5; x = x + 1;],
    from the initial globals. *)
Lemma C9_testigo :
  nombres_distintos estado_inicial /\
  nombres_distintos (snd (analisisSintactico_rec 3 tokens_incremento 0 estado_inicial)).
Proof.
  assert (H : nombres_distintos estado_inicial) by (unfold estado_inicial; constructor).
  split; [ exact H | ].
  destruct (C9_nombres_unicos tokens_incremento 3 0 estado_inicial H)
    as (_ & _ & _ & _ & _ & _ & _ & _ & _ & _ & T & _).
  exact T.
Defined.

(** ** The tokenizer *)

Lemma tomar_mientras_todos p s :
  todos p (fst (tomar_mientras p s)) = true.
Proof.
  induction s as [| c r IH]; cbn [tomar_mientras]; [ reflexivity | ].
  destruct (p c) eqn:Ep; [ | reflexivity ].
  destruct (tomar_mientras p r) as [a b]. cbn [fst todos] in *.
  rewrite Ep, IH. reflexivity.
Qed.

Lemma tomar_mientras_completo p a :
  todos p a = true -> tomar_mientras p a = (a, EmptyString).
Proof.
  induction a as [| c r IH]; cbn [todos tomar_mientras]; intro H; [ reflexivity | ].
  apply andb_true_iff in H. destruct H as [Hc Hr].
  rewrite Hc, (IH Hr). reflexivity.
Qed.

Lemma tomar_mientras_hasta p a c r :
  todos p a = true -> p c = false ->
  tomar_mientras p (a ++ String c r) = (a, String c r).
Proof.
  intros Ha Hc. induction a as [| d a IH]; cbn [todos append tomar_mientras] in *.
  - rewrite Hc. reflexivity.
  - apply andb_true_iff in Ha. destruct Ha as [Hd Ha].
    rewrite Hd, (IH Ha). reflexivity.
Qed.

(** A match of the pattern [numeros] is an unsigned number. *)
Lemma numeros_sin_signo s m :
  numeros s = Some m -> numero_sin_signo m = true.
Proof.
  unfold numeros.
  pose proof (tomar_mientras_todos es_digito s) as Hent.
  destruct (tomar_mientras es_digito s) as [ent resto]. cbn [fst] in Hent.
  destruct (no_vacia ent) eqn:Hne; [ | discriminate ].
  assert (Hsolo : Some ent = Some m -> numero_sin_signo m = true).
  { intro H. inversion H; subst m. unfold numero_sin_signo.
    rewrite (tomar_mientras_completo _ _ Hent), Hne. reflexivity. }
  destruct resto as [| c r]; [ exact Hsolo | ].
  destruct (Ascii.eqb c ".") eqn:Ec.
  - apply Ascii.eqb_eq in Ec. subst c.
    pose proof (tomar_mientras_todos es_digito r) as Hfrac.
    destruct (tomar_mientras es_digito r) as [frac resto']. cbn [fst] in Hfrac.
    destruct (no_vacia frac) eqn:Hnf; [ | exact Hsolo ].
    intro H. inversion H; subst m. unfold numero_sin_signo.
    rewrite (tomar_mientras_hasta es_digito ent "." frac Hent eq_refl), Hne.
    unfold solo_digitos. rewrite Hnf, Hfrac. reflexivity.
  - destruct c as [[] [] [] [] [] [] [] []]; try exact Hsolo; discriminate.
Qed.

Lemma contiene_app c a b :
  contiene c (a ++ b) = contiene c a || contiene c b.
Proof.
  induction a as [| d a IH]; cbn [append contiene]; [ reflexivity | ].
  rewrite IH. apply orb_assoc.
Qed.

Lemma digitos_sin_menos a : todos es_digito a = true -> contiene "-" a = false.
Proof.
  induction a as [| c a IH]; cbn [todos contiene]; intro H; [ reflexivity | ].
  apply andb_true_iff in H. destruct H as [Hc Ha]. rewrite (IH Ha).
  destruct (Ascii.eqb c "-") eqn:E; [ | reflexivity ].
  apply Ascii.eqb_eq in E. subst c. discriminate.
Qed.

Lemma tomar_mientras_app p s :
  s = (fst (tomar_mientras p s) ++ snd (tomar_mientras p s))%string.
Proof.
  induction s as [| c r IH]; cbn [tomar_mientras]; [ reflexivity | ].
  destruct (p c); [ | reflexivity ].
  destruct (tomar_mientras p r) as [a b]. cbn [fst snd append] in *.
  congruence.
Qed.

(** An unsigned number has no minus sign. *)
Lemma numero_sin_signo_sin_menos m :
  numero_sin_signo m = true -> contiene "-" m = false.
Proof.
  unfold numero_sin_signo. intro H.
  rewrite (tomar_mientras_app es_digito m).
  pose proof (tomar_mientras_todos es_digito m) as Hent.
  destruct (tomar_mientras es_digito m) as [ent resto]. cbn [fst snd] in *.
  apply andb_true_iff in H. destruct H as [_ H].
  rewrite contiene_app, (digitos_sin_menos _ Hent). cbn [orb].
  destruct resto as [| c frac]; [ reflexivity | ].
  apply andb_true_iff in H. destruct H as [Hc Hfrac].
  apply Ascii.eqb_eq in Hc. subst c.
  unfold solo_digitos in Hfrac. apply andb_true_iff in Hfrac.
  cbn [contiene]. rewrite (digitos_sin_menos _ (proj2 Hfrac)). reflexivity.
Qed.

(** A token of category NUMERO comes from the pattern [numeros]. *)
Lemma primer_patron_numero s t :
  primer_patron patrones s = Some t ->
  Tok.tipo t = "NUMERO" ->
  numeros s = Some (Tok.valor t).
Proof.
  unfold patrones. cbn [primer_patron]. intros H Ht.
  repeat match type of H with
         | match ?p s with _ => _ end = _ =>
             destruct (p s) eqn:?;
               [ inversion H; subst t; cbn [Tok.tipo Tok.valor] in *;
                 first [ discriminate | reflexivity ] | ]
         end.
  discriminate.
Qed.

Lemma Lexico_desde_patron input :
  forall omitir t,
    In t (Lexico_desde input omitir) ->
    exists s, primer_patron patrones s = Some t.
Proof.
  induction input as [| c resto IH]; intros omitir t H; cbn [Lexico_desde] in H.
  - destruct H.
  - destruct omitir as [| k]; [ | eapply IH; exact H ].
    destruct (primer_patron patrones (String c resto)) as [t' |] eqn:Ep.
    + destruct H as [<- | H]; [ eexists; exact Ep | eapply IH; exact H ].
    + eapply IH; exact H.
Qed.

(** ** String operations *)

(** Two strings on the semantic stack combine to a string under every
    operator: the builder does not look at the operator. *)
Lemma verificar_tipos_cadenas st resto :
  pilaSemantica st = STRING :: STRING :: resto ->
  verificar_tipos st
    = (Ret tt, mkEstado (tablaSimbolos st) (idGlobalCounter st) (STRING :: resto)).
Proof.
  intro H. unfold verificar_tipos, bind, top_pop, push. rewrite H.
  cbn. reflexivity.
Qed.

(** Evaluating an operation whose type is a string always throws. *)
Lemma evaluate_cadenas tabla op lhs rhs :
  getType tabla (OperatorNode op lhs rhs) = Ret STRING ->
  evaluate tabla (OperatorNode op lhs rhs) = Throw UnsupportedStringOperation.
Proof.
  intro H. cbn [evaluate]. rewrite H. reflexivity.
Qed.

(** ** Running the recognizers on given tokens *)

Lemma construirAST_rec_S f tokens i :
  construirAST_rec (S f) tokens i
  = bind (factor (construirAST_rec f tokens) tokens i
            (fun v => runtime_error ("Factor inesperado: " ++ v)))
         (fun x => let '(lhs, i1) := x in operadores f tokens lhs i1).
Proof. reflexivity. Qed.

Lemma operadores_S f tokens lhs i :
  operadores (S f) tokens lhs i
  = match nth_error tokens i with
    | Some t =>
        if Tok.tipo t =? "ARITMETICO" then
          bind (factor (construirAST_rec f tokens) tokens (i + 1)
                  (fun _ => runtime_error "Operando derecho inválido"))
               (fun x => let '(rhs, i2) := x in
                  bind verificar_tipos (fun _ =>
                    operadores f tokens
                      (OperatorNode (primer_caracter (Tok.valor t)) lhs rhs) i2))
        else ret (lhs, i)
    | None => ret (lhs, i)
    end.
Proof. reflexivity. Qed.

Lemma analisisSintactico_rec_S f tokens i :
  analisisSintactico_rec (S f) tokens i
  = if Nat.ltb i (List.length tokens) then
      bind limpiarPilaSemantica (fun _ =>
        bind (reconocer (analizarBloque tokens) tokens i) (fun x =>
          let '(ok, j) := x in
          if (ok : bool) then analisisSintactico_rec f tokens j else ret false))
    else ret true.
Proof. reflexivity. Qed.

(** Evaluation of the recognizers on tokens whose identifiers are
    variables of the proof: the comparisons of token categories compute,
    the comparisons of the identifiers are rewritten with what is known
    of them, and the recursive functions are unfolded one call at a
    time. *)
Ltac reducir :=
  cbn [Nat.ltb Nat.leb List.length Nat.add nth_error app fst snd
       andb orb negb existsb find
       String.eqb Ascii.eqb Bool.eqb Z.eqb Pos.eqb Z.add Pos.add Pos.succ
       Tok.tipo Tok.valor Sim.nombre Sim.tipo Sim.valor Sim.id_contador
       tablaSimbolos idGlobalCounter pilaSemantica
       es_tipo es_punto_y_coma valor_inicial esValorCompatible buscarVariable
       INT_MAX DataType_eqb stringToDataType tipo_operacion primer_caracter
       getType getType_variable evaluate evaluate_variable rbind
       UnsupportedStringOperation].

Ltac calcular Ets Est :=
  unfold analisisSintactico, programa_concatenacion, programa_resta, tabla_cadenas,
    estado_inicial;
  repeat (progress (unfold construirAST, analizarBloque, bind, ret, lift, throw, leer,
                      leer_tabla, push, top_pop, poner_tabla, agregar, factor,
                      verificar_tipos, capturar, intento_aritmetico,
                      esOperacionAritmetica, esDeclaracionVariable, esEscritura,
                      esLectura, esBloqueIf, esBloqueWhile, cabecera, reconocer,
                      limpiarPilaSemantica, condicion_aritmetica;
                    reducir;
                    rewrite ?String.eqb_refl, ?Ets, ?Est, ?construirAST_rec_S,
                      ?operadores_S, ?analisisSintactico_rec_S));
  try reflexivity.

(** C4. For every program [string s = a; string t = b; s = s + t;] with
    two different names [s], [t] and any string literals [a], [b]: both
    declarations succeed; building [s + t] succeeds and leaves the type
    STRING on the semantic stack, which is the declared type of the
    destination, so the type check of the assignment passes; evaluating
    the tree throws the [runtime_error] of unsupported string
    operations. The [try] block of the assignment is left by that very
    exception: its type check has accepted [s + t] (a rejection would
    return false from the block, without an exception), and the
    evaluation behind it has thrown. The handler turns the exception
    into a failure of the assignment recognizer, the verdict of the
    analysis is negative and the symbol table holds the two declared
    strings unchanged. In general two STRING operands on
    the semantic stack combine to STRING, and every evaluation of an
    operation of type STRING throws that error. The text of the
    specification tokenizes to such a program. *)
Theorem C4_concatenacion :
  forall s t a b,
    s <> t ->
    let tokens := programa_concatenacion s t a b in
    let tabla := tabla_cadenas s t a b in
    let suma := OperatorNode "+" (VariableNode s) (VariableNode t) in
    esDeclaracionVariable tokens 0 estado_inicial
      = (Ret (true, 5), mkEstado [Sim.mk s "string" a "id1"] 2 [])
    /\ esDeclaracionVariable tokens 5 (mkEstado [Sim.mk s "string" a "id1"] 2 [])
      = (Ret (true, 10), mkEstado tabla 3 [])
    /\ construirAST tokens 12 (mkEstado tabla 3 [])
      = (Ret (suma, 15), mkEstado tabla 3 [STRING])
    /\ buscarVariable tabla s = Some (Sim.mk s "string" a "id1")
    /\ stringToDataType "string" = STRING
    /\ evaluate tabla suma = Throw UnsupportedStringOperation
    /\ intento_aritmetico tokens 10 12 s (Sim.mk s "string" a "id1")
         (mkEstado tabla 3 [])
      = (Throw UnsupportedStringOperation, mkEstado tabla 3 [])
    /\ esOperacionAritmetica tokens 10 (mkEstado tabla 3 [])
      = (Ret (false, 10), mkEstado tabla 3 [])
    /\ analisisSintactico tokens estado_inicial = (Ret false, mkEstado tabla 3 [])
    /\ (forall st resto,
          pilaSemantica st = STRING :: STRING :: resto ->
          verificar_tipos st
            = (Ret tt,
               mkEstado (tablaSimbolos st) (idGlobalCounter st) (STRING :: resto)))
    /\ (forall tabla' op lhs rhs,
          getType tabla' (OperatorNode op lhs rhs) = Ret STRING ->
          evaluate tabla' (OperatorNode op lhs rhs) = Throw UnsupportedStringOperation)
    /\ Lexico codigo_concatenacion
      = programa_concatenacion "s" "t" (entre_comillas "a") (entre_comillas "b").
Proof.
  intros s t a b Hst tokens tabla suma.
  assert (Ets : (t =? s) = false) by (apply String.eqb_neq; congruence).
  assert (Est : (s =? t) = false) by (apply String.eqb_neq; congruence).
  subst tokens tabla suma.
  split; [ calcular Ets Est | ].
  split; [ calcular Ets Est | ].
  split; [ calcular Ets Est | ].
  split; [ calcular Ets Est | ].
  split; [ reflexivity | ].
  split; [ calcular Ets Est | ].
  split; [ calcular Ets Est | ].
  split; [ calcular Ets Est | ].
  split; [ calcular Ets Est | ].
  split; [ exact verificar_tipos_cadenas | ].
  split; [ exact evaluate_cadenas | vm_compute; reflexivity ].
Qed.

(** C4 on the text [string s = "a"; string t = "b"; s = s + t;]. *)
Lemma C4_testigo :
  "s" <> "t"
  /\ principal codigo_concatenacion
     = (Ret false,
        mkEstado (tabla_cadenas "s" "t" (entre_comillas "a") (entre_comillas "b")) 3 []).
Proof.
  assert (H : "s" <> "t") by discriminate.
  split; [ exact H | ].
  destruct (C4_concatenacion "s" "t" (entre_comillas "a") (entre_comillas "b") H)
    as (_ & _ & _ & _ & _ & _ & _ & _ & Hrun & _ & _ & Hlex).
  unfold principal. rewrite Hlex. exact Hrun.
Defined.

(** ** Declarations *)

(** C2 fails on the code at a declaration without its semicolon. On the
    tokens of [int x = 5 write(x);] the declaration recognizer returns
    failure with the cursor after the value, and yet the symbol [x] is in
    the table and the id counter has advanced; the driver then goes on
    at that cursor and accepts the program. *)
Theorem C2_declaracion_sin_punto_y_coma :
  esDeclaracionVariable (Lexico "int x = 5 write(x);") 0 estado_inicial
    = (Ret (false, 4), mkEstado [Sim.mk "x" "int" "5" "id1"] 2 [])
  /\ principal "int x = 5 write(x);"
    = (Ret true, mkEstado [Sim.mk "x" "int" "5" "id1"] 2 []).
Proof. split; vm_compute; reflexivity. Qed.

(** X2. Apart from that path a failing declaration changes nothing: when
    the declaration recognizer returns failure, the globals are as they
    were, or the cursor is after the value and no semicolon is there. *)
Lemma esDeclaracionVariable_fallo tokens i st j st' :
  esDeclaracionVariable tokens i st = (Ret (false, j), st') ->
  st' = st \/ (j = i + 4 /\ es_punto_y_coma tokens (i + 4) = false).
Proof.
  unfold esDeclaracionVariable. caso_if; [ | intro H; inv_ret H; auto ].
  intro H. inv_bind_as H t0 s0 E0. inv_lift E0.
  inv_bind_as H t1 s1 E1. inv_lift E1.
  inv_bind_as H t3 s3 E3. inv_lift E3.
  inv_bind_as H tabla s4 Etab. apply leer_tabla_inv in Etab. destruct Etab as [-> ->].
  caso_if_en H; [ inv_ret H; auto | ].
  destruct (valor_inicial _ _ _) as [valor |]; [ | inv_ret H; auto ].
  caso_if_en H; [ inv_ret H; auto | ].
  inv_bind_as H u s5 Eag.
  destruct (es_punto_y_coma tokens (i + 4)) eqn:Epc; inv_ret H; inversion H.
  right. auto.
Qed.

(** ** The shape of an assignment *)

(** C3 fails on the code at [x + 1;] after [int x = 5;]: the token after
    the identifier is the arithmetic operator [+], not [=], and the
    recognizer succeeds and assigns 1 to [x]. The analysis accepts the
    program. *)
Theorem C3_asignacion_sin_igual :
  nth_error (Lexico "int x = 5; x + 1;") 5 = Some (Tok.mk "IDENTIFICADOR" "x")
  /\ nth_error (Lexico "int x = 5; x + 1;") 6 = Some (Tok.mk "ARITMETICO" "+")
  /\ esOperacionAritmetica (Lexico "int x = 5; x + 1;") 5 estado_x5
    = (Ret (true, 9), mkEstado [Sim.mk "x" "int" "1" "id1"] 2 [])
  /\ principal "int x = 5; x + 1;"
    = (Ret true, mkEstado [Sim.mk "x" "int" "1" "id1"] 2 []).
Proof. repeat split; vm_compute; reflexivity. Qed.

(** ** Type combination while building *)

(** C6 fails on the code at [s = s - t;] for two strings: the builder
    combines the two STRING operands under [-] without complaint, returns
    the tree and leaves STRING on the semantic stack. The rule that
    strings admit only [+] is enforced by [OperatorNode::getType], which
    runs when the tree is evaluated. *)
Theorem C6_resta_de_cadenas :
  let tabla := tabla_cadenas "s" "t" (entre_comillas "a") (entre_comillas "b") in
  let resta := OperatorNode "-" (VariableNode "s") (VariableNode "t") in
  Lexico codigo_resta
    = programa_resta "s" "t" (entre_comillas "a") (entre_comillas "b")
  /\ verificar_tipos (mkEstado tabla 3 [STRING; STRING])
    = (Ret tt, mkEstado tabla 3 [STRING])
  /\ construirAST (Lexico codigo_resta) 12 (mkEstado tabla 3 [])
    = (Ret (resta, 15), mkEstado tabla 3 [STRING])
  /\ getType tabla resta
    = Throw (runtime_error
               "Error de tipo: solo se permite la concatenación (+) con strings")
  /\ evaluate tabla resta
    = Throw (runtime_error
               "Error de tipo: solo se permite la concatenación (+) con strings")
  /\ esOperacionAritmetica (Lexico codigo_resta) 10 (mkEstado tabla 3 [])
    = (Ret (false, 10), mkEstado tabla 3 []).
Proof. repeat split; vm_compute; reflexivity. Qed.

(** ** Cursor restoration *)

(** C7 fails on the code at an assignment without its semicolon. On the
    tokens of [int x = 5; x = 1 + 2] the recognizer, entered at cursor
    5, builds and type-checks the expression, finds no semicolon and
    returns failure with the cursor at 10, after the expression. With a
    type mismatch instead ([x = 1.5 + 2;]) the cursor is back at 5. *)
Theorem C7_cursor_sin_punto_y_coma :
  esOperacionAritmetica (Lexico "int x = 5; x = 1 + 2") 5 estado_x5
    = (Ret (false, 10), estado_x5)
  /\ esOperacionAritmetica (Lexico "int x = 5; x = 1.5 + 2;") 5 estado_x5
    = (Ret (false, 5), estado_x5).
Proof. split; vm_compute; reflexivity. Qed.

Lemma capturar_false_inv pos m st j st' :
  capturar pos m st = (Ret (false, j), st') ->
  m st = (Ret (false, j), st') \/ j = pos.
Proof.
  unfold capturar. destruct (m st) as [[a | [w | w | w] | | ] st1]; intro H;
    try discriminate; try (left; exact H).
  inversion H. right. reflexivity.
Qed.

(** ** Truncation *)

(** [static_cast<int>] is truncation toward zero: the quotient [Z.quot]
    of the exact value of its argument. *)
Lemma static_cast_int_quot x n :
  static_cast_int x = Ret n ->
  exists num den,
    fraccion x = Some (num, den) /\ n = Z.quot num den /\
    (INT_MIN <= n <= INT_MAX)%Z.
Proof.
  unfold static_cast_int, fraccion.
  destruct (Prim2SF x) as [s | s | | s m e]; try discriminate.
  - intro H. inversion H. exists 0%Z, 1%Z. repeat split; vm_compute; discriminate.
  - set (mag := if (0 <=? e)%Z then (Z.pos m * 2 ^ e)%Z else (Z.pos m / 2 ^ (- e))%Z).
    set (v := if s then (- mag)%Z else mag).
    destruct ((INT_MIN <=? v)%Z && (v <=? INT_MAX)%Z) eqn:Hr; [ | discriminate ].
    intro H. inversion H; subst n.
    apply andb_true_iff in Hr. destruct Hr as [Hlo Hhi].
    apply Z.leb_le in Hlo. apply Z.leb_le in Hhi.
    assert (Hquot : v = if (0 <=? e)%Z
                        then Z.quot ((if s then Z.neg m else Z.pos m) * 2 ^ e) 1
                        else Z.quot (if s then Z.neg m else Z.pos m) (2 ^ (- e))).
    { subst v mag. destruct (0 <=? e)%Z eqn:He.
      - rewrite Z.quot_1_r. destruct s; [ | reflexivity ].
        change (Z.neg m) with (- Z.pos m)%Z. rewrite Z.mul_opp_l. reflexivity.
      - apply Z.leb_gt in He.
        assert (0 < 2 ^ (- e))%Z by (apply Z.pow_pos_nonneg; lia).
        destruct s.
        + change (Z.neg m) with (- Z.pos m)%Z.
          rewrite Z.quot_opp_l by lia. rewrite Z.quot_div_nonneg by lia. reflexivity.
        + rewrite Z.quot_div_nonneg by lia. reflexivity. }
    destruct (0 <=? e)%Z; eexists; eexists; (split; [ reflexivity | ]);
      rewrite <- Hquot; auto.
Qed.

Lemma buscarVariable_app antes s despues nombre :
  (forall x, In x antes -> Sim.nombre x <> nombre) ->
  Sim.nombre s = nombre ->
  buscarVariable (antes ++ s :: despues) nombre = Some s.
Proof.
  intros Hantes Hs. unfold buscarVariable.
  induction antes as [| a antes IH]; cbn [app find].
  - apply String.eqb_eq in Hs. rewrite Hs. reflexivity.
  - assert (Ha : (Sim.nombre a =? nombre) = false).
    { apply String.eqb_neq. apply Hantes. left. reflexivity. }
    rewrite Ha. apply IH. intros x Hx. apply Hantes. right. exact Hx.
Qed.

(** C5, as amended. When the arithmetic assignment succeeds on a
    destination of declared type [int], the value it stores is the
    result of the evaluation truncated toward zero: the decimal text of
    the quotient [Z.quot] of the exact value of the result, which lies in
    the range of [int]. In particular [int z = 0; z = 7 / 2;] stores 3 in
    z: the tree [7 / 2] evaluates to 3.5, which truncates to 3. *)
Theorem C5_truncamiento :
  forall tokens i st j st' t destino,
    esOperacionAritmetica tokens i st = (Ret (true, j), st') ->
    nth_error tokens i = Some t ->
    buscarVariable (tablaSimbolos st) (Tok.valor t) = Some destino ->
    Sim.tipo destino = "int" ->
    (exists root k st1 resultado num den,
        construirAST tokens (i + 2) st = (Ret (root, k), st1) /\
        evaluate (tablaSimbolos st) root = Ret resultado /\
        fraccion resultado = Some (num, den) /\
        (INT_MIN <= Z.quot num den <= INT_MAX)%Z /\
        buscarVariable (tablaSimbolos st') (Tok.valor t)
          = Some (Sim.mk (Sim.nombre destino) "int" (to_string_int (Z.quot num den))
                         (Sim.id_contador destino)))
    /\ evaluate [] arbol_division = Ret 3.5%float
    /\ static_cast_int 3.5%float = Ret 3%Z
    /\ principal "int z = 0; z = 7 / 2; "
       = (Ret true, mkEstado [Sim.mk "z" "int" "3" "id1"] 2 []).
Proof.
  intros tokens i st j st' t destino H Ht Hb Htipo.
  split; [ | repeat split; vm_compute; reflexivity ].
  apply esOperacionAritmetica_exito in H.
  destruct H as (t' & destino' & root & k & st1 & resultado & nueva
                 & Ht' & Hb' & Hast & _ & Hev & Hact & Htab' & _).
  rewrite Ht in Ht'. inversion Ht'; subst t'.
  rewrite Hb in Hb'. inversion Hb'; subst destino'.
  destruct (actualizar_inv _ _ _ _ _ _ Hb Hact)
    as (antes & despues & v & Htab & Hantes & Hnom & Hv & Hnueva).
  rewrite Htipo in Hv. unfold valor_nuevo in Hv. cbn in Hv.
  apply rbind_ret_inv in Hv. destruct Hv as (n & Hn & Hv). inversion Hv; subst v.
  apply static_cast_int_quot in Hn. destruct Hn as (num & den & Hf & -> & Hr).
  exists root, k, st1, resultado, num, den.
  repeat split; auto; try apply Hr.
  rewrite Htab', Hnueva, Htipo. apply buscarVariable_app; [ exact Hantes | exact Hnom ].
Qed.

(** The amended C5 at the assignment of [int z = 0; z = 7 / 2;]. *)
Lemma C5_testigo :
  exists root k st1 resultado num den,
    construirAST tokens_division (5 + 2) estado_z0 = (Ret (root, k), st1) /\
    evaluate (tablaSimbolos estado_z0) root = Ret resultado /\
    fraccion resultado = Some (num, den) /\
    (INT_MIN <= Z.quot num den <= INT_MAX)%Z /\
    buscarVariable [Sim.mk "z" "int" "3" "id1"] "z"
      = Some (Sim.mk "z" "int" (to_string_int (Z.quot num den)) "id1").
Proof.
  apply (proj1 (C5_truncamiento tokens_division 5 estado_z0 11
                  (mkEstado [Sim.mk "z" "int" "3" "id1"] 2 [])
                  (Tok.mk "IDENTIFICADOR" "z") (Sim.mk "z" "int" "0" "id1")
                  ltac:(vm_compute; reflexivity) ltac:(vm_compute; reflexivity)
                  ltac:(vm_compute; reflexivity) ltac:(reflexivity))).
Defined.

(** C5 as stated fails: after the program [int z = 7 / 2;] the value of
    z is not 3. *)
Lemma C5_contraejemplo :
  ~ exists s,
      buscarVariable (tablaSimbolos (snd (principal "int z = 7 / 2; "))) "z" = Some s
      /\ Sim.valor s = "3".
Proof.
  intros (s & Hs & Hv). vm_compute in Hs. inversion Hs; subst s. discriminate.
Qed.

(** ** The recursion bounds are never reached *)

Lemma convertir_con_fuel neg p q : convertir neg p q <> SinFuel.
Proof.
  unfold convertir. destruct p; try discriminate.
  destruct (redondear neg p q); try discriminate.
  destruct (_ && _); discriminate.
Qed.

Lemma stod_con_fuel s : stod s <> SinFuel.
Proof.
  assert (Hdec : forall neg r, stod_decimal neg r <> SinFuel).
  { intros neg r. unfold stod_decimal.
    destruct (leer_digitos 0 0 r) as [[m1 n1] r1].
    destruct (match r1 with
              | String "." r0 => let '(m, n, r') := leer_digitos m1 0 r0 in (m, n, r')
              | _ => (m1, 0%Z, r1)
              end) as [[m2 n2] r2].
    destruct (n1 + n2 =? 0)%Z; [ discriminate | ].
    destruct (escalar m2 10 _) as [p q]. apply convertir_con_fuel. }
  assert (Hhex : forall neg r v, stod_hex neg r = Some v -> v <> SinFuel).
  { intros neg r v. unfold stod_hex.
    destruct (leer_hex 0 0 r) as [[m1 n1] r1].
    destruct (match r1 with
              | String "." r0 => let '(m, n, r') := leer_hex m1 0 r0 in (m, n, r')
              | _ => (m1, 0%Z, r1)
              end) as [[m2 n2] r2].
    destruct (n1 + n2 =? 0)%Z; [ discriminate | ].
    destruct (escalar m2 2 _) as [p q]. intro H. inversion H.
    apply convertir_con_fuel. }
  unfold stod.
  destruct (match saltar_espacios s with
            | String "-" r => (true, r)
            | String "+" r => (false, r)
            | _ => (false, saltar_espacios s)
            end) as [neg s2].
  destruct (empieza_con "inf" s2); [ discriminate | ].
  destruct (empieza_con "nan" s2); [ discriminate | ].
  assert (Hx : forall x r,
             (if Ascii.eqb (minuscula x) "x"
              then match stod_hex neg r with
                   | Some v => v
                   | None => stod_decimal neg s2
                   end
              else stod_decimal neg s2) <> SinFuel).
  { intros x r. destruct (Ascii.eqb (minuscula x) "x"); [ | apply Hdec ].
    destruct (stod_hex neg r) eqn:E; [ eapply Hhex; exact E | apply Hdec ]. }
  destruct s2 as [| c r]; [ apply Hdec | ].
  destruct r as [| x r];
    destruct c as [[] [] [] [] [] [] [] []]; first [ apply Hdec | apply Hx ].
Qed.

Lemma rbind_con_fuel {A B : Type} (r : Res A) (k : A -> Res B) :
  r <> SinFuel -> (forall a, r = Ret a -> k a <> SinFuel) -> rbind r k <> SinFuel.
Proof. destruct r; simpl; intros Hr Hk; auto; discriminate. Qed.

Lemma leer_con_fuel tokens i : leer tokens i <> SinFuel.
Proof. unfold leer. destruct (nth_error tokens i); discriminate. Qed.

Lemma NumberNode_cadena_con_fuel val : NumberNode_cadena val <> SinFuel.
Proof.
  unfold NumberNode_cadena.
  destruct (contiene "." val); (apply rbind_con_fuel; [ apply stod_con_fuel | discriminate ]).
Qed.

Lemma getType_variable_con_fuel tabla name : getType_variable tabla name <> SinFuel.
Proof.
  induction tabla as [| s r IH]; cbn [getType_variable]; [ discriminate | ].
  repeat (caso_if; try discriminate); exact IH.
Qed.

Lemma tipo_operacion_con_fuel op a b : tipo_operacion op a b <> SinFuel.
Proof. unfold tipo_operacion. repeat (caso_if; try discriminate). Qed.

Lemma getType_con_fuel tabla n : getType tabla n <> SinFuel.
Proof.
  induction n as [v d | name | op lhs IHl rhs IHr]; cbn [getType].
  - discriminate.
  - apply getType_variable_con_fuel.
  - apply rbind_con_fuel; [ exact IHl | intros a _ ].
    apply rbind_con_fuel; [ exact IHr | intros b _ ].
    apply tipo_operacion_con_fuel.
Qed.

Lemma evaluate_variable_con_fuel tabla name : evaluate_variable tabla name <> SinFuel.
Proof.
  induction tabla as [| s r IH]; cbn [evaluate_variable]; [ discriminate | ].
  caso_if; [ apply stod_con_fuel | exact IH ].
Qed.

Lemma aplicar_con_fuel op a b : aplicar op a b <> SinFuel.
Proof. unfold aplicar. repeat (caso_if; try discriminate). Qed.

Lemma evaluate_con_fuel tabla n : evaluate tabla n <> SinFuel.
Proof.
  induction n as [v d | name | op lhs IHl rhs IHr]; cbn [evaluate].
  - discriminate.
  - apply evaluate_variable_con_fuel.
  - apply rbind_con_fuel; [ apply getType_con_fuel | intros ty _ ].
    caso_if; [ discriminate | ].
    apply rbind_con_fuel; [ exact IHl | intros a _ ].
    apply rbind_con_fuel; [ exact IHr | intros b _ ].
    apply aplicar_con_fuel.
Qed.

Lemma valor_nuevo_con_fuel ty x : valor_nuevo ty x <> SinFuel.
Proof.
  unfold valor_nuevo. caso_if; [ | discriminate ].
  apply rbind_con_fuel; [ | discriminate ].
  unfold static_cast_int. destruct (Prim2SF x); try discriminate.
  caso_if; discriminate.
Qed.

Lemma actualizar_con_fuel tabla nombre ty x : actualizar tabla nombre ty x <> SinFuel.
Proof.
  induction tabla as [| s r IH]; cbn [actualizar]; [ discriminate | ].
  caso_if; (apply rbind_con_fuel; [ | discriminate ]);
    [ apply valor_nuevo_con_fuel | exact IH ].
Qed.

Lemma mostrarExpresionSimple_con_fuel tabla n : mostrarExpresionSimple tabla n <> SinFuel.
Proof.
  induction n as [v d | name | op lhs IHl rhs IHr]; cbn [mostrarExpresionSimple].
  - discriminate.
  - apply rbind_con_fuel; [ apply getType_con_fuel | discriminate ].
  - apply rbind_con_fuel; [ exact IHl | intros _ _ ].
    apply rbind_con_fuel; [ exact IHr | intros _ _ ].
    apply rbind_con_fuel; [ apply getType_con_fuel | discriminate ].
Qed.

Lemma condicion_aritmetica_con_fuel tokens i : condicion_aritmetica tokens i <> SinFuel.
Proof.
  unfold condicion_aritmetica.
  apply rbind_con_fuel.
  { caso_if; [ | discriminate ].
    apply rbind_con_fuel; [ apply leer_con_fuel | discriminate ]. }
  intros a _. destruct a; [ discriminate | ].
  apply rbind_con_fuel; [ apply leer_con_fuel | intros t _ ].
  apply rbind_con_fuel.
  { caso_if; [ | discriminate ].
    apply rbind_con_fuel; [ apply leer_con_fuel | discriminate ]. }
  intros c _. destruct c; [ discriminate | ].
  apply rbind_con_fuel; [ apply leer_con_fuel | intros t1 _ ].
  repeat (caso_if; try discriminate).
Qed.

(** Computations on the globals. *)
Lemma bind_con_fuel {A B : Type} (m : M A) (k : A -> M B) st :
  fst (m st) <> SinFuel ->
  (forall a st1, m st = (Ret a, st1) -> fst (k a st1) <> SinFuel) ->
  fst (bind m k st) <> SinFuel.
Proof.
  unfold bind. destruct (m st) as [[a | e | | ] st1]; cbn [fst]; intros Hm Hk;
    auto; discriminate.
Qed.

Lemma lift_con_fuel {A : Type} (r : Res A) st : r <> SinFuel -> fst (lift r st) <> SinFuel.
Proof. intro H. exact H. Qed.

Lemma verificar_tipos_con_fuel st : fst (verificar_tipos st) <> SinFuel.
Proof.
  unfold verificar_tipos, bind, top_pop, push, throw, lift.
  destruct (pilaSemantica st) as [| a [| b r]]; cbn; try discriminate.
  repeat (caso_if; try discriminate).
Qed.

(** A successful [factor] moves the cursor forward from a token that
    exists. *)
Lemma factor_avanza rec tokens i otro st n j st' :
  (forall st0 n0 j0 st0', rec (i + 1) st0 = (Ret (n0, j0), st0') -> i + 1 < j0) ->
  factor rec tokens i otro st = (Ret (n, j), st') ->
  i < j /\ i < List.length tokens.
Proof.
  intros Hrec H. unfold factor in H.
  inv_bind_as H t s0 Et. inv_lift Et. apply leer_ret_inv in Et.
  assert (Hi : i < List.length tokens) by (apply nth_error_Some; congruence).
  caso_if_en H.
  { inv_bind_as H nj s1 Er. destruct nj as [n0 j0]. apply Hrec in Er.
    caso_if_en H; [ inv_ret H; inversion H; subst; lia | discriminate ]. }
  caso_if_en H.
  { inv_bind_as H n0 s1 En. inv_bind_as H tabla s2 Etab. inv_bind_as H ty s3 Ety.
    inv_bind_as H u s4 Ep. inv_ret H. inversion H; subst. lia. }
  caso_if_en H; [ | discriminate ].
  inv_bind_as H tabla s2 Etab. inv_bind_as H ty s3 Ety.
  inv_bind_as H u s4 Ep. inv_ret H. inversion H; subst. lia.
Qed.

Lemma factor_con_fuel rec tokens i otro st :
  (i < List.length tokens -> forall st0, fst (rec (i + 1) st0) <> SinFuel) ->
  fst (factor rec tokens i otro st) <> SinFuel.
Proof.
  intro Hrec. unfold factor.
  apply bind_con_fuel; [ apply lift_con_fuel, leer_con_fuel | intros t s0 Et ].
  inv_lift Et. apply leer_ret_inv in Et.
  assert (Hi : i < List.length tokens) by (apply nth_error_Some; congruence).
  caso_if.
  { apply bind_con_fuel; [ apply Hrec; exact Hi | intros [n0 j0] s1 _ ].
    caso_if; discriminate. }
  caso_if.
  { apply bind_con_fuel;
      [ apply lift_con_fuel, NumberNode_cadena_con_fuel | intros n0 s1 _ ].
    apply bind_con_fuel; [ discriminate | intros tabla s2 _ ].
    apply bind_con_fuel; [ apply lift_con_fuel, getType_con_fuel | intros ty s3 _ ].
    apply bind_con_fuel; [ discriminate | intros u s4 _ ]. discriminate. }
  caso_if; [ | discriminate ].
  apply bind_con_fuel; [ discriminate | intros tabla s2 _ ].
  apply bind_con_fuel; [ apply lift_con_fuel, getType_con_fuel | intros ty s3 _ ].
  apply bind_con_fuel; [ discriminate | intros u s4 _ ]. discriminate.
Qed.

(** An expression that is built holds at least one token. *)
Lemma construirAST_rec_avanza tokens fuel :
  (forall i st n j st',
      construirAST_rec fuel tokens i st = (Ret (n, j), st') -> i < j) /\
  (forall lhs i st n j st',
      operadores fuel tokens lhs i st = (Ret (n, j), st') -> i <= j).
Proof.
  induction fuel as [| f [IH1 IH2]]; split; intros until st'; intro H;
    cbn [construirAST_rec operadores] in H; try discriminate.
  - inv_bind_as H nj s1 Ef. destruct nj as [lhs i1].
    apply factor_avanza in Ef;
      [ | intros st0 n0 j0 st0' Hr; apply IH1 in Hr; exact Hr ].
    apply IH2 in H. lia.
  - destruct (nth_error tokens i) as [t |]; [ | inv_ret H; inversion H; lia ].
    caso_if_en H; [ | inv_ret H; inversion H; lia ].
    inv_bind_as H nj s1 Ef. destruct nj as [rhs i2].
    apply factor_avanza in Ef;
      [ | intros st0 n0 j0 st0' Hr; apply IH1 in Hr; exact Hr ].
    inv_bind_as H u s2 Ev. apply IH2 in H. lia.
Qed.

(** With more fuel than tokens from the cursor on, the bound is not
    reached. *)
Lemma construirAST_rec_con_fuel tokens fuel :
  (forall i st,
      List.length tokens - i < fuel ->
      fst (construirAST_rec fuel tokens i st) <> SinFuel) /\
  (forall lhs i st,
      List.length tokens - i < fuel ->
      fst (operadores fuel tokens lhs i st) <> SinFuel).
Proof.
  induction fuel as [| f [IH1 IH2]]; split; intros until st; intro Hf;
    try lia; cbn [construirAST_rec operadores].
  - apply bind_con_fuel.
    + apply factor_con_fuel. intros Hi st0. apply IH1. lia.
    + intros [lhs i1] s1 Ef.
      apply factor_avanza in Ef;
        [ | intros st0 n0 j0 st0' Hr; apply construirAST_rec_avanza in Hr; exact Hr ].
      apply IH2. lia.
  - destruct (nth_error tokens i) as [t |] eqn:Et; [ | discriminate ].
    assert (Hi : i < List.length tokens) by (apply nth_error_Some; congruence).
    caso_if; [ | discriminate ].
    apply bind_con_fuel.
    + apply factor_con_fuel. intros Hi1 st0. apply IH1. lia.
    + intros [rhs i2] s1 Ef.
      apply factor_avanza in Ef;
        [ | intros st0 n0 j0 st0' Hr; apply construirAST_rec_avanza in Hr; exact Hr ].
      apply bind_con_fuel; [ apply verificar_tipos_con_fuel | intros u s2 _ ].
      apply IH2. lia.
Qed.

Lemma construirAST_con_fuel tokens i st :
  fst (construirAST tokens i st) <> SinFuel.
Proof. apply construirAST_rec_con_fuel. lia. Qed.

Lemma construirAST_avanza tokens i st n j st' :
  construirAST tokens i st = (Ret (n, j), st') -> i < j.
Proof. apply construirAST_rec_avanza. Qed.

(** ** The cursor of the recognizers *)

Lemma tras_punto_y_coma_avanza tokens i : i <= tras_punto_y_coma tokens i.
Proof. unfold tras_punto_y_coma. caso_if; lia. Qed.

Lemma esDeclaracionVariable_avanza tokens i st :
  avanza i (esDeclaracionVariable tokens i st).
Proof.
  intros ok j st' H. unfold esDeclaracionVariable in H.
  caso_if_en H; [ | inv_ret H; inversion H; subst; split; [ lia | discriminate ] ].
  inv_bind_as H t0 s0 E0. inv_bind_as H t1 s1 E1. inv_bind_as H t3 s3 E3.
  inv_bind_as H tabla s4 Etab.
  caso_if_en H; [ inv_ret H; inversion H; subst; split; [ lia | discriminate ] | ].
  destruct (valor_inicial _ _ _) as [valor |];
    [ | inv_ret H; inversion H; subst; split; [ lia | discriminate ] ].
  caso_if_en H; [ inv_ret H; inversion H; subst; split; [ lia | discriminate ] | ].
  inv_bind_as H u s5 Eag.
  caso_if_en H; inv_ret H; inversion H; subst; split; lia.
Qed.

Lemma esEscritura_avanza tokens i st : avanza i (esEscritura tokens i st).
Proof.
  intros ok j st' H. unfold esEscritura in H.
  pose proof (tras_punto_y_coma_avanza tokens (i + 4)) as Hp.
  caso_if_en H; [ | inv_ret H; inversion H; subst; split; [ lia | discriminate ] ].
  inv_bind_as H t2 s0 E2. inv_bind_as H tabla s1 Etab.
  caso_if_en H; inv_ret H; inversion H; subst; split; try lia; discriminate.
Qed.

Lemma esLectura_avanza tokens i st : avanza i (esLectura tokens i st).
Proof.
  intros ok j st' H. unfold esLectura in H.
  pose proof (tras_punto_y_coma_avanza tokens (i + 4)) as Hp.
  caso_if_en H; [ | inv_ret H; inversion H; subst; split; [ lia | discriminate ] ].
  inv_bind_as H t2 s0 E2. inv_bind_as H tabla s1 Etab.
  destruct (buscarVariable _ _); inv_ret H; inversion H; subst; split; try lia;
    discriminate.
Qed.

Lemma esOperacionAritmetica_avanza tokens i st :
  avanza i (esOperacionAritmetica tokens i st).
Proof.
  intros ok j st' H. destruct ok.
  - apply esOperacionAritmetica_exito in H.
    destruct H as (t & destino & root & k & st1 & resultado & nueva
                   & _ & _ & Hast & -> & _).
    apply construirAST_avanza in Hast. split; lia.
  - split; [ | discriminate ].
    unfold esOperacionAritmetica in H.
    inv_bind_as H entra s0 Ec.
    destruct entra; [ | inv_ret H; inversion H; lia ].
    inv_bind_as H t s1 Et. inv_bind_as H tabla s2 Etab.
    destruct (buscarVariable _ _) as [destino |]; [ | inv_ret H; inversion H; lia ].
    apply capturar_false_inv in H. destruct H as [H | H]; [ | lia ].
    unfold intento_aritmetico in H.
    inv_bind_as H rk st1 East. destruct rk as [root k].
    apply construirAST_avanza in East.
    inv_bind_as H tipoExpresion st2 Epop.
    caso_if_en H; [ inv_ret H; inversion H; lia | ].
    caso_if_en H; [ | inv_ret H; inversion H; lia ].
    inv_bind_as H tabla' s3 Etab'. inv_bind_as H resultado s4 Eev.
    inv_bind_as H nueva s5 Eact. inv_bind_as H u st3 Eponer.
    inv_bind_as H u1 s6 Emostrar. inv_bind_as H u2 s7 Eev2.
    inv_ret H. discriminate.
Qed.

Lemma esBloqueWhile_avanza bloque tokens i st :
  (forall k st0 ok j st0', bloque k st0 = (Ret (ok, j), st0') -> k <= j) ->
  avanza i (esBloqueWhile bloque tokens i st).
Proof.
  intros Hb ok j st' H. unfold esBloqueWhile in H.
  caso_if_en H; [ | inv_ret H; inversion H; subst; split; [ lia | discriminate ] ].
  caso_if_en H; [ | inv_ret H; inversion H; subst; split; [ lia | discriminate ] ].
  inv_bind_as H okj s0 Eb. destruct okj as [ok0 j0]. apply Hb in Eb.
  caso_if_en H; [ inv_ret H; inversion H; subst; split; [ lia | discriminate ] | ].
  caso_if_en H; inv_ret H; inversion H; subst; split; try lia; discriminate.
Qed.

Lemma esBloqueIf_avanza bloque tokens i st :
  (forall k st0 ok j st0', bloque k st0 = (Ret (ok, j), st0') -> k <= j) ->
  avanza i (esBloqueIf bloque tokens i st).
Proof.
  intros Hb ok j st' H. unfold esBloqueIf in H.
  caso_if_en H; [ | inv_ret H; inversion H; subst; split; [ lia | discriminate ] ].
  inv_bind_as H t2 s0 E2. inv_bind_as H t4 s1 E4. inv_bind_as H tabla s2 Etab.
  caso_if_en H; [ inv_ret H; inversion H; subst; split; [ lia | discriminate ] | ].
  caso_if_en H; [ inv_ret H; inversion H; subst; split; [ lia | discriminate ] | ].
  caso_if_en H; [ | inv_ret H; inversion H; subst; split; [ lia | discriminate ] ].
  inv_bind_as H okj s3 Eb. destruct okj as [ok0 j0]. apply Hb in Eb.
  caso_if_en H; [ inv_ret H; inversion H; subst; split; [ lia | discriminate ] | ].
  caso_if_en H; [ | inv_ret H; inversion H; subst; split; [ lia | discriminate ] ].
  caso_if_en H; [ | inv_ret H; inversion H; subst; split; lia ].
  caso_if_en H; [ | inv_ret H; inversion H; subst; split; [ lia | discriminate ] ].
  inv_bind_as H okk s4 Eb2. destruct okk as [ok2 k]. apply Hb in Eb2.
  caso_if_en H; [ inv_ret H; inversion H; subst; split; [ lia | discriminate ] | ].
  caso_if_en H; inv_ret H; inversion H; subst; split; lia.
Qed.

Lemma reconocer_avanza bloque tokens i st :
  (forall k st0 ok j st0', bloque k st0 = (Ret (ok, j), st0') -> k <= j) ->
  avanza i (reconocer bloque tokens i st).
Proof.
  intros Hb ok j st' H. unfold reconocer in H.
  inv_bind_as H r1 s1 E1. destruct r1 as [ok1 i1].
  apply esDeclaracionVariable_avanza in E1.
  destruct ok1; [ inv_ret H; inversion H; subst; split; intros; lia | ].
  inv_bind_as H r2 s2 E2. destruct r2 as [ok2 i2].
  apply esEscritura_avanza in E2.
  destruct ok2; [ inv_ret H; inversion H; subst; split; intros; lia | ].
  inv_bind_as H r3 s3 E3. destruct r3 as [ok3 i3].
  apply esLectura_avanza in E3.
  destruct ok3; [ inv_ret H; inversion H; subst; split; intros; lia | ].
  inv_bind_as H r4 s4 E4. destruct r4 as [ok4 i4].
  apply (esBloqueIf_avanza _ _ _ _ Hb) in E4.
  destruct ok4; [ inv_ret H; inversion H; subst; split; intros; lia | ].
  inv_bind_as H r5 s5 E5. destruct r5 as [ok5 i5].
  apply (esBloqueWhile_avanza _ _ _ _ Hb) in E5.
  destruct ok5; [ inv_ret H; inversion H; subst; split; intros; lia | ].
  apply esOperacionAritmetica_avanza in H.
  split; [ lia | intro Hok; destruct H as [_ H]; specialize (H Hok); lia ].
Qed.

Lemma analizarBloque_rec_avanza tokens fuel :
  forall i st ok j st',
    analizarBloque_rec fuel tokens i st = (Ret (ok, j), st') -> i <= j.
Proof.
  induction fuel as [| f IH]; intros i st ok j st' H; cbn [analizarBloque_rec] in H;
    [ discriminate | ].
  caso_if_en H; [ | inv_ret H; inversion H; lia ].
  inv_bind_as H r s1 Er. destruct r as [ok1 j1].
  apply (reconocer_avanza _ _ _ _ IH) in Er.
  destruct ok1; [ apply IH in H; lia | inv_ret H; inversion H; lia ].
Qed.

Lemma esDeclaracionVariable_con_fuel tokens i st :
  fst (esDeclaracionVariable tokens i st) <> SinFuel.
Proof.
  unfold esDeclaracionVariable. caso_if; [ | discriminate ].
  apply bind_con_fuel; [ apply lift_con_fuel, leer_con_fuel | intros t0 s0 _ ].
  apply bind_con_fuel; [ apply lift_con_fuel, leer_con_fuel | intros t1 s1 _ ].
  apply bind_con_fuel; [ apply lift_con_fuel, leer_con_fuel | intros t3 s3 _ ].
  apply bind_con_fuel; [ discriminate | intros tabla s4 _ ].
  caso_if; [ discriminate | ].
  destruct (valor_inicial _ _ _) as [valor |]; [ | discriminate ].
  caso_if; [ discriminate | ].
  apply bind_con_fuel.
  - unfold agregar. caso_if; discriminate.
  - intros u s5 _. caso_if; discriminate.
Qed.

Lemma esEscritura_con_fuel tokens i st : fst (esEscritura tokens i st) <> SinFuel.
Proof.
  unfold esEscritura. caso_if; [ | discriminate ].
  apply bind_con_fuel; [ apply lift_con_fuel, leer_con_fuel | intros t2 s0 _ ].
  apply bind_con_fuel; [ discriminate | intros tabla s1 _ ].
  caso_if; discriminate.
Qed.

Lemma esLectura_con_fuel tokens i st : fst (esLectura tokens i st) <> SinFuel.
Proof.
  unfold esLectura. caso_if; [ | discriminate ].
  apply bind_con_fuel; [ apply lift_con_fuel, leer_con_fuel | intros t2 s0 _ ].
  apply bind_con_fuel; [ discriminate | intros tabla s1 _ ].
  destruct (buscarVariable _ _); discriminate.
Qed.

Lemma intento_aritmetico_con_fuel tokens pos i nombre destino st :
  fst (intento_aritmetico tokens pos i nombre destino st) <> SinFuel.
Proof.
  unfold intento_aritmetico.
  apply bind_con_fuel; [ apply construirAST_con_fuel | intros [root k] s1 _ ].
  apply bind_con_fuel.
  { unfold top_pop. destruct (pilaSemantica s1); discriminate. }
  intros ty s2 _. caso_if; [ discriminate | ]. caso_if; [ | discriminate ].
  apply bind_con_fuel; [ discriminate | intros tabla s3 _ ].
  apply bind_con_fuel; [ apply lift_con_fuel, evaluate_con_fuel | intros r s4 _ ].
  apply bind_con_fuel; [ apply lift_con_fuel, actualizar_con_fuel | intros nueva s5 _ ].
  apply bind_con_fuel; [ discriminate | intros u s6 _ ].
  apply bind_con_fuel;
    [ apply lift_con_fuel, mostrarExpresionSimple_con_fuel | intros u1 s7 _ ].
  apply bind_con_fuel; [ apply lift_con_fuel, evaluate_con_fuel | intros u2 s8 _ ].
  discriminate.
Qed.

Lemma esOperacionAritmetica_con_fuel tokens i st :
  fst (esOperacionAritmetica tokens i st) <> SinFuel.
Proof.
  unfold esOperacionAritmetica.
  apply bind_con_fuel;
    [ apply lift_con_fuel, condicion_aritmetica_con_fuel | intros entra s0 _ ].
  destruct entra; [ | discriminate ].
  apply bind_con_fuel; [ apply lift_con_fuel, leer_con_fuel | intros t s1 _ ].
  apply bind_con_fuel; [ discriminate | intros tabla s2 _ ].
  destruct (buscarVariable _ _) as [destino |]; [ | discriminate ].
  unfold capturar.
  pose proof (intento_aritmetico_con_fuel tokens i (i + 2) (Tok.valor t) destino s2) as H.
  destruct (intento_aritmetico _ _ _ _ _ s2) as [[r | [w | w | w] | | ] st1];
    cbn [fst] in *; try discriminate. exact H.
Qed.

Lemma esBloqueWhile_con_fuel bloque tokens i st :
  (forall k st0, i < k -> fst (bloque k st0) <> SinFuel) ->
  fst (esBloqueWhile bloque tokens i st) <> SinFuel.
Proof.
  intro Hb. unfold esBloqueWhile.
  caso_if; [ | discriminate ]. caso_if; [ | discriminate ].
  apply bind_con_fuel; [ apply Hb; lia | intros [ok j] s0 _ ].
  repeat (caso_if; try discriminate).
Qed.

Lemma esBloqueIf_con_fuel bloque tokens i st :
  (forall k st0, i < k -> fst (bloque k st0) <> SinFuel) ->
  (forall k st0 ok j st0', bloque k st0 = (Ret (ok, j), st0') -> k <= j) ->
  fst (esBloqueIf bloque tokens i st) <> SinFuel.
Proof.
  intros Hb Hm. unfold esBloqueIf.
  caso_if; [ | discriminate ].
  apply bind_con_fuel; [ apply lift_con_fuel, leer_con_fuel | intros t2 s0 _ ].
  apply bind_con_fuel; [ apply lift_con_fuel, leer_con_fuel | intros t4 s1 _ ].
  apply bind_con_fuel; [ discriminate | intros tabla s2 _ ].
  caso_if; [ discriminate | ]. caso_if; [ discriminate | ].
  caso_if; [ | discriminate ].
  apply bind_con_fuel; [ apply Hb; lia | intros [ok j] s3 Eb ].
  apply Hm in Eb.
  caso_if; [ discriminate | ]. caso_if; [ | discriminate ].
  caso_if; [ | discriminate ]. caso_if; [ | discriminate ].
  apply bind_con_fuel; [ apply Hb; lia | intros [ok2 k] s4 _ ].
  repeat (caso_if; try discriminate).
Qed.

Lemma reconocer_con_fuel bloque tokens i st :
  (forall k st0, i < k -> fst (bloque k st0) <> SinFuel) ->
  (forall k st0 ok j st0', bloque k st0 = (Ret (ok, j), st0') -> k <= j) ->
  fst (reconocer bloque tokens i st) <> SinFuel.
Proof.
  intros Hb Hm. unfold reconocer.
  apply bind_con_fuel; [ apply esDeclaracionVariable_con_fuel | intros [ok1 i1] s1 E1 ].
  apply esDeclaracionVariable_avanza in E1.
  destruct ok1; [ discriminate | ].
  apply bind_con_fuel; [ apply esEscritura_con_fuel | intros [ok2 i2] s2 E2 ].
  apply esEscritura_avanza in E2.
  destruct ok2; [ discriminate | ].
  apply bind_con_fuel; [ apply esLectura_con_fuel | intros [ok3 i3] s3 E3 ].
  apply esLectura_avanza in E3.
  destruct ok3; [ discriminate | ].
  apply bind_con_fuel.
  { apply esBloqueIf_con_fuel; [ | exact Hm ]. intros k st0 Hk. apply Hb. lia. }
  intros [ok4 i4] s4 E4. apply (esBloqueIf_avanza _ _ _ _ Hm) in E4.
  destruct ok4; [ discriminate | ].
  apply bind_con_fuel.
  { apply esBloqueWhile_con_fuel. intros k st0 Hk. apply Hb. lia. }
  intros [ok5 i5] s5 E5.
  destruct ok5; [ discriminate | ].
  apply esOperacionAritmetica_con_fuel.
Qed.

Lemma analizarBloque_rec_con_fuel tokens fuel :
  forall i st,
    List.length tokens - i < fuel ->
    fst (analizarBloque_rec fuel tokens i st) <> SinFuel.
Proof.
  induction fuel as [| f IH]; intros i st Hf; [ lia | ].
  cbn [analizarBloque_rec].
  destruct (Nat.ltb i (List.length tokens)) eqn:Hi; cbn [andb]; [ | discriminate ].
  apply Nat.ltb_lt in Hi.
  caso_if; [ | discriminate ].
  apply bind_con_fuel.
  - apply reconocer_con_fuel.
    + intros k st0 Hk. apply IH. lia.
    + apply analizarBloque_rec_avanza.
  - intros [ok j] s1 Er.
    apply (reconocer_avanza _ _ _ _ (analizarBloque_rec_avanza tokens f)) in Er.
    destruct ok; [ | discriminate ].
    apply IH. destruct Er as [_ Er]. specialize (Er eq_refl). lia.
Qed.

Lemma analizarBloque_con_fuel tokens i st :
  fst (analizarBloque tokens i st) <> SinFuel.
Proof. apply analizarBloque_rec_con_fuel. lia. Qed.

Lemma analisisSintactico_rec_con_fuel tokens fuel :
  forall i st,
    List.length tokens - i < fuel ->
    fst (analisisSintactico_rec fuel tokens i st) <> SinFuel.
Proof.
  induction fuel as [| f IH]; intros i st Hf; [ lia | ].
  cbn [analisisSintactico_rec].
  destruct (Nat.ltb i (List.length tokens)) eqn:Hi; [ | discriminate ].
  apply Nat.ltb_lt in Hi.
  apply bind_con_fuel; [ discriminate | intros u s0 _ ].
  assert (Hm : forall k st0 ok j st0',
             analizarBloque tokens k st0 = (Ret (ok, j), st0') -> k <= j)
    by (intros k st0 ok j st0'; apply analizarBloque_rec_avanza).
  apply bind_con_fuel.
  - apply reconocer_con_fuel; [ | exact Hm ].
    intros k st0 _. apply analizarBloque_con_fuel.
  - intros [ok j] s1 Er. apply (reconocer_avanza _ _ _ _ Hm) in Er.
    destruct ok; [ | discriminate ].
    apply IH. destruct Er as [_ Er]. specialize (Er eq_refl). lia.
Qed.

(** X1. The builder, the block analysis and the driver terminate: their
    recursion bound is never reached, so each of them ends with a
    result, an exception or undefined behaviour, and so does the
    analysis of any source text; a statement that is recognized moves
    the cursor forward, which is why their loops end. *)
Theorem terminacion :
  forall tokens i st,
    fst (construirAST tokens i st) <> SinFuel
    /\ fst (esOperacionAritmetica tokens i st) <> SinFuel
    /\ fst (analizarBloque tokens i st) <> SinFuel
    /\ fst (analisisSintactico tokens st) <> SinFuel
    /\ avanza i (reconocer (analizarBloque tokens) tokens i st)
    /\ forall codigo, fst (principal codigo) <> SinFuel.
Proof.
  intros tokens i st.
  split; [ apply construirAST_con_fuel | ].
  split; [ apply esOperacionAritmetica_con_fuel | ].
  split; [ apply analizarBloque_con_fuel | ].
  split; [ apply analisisSintactico_rec_con_fuel; lia | ].
  split.
  - apply reconocer_avanza. intros k st0 ok j st0'. apply analizarBloque_rec_avanza.
  - intro codigo. apply analisisSintactico_rec_con_fuel. lia.
Qed.

(** X2 at the declaration of [int x = 5 write(x);]. *)
Lemma esDeclaracionVariable_fallo_testigo :
  mkEstado [Sim.mk "x" "int" "5" "id1"] 2 [] = estado_inicial
  \/ (4 = 0 + 4 /\ es_punto_y_coma (Lexico "int x = 5 write(x);") (0 + 4) = false).
Proof.
  apply (esDeclaracionVariable_fallo (Lexico "int x = 5 write(x);") 0 estado_inicial 4
           (mkEstado [Sim.mk "x" "int" "5" "id1"] 2 [])).
  vm_compute. reflexivity.
Defined.

Lemma DataType_eqb_igual a b : DataType_eqb a b = true -> a = b.
Proof. destruct a, b; intro H; try discriminate; reflexivity. Qed.

(** X3. When the assignment recognizer returns failure, the cursor is
    back where it was on entry, except on one path: the destination is a
    declared variable, the expression behind the first two tokens has
    been built and ends at the cursor returned, the type it left on the
    semantic stack is the type of the destination, and no semicolon
    stands at that cursor. The cursor is then after the expression, and
    the globals are those the builder left, less the type popped. *)
Lemma esOperacionAritmetica_fallo tokens i st j st' :
  esOperacionAritmetica tokens i st = (Ret (false, j), st') ->
  j = i
  \/ exists t destino root st1,
       leer tokens i = Ret t
       /\ buscarVariable (tablaSimbolos st) (Tok.valor t) = Some destino
       /\ construirAST tokens (i + 2) st = (Ret (root, j), st1)
       /\ top_pop st1 = (Ret (stringToDataType (Sim.tipo destino)), st')
       /\ es_punto_y_coma tokens j = false
       /\ i + 2 < j.
Proof.
  unfold esOperacionAritmetica. intro H.
  inv_bind_as H entra s0 Ec. inv_lift Ec.
  destruct entra; [ | inv_ret H; inversion H; auto ].
  inv_bind_as H t s1 Et. inv_lift Et.
  inv_bind_as H tabla s2 Etab. apply leer_tabla_inv in Etab. destruct Etab as [-> ->].
  destruct (buscarVariable _ _) as [destino |] eqn:Ebus;
    [ | inv_ret H; inversion H; auto ].
  apply capturar_false_inv in H. destruct H as [H | H]; [ | auto ].
  unfold intento_aritmetico in H.
  inv_bind_as H rk st1 East. destruct rk as [root k].
  inv_bind_as H tipoExpresion st2 Epop.
  destruct (DataType_eqb tipoExpresion (stringToDataType (Sim.tipo destino))) eqn:Etipo;
    cbn [negb] in H; [ | inv_ret H; inversion H; auto ].
  apply DataType_eqb_igual in Etipo. subst tipoExpresion.
  destruct (es_punto_y_coma tokens k) eqn:Epc.
  - inv_bind_as H tabla s3 Etab. inv_bind_as H resultado s4 Eev.
    inv_bind_as H nueva s5 Eact. inv_bind_as H u st3 Eponer.
    inv_bind_as H u1 s6 Emostrar. inv_bind_as H u2 s7 Eev2.
    inv_ret H. discriminate.
  - inv_ret H. inversion H; subst. right.
    exists t, destino, root, st1.
    pose proof (construirAST_avanza _ _ _ _ _ _ East) as Hav.
    repeat split; assumption.
Qed.

(** X3 at the assignment of [int x = 5; x = 1 + 2]. *)
Lemma esOperacionAritmetica_fallo_testigo :
  10 = 5
  \/ exists t destino root st1,
       leer (Lexico "int x = 5; x = 1 + 2") 5 = Ret t
       /\ buscarVariable (tablaSimbolos estado_x5) (Tok.valor t) = Some destino
       /\ construirAST (Lexico "int x = 5; x = 1 + 2") (5 + 2) estado_x5
          = (Ret (root, 10), st1)
       /\ top_pop st1 = (Ret (stringToDataType (Sim.tipo destino)), estado_x5)
       /\ es_punto_y_coma (Lexico "int x = 5; x = 1 + 2") 10 = false
       /\ 5 + 2 < 10.
Proof.
  apply (esOperacionAritmetica_fallo (Lexico "int x = 5; x = 1 + 2") 5 estado_x5 10
           estado_x5).
  vm_compute. reflexivity.
Defined.

(** ** Declarations that succeed, names declared twice *)



(** X5. Declaring a name that is already in the symbol table fails and
    changes nothing: the recognizer returns failure with the cursor and
    the globals as they were. *)
Lemma esDeclaracionVariable_duplicada (tokens : list Token) i st (t1 : Token) :
  nth_error tokens (i + 1) = Some t1 ->
  In (Tok.valor t1) (map Sim.nombre (tablaSimbolos st)) ->
  esDeclaracionVariable tokens i st = (Ret (false, i), st).
Proof.
  intros Ht1 Hin. unfold esDeclaracionVariable.
  caso_if; [ | reflexivity ].
  assert (Hi : i + 3 < List.length tokens).
  { repeat (apply andb_true_iff in Heqb; destruct Heqb as [Heqb _]).
    apply Nat.ltb_lt. exact Heqb. }
  destruct (nth_error tokens i) as [t0 |] eqn:E0;
    [ | apply nth_error_None in E0; lia ].
  destruct (nth_error tokens (i + 3)) as [t3 |] eqn:E3;
    [ | apply nth_error_None in E3; lia ].
  assert (existsb (fun simbolo => Sim.nombre simbolo =? Tok.valor t1)
                  (tablaSimbolos st) = true) as Hex.
  { apply in_map_iff in Hin. destruct Hin as (x & Hn & Hx).
    apply existsb_exists. exists x. split; [ exact Hx | ].
    apply String.eqb_eq. exact Hn. }
  unfold bind, lift, leer, leer_tabla. rewrite E0, Ht1, E3, Hex. reflexivity.
Qed.

(** X5 at a second declaration of [x]. *)
Lemma esDeclaracionVariable_duplicada_testigo :
  esDeclaracionVariable (Lexico "int x = 5; int x = 7;") 5 estado_x5
    = (Ret (false, 5), estado_x5).
Proof.
  apply (esDeclaracionVariable_duplicada (Lexico "int x = 5; int x = 7;") 5 estado_x5
           (Tok.mk "IDENTIFICADOR" "x")).
  - vm_compute. reflexivity.
  - vm_compute. left. reflexivity.
Defined.

(** X6. [write] and [read] statements never change the globals, whether
    they succeed or fail. Whenever one of them fails, the cursor is
    where it was. On an undeclared variable they fail: when the token
    at [i + 2], where the argument stands, is an identifier that is not
    in the symbol table, both return failure with the cursor and the
    globals as they were, as on [read(y);] and [write(y);] with only [x]
    declared. *)
Theorem escritura_lectura_sin_efecto :
  forall tokens i st,
    snd (esEscritura tokens i st) = st
    /\ snd (esLectura tokens i st) = st
    /\ (forall j st', esEscritura tokens i st = (Ret (false, j), st') -> j = i)
    /\ (forall j st', esLectura tokens i st = (Ret (false, j), st') -> j = i)
    /\ (forall t,
          nth_error tokens (i + 2) = Some t ->
          Tok.tipo t = "IDENTIFICADOR" ->
          buscarVariable (tablaSimbolos st) (Tok.valor t) = None ->
          esEscritura tokens i st = (Ret (false, i), st)
          /\ esLectura tokens i st = (Ret (false, i), st))
    /\ esLectura (Lexico "read(y);") 0 estado_x5 = (Ret (false, 0), estado_x5)
    /\ esEscritura (Lexico "write(y);") 0 estado_x5 = (Ret (false, 0), estado_x5).
Proof.
  intros tokens i st.
  split; [ | split; [ | split; [ | split; [ | split;
    [ | split; vm_compute; reflexivity ] ] ] ] ].
  - unfold esEscritura. caso_if; [ | reflexivity ].
    unfold bind, lift, leer_tabla. destruct (leer tokens (i + 2)); try reflexivity.
    caso_if; reflexivity.
  - unfold esLectura. caso_if; [ | reflexivity ].
    unfold bind, lift, leer_tabla. destruct (leer tokens (i + 2)); try reflexivity.
    destruct (buscarVariable _ _); reflexivity.
  - intros j st' H. unfold esEscritura in H.
    caso_if_en H; [ | inv_ret H; inversion H; reflexivity ].
    inv_bind_as H t2 s0 E2. inv_bind_as H tabla s1 Etab.
    caso_if_en H; inv_ret H; inversion H; reflexivity.
  - intros j st' H. unfold esLectura in H.
    caso_if_en H; [ | inv_ret H; inversion H; reflexivity ].
    inv_bind_as H t2 s0 E2. inv_bind_as H tabla s1 Etab.
    destruct (buscarVariable _ _); inv_ret H; inversion H; reflexivity.
  - intros t Ht Hid Hno. split.
    + unfold esEscritura. caso_if; [ | reflexivity ].
      unfold bind, lift, leer, leer_tabla. rewrite Ht, Hid, Hno. reflexivity.
    + unfold esLectura. caso_if; [ | reflexivity ].
      unfold bind, lift, leer, leer_tabla. rewrite Ht, Hno. reflexivity.
Qed.

(** ** What the recognizers do to the globals, whatever their outcome *)

Lemma esEscritura_estado tokens i st : snd (esEscritura tokens i st) = st.
Proof.
  unfold esEscritura. caso_if; [ | reflexivity ].
  unfold bind, lift, leer_tabla. destruct (leer tokens (i + 2)); try reflexivity.
  caso_if; reflexivity.
Qed.

Lemma esLectura_estado tokens i st : snd (esLectura tokens i st) = st.
Proof.
  unfold esLectura. caso_if; [ | reflexivity ].
  unfold bind, lift, leer_tabla. destruct (leer tokens (i + 2)); try reflexivity.
  destruct (buscarVariable _ _); reflexivity.
Qed.

(** A declaration leaves the globals as they are or appends one symbol,
    whose value is compatible with its type and whose id is made from the
    id counter, and advances the counter. *)
Lemma esDeclaracionVariable_estado tokens i st :
  snd (esDeclaracionVariable tokens i st) = st
  \/ exists nombre tipo valor,
       esValorCompatible valor tipo = true /\
       ~ In nombre (map Sim.nombre (tablaSimbolos st)) /\
       snd (esDeclaracionVariable tokens i st)
         = mkEstado (tablaSimbolos st ++
                       [Sim.mk nombre tipo valor
                               ("id" ++ to_string_int (idGlobalCounter st))])
                    (idGlobalCounter st + 1) (pilaSemantica st).
Proof.
  unfold esDeclaracionVariable.
  caso_if; [ | left; reflexivity ].
  unfold bind, lift, leer_tabla.
  destruct (leer tokens i) as [t0 | | | ]; try (left; reflexivity).
  destruct (leer tokens (i + 1)) as [t1 | | | ]; try (left; reflexivity).
  destruct (leer tokens (i + 3)) as [t3 | | | ]; try (left; reflexivity).
  match goal with
  | |- context [existsb ?f ?l] => destruct (existsb f l) eqn:Ex
  end; [ left; reflexivity | ].
  destruct (valor_inicial _ _ _) as [valor |]; [ | left; reflexivity ].
  destruct (esValorCompatible valor (Tok.valor t0)) eqn:Ec; cbn [negb];
    [ | left; reflexivity ].
  unfold agregar. caso_if; [ left; reflexivity | ].
  right. exists (Tok.valor t1), (Tok.valor t0), valor.
  split; [ exact Ec | split ].
  - intro Hin. apply in_map_iff in Hin. destruct Hin as (s & Hs & Hin).
    assert (existsb (fun simbolo => Sim.nombre simbolo =? Tok.valor t1)
                    (tablaSimbolos st) = true) as Hex.
    { apply existsb_exists. exists s. split; [ exact Hin | ].
      apply String.eqb_eq. exact Hs. }
    congruence.
  - caso_if; reflexivity.
Qed.

(** An assignment leaves the symbol table as it is or replaces it by the
    table that the update loop made of it; the id counter stays. *)
Lemma esOperacionAritmetica_estado tokens i st :
  let st' := snd (esOperacionAritmetica tokens i st) in
  idGlobalCounter st' = idGlobalCounter st
  /\ (tablaSimbolos st' = tablaSimbolos st
      \/ exists t destino resultado,
           buscarVariable (tablaSimbolos st) (Tok.valor t) = Some destino /\
           actualizar (tablaSimbolos st) (Tok.valor t)
                      (stringToDataType (Sim.tipo destino)) resultado
             = Ret (tablaSimbolos st')).
Proof.
  cbv zeta. unfold esOperacionAritmetica, bind, lift, leer_tabla.
  destruct (condicion_aritmetica tokens i) as [[ | ] | | | ];
    try (split; [ reflexivity | left; reflexivity ]).
  destruct (leer tokens i) as [t | | | ]; try (split; [ reflexivity | left; reflexivity ]).
  destruct (buscarVariable (tablaSimbolos st) (Tok.valor t)) as [destino |] eqn:Eb;
    [ | split; [ reflexivity | left; reflexivity ] ].
  assert (Hint :
    let st' := snd (intento_aritmetico tokens i (i + 2) (Tok.valor t) destino st) in
    idGlobalCounter st' = idGlobalCounter st
    /\ (tablaSimbolos st' = tablaSimbolos st
        \/ exists resultado,
             actualizar (tablaSimbolos st) (Tok.valor t)
                        (stringToDataType (Sim.tipo destino)) resultado
               = Ret (tablaSimbolos st'))).
  { cbv zeta. unfold intento_aritmetico, bind.
    pose proof (conserva_construirAST tokens (i + 2) st) as Hc.
    destruct (construirAST tokens (i + 2) st) as [[[root k] | e | | ] st1];
      destruct Hc as [Htab Hcnt]; cbn [snd] in *;
      try (split; [ exact Hcnt | left; exact Htab ]).
    pose proof (conserva_top_pop st1) as Hp.
    destruct (top_pop st1) as [[ty | e | | ] st2];
      destruct Hp as [Htab2 Hcnt2]; cbn [snd] in *;
      try (split; [ congruence | left; congruence ]).
    caso_if; [ unfold ret; cbn [snd]; split; [ congruence | left; congruence ] | ].
    caso_if; [ | unfold ret; cbn [snd]; split; [ congruence | left; congruence ] ].
    unfold leer_tabla, lift, poner_tabla, ret.
    rewrite Htab2, Htab.
    destruct (evaluate (tablaSimbolos st) root) as [resultado | e | | ]; cbn [snd];
      try (split; [ congruence | left; congruence ]).
    destruct (actualizar _ _ _ _) as [nueva | e | | ] eqn:Ea; cbn [snd];
      try (split; [ congruence | left; congruence ]).
    assert (forall A (r : Res A * Estado),
               tablaSimbolos (snd r) = nueva ->
               idGlobalCounter (snd r) = idGlobalCounter st2 ->
               idGlobalCounter (snd r) = idGlobalCounter st /\
               (tablaSimbolos (snd r) = tablaSimbolos st \/
                exists resultado0,
                  actualizar (tablaSimbolos st) (Tok.valor t)
                    (stringToDataType (Sim.tipo destino)) resultado0
                  = Ret (tablaSimbolos (snd r)))) as Hfin.
    { intros A r Hr1 Hr2. split; [ congruence | right ].
      exists resultado. rewrite Hr1. exact Ea. }
    destruct (mostrarExpresionSimple nueva root);
      [ destruct (evaluate nueva root) | .. ]; apply Hfin; reflexivity. }
  cbv zeta in Hint. unfold capturar.
  destruct (intento_aritmetico _ _ _ _ _ st) as [[r | [w | w | w] | | ] st1];
    cbn [snd] in *;
    (split; [ apply Hint | ]);
    (destruct Hint as [_ [H | [resultado H]]];
     [ left; exact H | right; exists t, destino, resultado; split; [ exact Eb | exact H ] ]).
Qed.

(** ** Relations that every statement keeps

    A relation between the globals before and after that is reflexive
    and transitive, that holds when only the semantic stack changes, and
    that declarations and assignments keep, is kept by every recognizer,
    by the analysis of a block and by the driver, whatever their
    outcome. *)
Section Relacion.
Variable R : Estado -> Estado -> Prop.
Hypothesis R_refl : forall st, R st st.
Hypothesis R_trans : forall a b c, R a b -> R b c -> R a c.
Hypothesis R_pila :
  forall st p, R st (mkEstado (tablaSimbolos st) (idGlobalCounter st) p).
Hypothesis R_declaracion :
  forall tokens i, conserva R (esDeclaracionVariable tokens i).
Hypothesis R_aritmetica :
  forall tokens i, conserva R (esOperacionAritmetica tokens i).

Ltac relacion_paso := conserva_con R_refl R_trans.

Lemma relacion_esEscritura tokens i : conserva R (esEscritura tokens i).
Proof. intro st. rewrite esEscritura_estado. apply R_refl. Qed.

Lemma relacion_esLectura tokens i : conserva R (esLectura tokens i).
Proof. intro st. rewrite esLectura_estado. apply R_refl. Qed.

Lemma relacion_esBloqueWhile bloque tokens i :
  (forall k, conserva R (bloque k)) ->
  conserva R (esBloqueWhile bloque tokens i).
Proof.
  intro Hb. unfold esBloqueWhile.
  caso_if; [ | relacion_paso ]. caso_if; [ | relacion_paso ].
  relacion_paso; [ apply Hb | ]. destruct a as [ok j].
  repeat (caso_if; try relacion_paso).
Qed.

Lemma relacion_esBloqueIf bloque tokens i :
  (forall k, conserva R (bloque k)) ->
  conserva R (esBloqueIf bloque tokens i).
Proof.
  intro Hb. unfold esBloqueIf.
  caso_if; [ | relacion_paso ].
  relacion_paso; [ relacion_paso | ]. relacion_paso; [ relacion_paso | ].
  relacion_paso; [ relacion_paso | ].
  caso_if; [ relacion_paso | ]. caso_if; [ relacion_paso | ].
  caso_if; [ | relacion_paso ].
  relacion_paso; [ apply Hb | ]. destruct a2 as [ok j].
  caso_if; [ relacion_paso | ]. caso_if; [ | relacion_paso ].
  caso_if; [ | relacion_paso ]. caso_if; [ | relacion_paso ].
  relacion_paso; [ apply Hb | ]. destruct a2 as [ok2 k].
  repeat (caso_if; try relacion_paso).
Qed.

Lemma relacion_reconocer bloque tokens i :
  (forall k, conserva R (bloque k)) ->
  conserva R (reconocer bloque tokens i).
Proof.
  intro Hb. unfold reconocer.
  relacion_paso; [ apply R_declaracion | ].
  destruct a as [ok1 i1]. destruct ok1; [ relacion_paso | ].
  relacion_paso; [ apply relacion_esEscritura | ].
  destruct a as [ok2 i2]. destruct ok2; [ relacion_paso | ].
  relacion_paso; [ apply relacion_esLectura | ].
  destruct a as [ok3 i3]. destruct ok3; [ relacion_paso | ].
  relacion_paso; [ apply relacion_esBloqueIf; exact Hb | ].
  destruct a as [ok4 i4]. destruct ok4; [ relacion_paso | ].
  relacion_paso; [ apply relacion_esBloqueWhile; exact Hb | ].
  destruct a as [ok5 i5]. destruct ok5; [ relacion_paso | ].
  apply R_aritmetica.
Qed.

Lemma relacion_analizarBloque_rec tokens fuel :
  forall i, conserva R (analizarBloque_rec fuel tokens i).
Proof.
  induction fuel as [| f IH]; intro i; cbn [analizarBloque_rec].
  - unfold sin_fuel. relacion_paso.
  - caso_if; [ | relacion_paso ].
    relacion_paso; [ apply relacion_reconocer; exact IH | ].
    destruct a as [ok j]. destruct ok; [ apply IH | relacion_paso ].
Qed.

Lemma relacion_analisisSintactico_rec tokens fuel :
  forall i, conserva R (analisisSintactico_rec fuel tokens i).
Proof.
  induction fuel as [| f IH]; intro i; cbn [analisisSintactico_rec].
  - unfold sin_fuel. relacion_paso.
  - caso_if; [ | relacion_paso ].
    relacion_paso; [ intro st; apply R_pila | ].
    relacion_paso.
    { apply relacion_reconocer. intro k. apply relacion_analizarBloque_rec. }
    destruct a0 as [ok j]. destruct ok; [ apply IH | relacion_paso ].
Qed.

End Relacion.

(** ** Symbols are never removed, renamed, retyped or renumbered *)

Lemma mismas_claves_refl st : mismas_claves st st.
Proof. split; reflexivity. Qed.

Lemma crece_refl st : crece st st.
Proof. split; [ exists []; rewrite app_nil_r; reflexivity | lia ]. Qed.

Lemma crece_trans a b c : crece a b -> crece b c -> crece a c.
Proof.
  intros [[n1 H1] L1] [[n2 H2] L2]. split; [ | lia ].
  exists (n1 ++ n2). rewrite H2, H1, app_assoc. reflexivity.
Qed.

Lemma mismas_claves_crece a b : mismas_claves a b -> crece a b.
Proof.
  intros [H1 H2]. split; [ exists []; rewrite app_nil_r; exact H1 | lia ].
Qed.

Lemma actualizar_claves tabla nombre tipoDestino resultado :
  forall nueva,
    actualizar tabla nombre tipoDestino resultado = Ret nueva ->
    map clave nueva = map clave tabla.
Proof.
  induction tabla as [| s resto IH]; intros nueva H; cbn [actualizar] in H.
  - inversion H. reflexivity.
  - destruct (Sim.nombre s =? nombre).
    + apply rbind_ret_inv in H. destruct H as (v & _ & H). inversion H. reflexivity.
    + apply rbind_ret_inv in H. destruct H as (r & Hr & H). inversion H.
      cbn [map]. rewrite (IH r Hr). reflexivity.
Qed.

(** The assignment recognizer changes values only, whatever its
    outcome. *)
Lemma esOperacionAritmetica_claves tokens i :
  conserva mismas_claves (esOperacionAritmetica tokens i).
Proof.
  intro st. destruct (esOperacionAritmetica_estado tokens i st) as [Hc Ht].
  split; [ | exact Hc ].
  destruct Ht as [-> | (t & destino & resultado & _ & Ha)]; [ reflexivity | ].
  apply actualizar_claves in Ha. exact Ha.
Qed.

Lemma esDeclaracionVariable_crece tokens i :
  conserva crece (esDeclaracionVariable tokens i).
Proof.
  intro st.
  destruct (esDeclaracionVariable_estado tokens i st)
    as [-> | (nombre & tipo & valor & _ & _ & ->)]; [ apply crece_refl | ].
  split; cbn [tablaSimbolos idGlobalCounter]; [ | lia ].
  rewrite map_app. eexists. reflexivity.
Qed.

Lemma crece_pila st p :
  crece st (mkEstado (tablaSimbolos st) (idGlobalCounter st) p).
Proof. split; [ exists []; rewrite app_nil_r; reflexivity | cbn; lia ]. Qed.

(** X7. Symbols are never removed, reordered, renamed, retyped or given
    another id, and the id counter never goes down: after a declaration,
    an [if] or [while] statement, the analysis of a block or the driver
    loop, whatever their outcome, the table holds the symbols it held, in
    the same order and with the same name, type and id, possibly followed
    by new ones; an assignment adds none and leaves the counter as it
    is. Only values change. *)
Theorem tabla_crece :
  forall tokens fuel i st,
    crece st (snd (esDeclaracionVariable tokens i st))
    /\ mismas_claves st (snd (esOperacionAritmetica tokens i st))
    /\ crece st (snd (esBloqueIf (analizarBloque tokens) tokens i st))
    /\ crece st (snd (esBloqueWhile (analizarBloque tokens) tokens i st))
    /\ crece st (snd (analizarBloque_rec fuel tokens i st))
    /\ crece st (snd (analisisSintactico_rec fuel tokens i st))
    /\ crece st (snd (analisisSintactico tokens st)).
Proof.
  intros tokens fuel i st.
  assert (Ha : forall tk k, conserva crece (esOperacionAritmetica tk k)).
  { intros tk k s. apply mismas_claves_crece, esOperacionAritmetica_claves. }
  assert (Hb : forall k, conserva crece (analizarBloque tokens k)).
  { intro k. apply (relacion_analizarBloque_rec crece crece_refl crece_trans
                      esDeclaracionVariable_crece Ha). }
  split; [ apply esDeclaracionVariable_crece | ].
  split; [ apply esOperacionAritmetica_claves | ].
  split; [ apply (relacion_esBloqueIf crece crece_refl crece_trans); exact Hb | ].
  split; [ apply (relacion_esBloqueWhile crece crece_refl crece_trans); exact Hb | ].
  split; [ apply (relacion_analizarBloque_rec crece crece_refl crece_trans
                    esDeclaracionVariable_crece Ha) | ].
  split; apply (relacion_analisisSintactico_rec crece crece_refl crece_trans crece_pila
                  esDeclaracionVariable_crece Ha).
Qed.

(** ** The ids of the symbols *)

Lemma to_int_no_nil n :
  Z.to_int n <> Decimal.Pos Decimal.Nil /\ Z.to_int n <> Decimal.Neg Decimal.Nil.
Proof.
  destruct n as [| p | p]; cbn [Z.to_int]; split; try discriminate;
    intro H; inversion H as [H1]; exact (Unsigned.to_uint_nonnil p H1).
Qed.

(** [to_string] gives different texts to different integers. *)
Lemma to_string_int_inj a b : to_string_int a = to_string_int b -> a = b.
Proof.
  unfold to_string_int. intro H.
  apply DecimalZ.to_int_inj.
  destruct (to_int_no_nil a) as [Ha1 Ha2]. destruct (to_int_no_nil b) as [Hb1 Hb2].
  pose proof (NilZero.isi _ Ha1 Ha2) as Ea.
  pose proof (NilZero.isi _ Hb1 Hb2) as Eb.
  rewrite H in Ea. congruence.
Qed.

Lemma id_de_inj a b : id_de a = id_de b -> a = b.
Proof.
  unfold id_de. intro H. cbn [append] in H. inversion H as [H1].
  apply to_string_int_inj in H1. lia.
Qed.

Lemma NoDup_map_inyectiva {A B : Type} (f : A -> B) (l : list A) :
  (forall a b, f a = f b -> a = b) -> NoDup l -> NoDup (map f l).
Proof.
  intros Hf H. induction H as [| x l Hx Hl IH]; cbn [map]; constructor; [ | exact IH ].
  intro Hin. apply in_map_iff in Hin. destruct Hin as (y & Hy & Hin).
  apply Hf in Hy. subst y. contradiction.
Qed.

Lemma ids_en_orden_distintos st :
  ids_en_orden st -> NoDup (map Sim.id_contador (tablaSimbolos st)).
Proof.
  intros [H _]. rewrite H.
  apply NoDup_map_inyectiva; [ apply id_de_inj | apply seq_NoDup ].
Qed.

Lemma mantiene_ids_refl st : mantiene_ids st st.
Proof. intro H. exact H. Qed.

Lemma mantiene_ids_trans a b c :
  mantiene_ids a b -> mantiene_ids b c -> mantiene_ids a c.
Proof. unfold mantiene_ids. auto. Qed.

Lemma mantiene_ids_pila st p :
  mantiene_ids st (mkEstado (tablaSimbolos st) (idGlobalCounter st) p).
Proof. intro H. exact H. Qed.

Lemma mismas_claves_ids a b : mismas_claves a b -> mantiene_ids a b.
Proof.
  intros [Hk Hc] [Hi Hn].
  assert (Hid : map Sim.id_contador (tablaSimbolos b)
                = map Sim.id_contador (tablaSimbolos a)).
  { transitivity (map snd (map clave (tablaSimbolos b)));
      [ rewrite map_map; reflexivity | ].
    rewrite Hk, map_map. reflexivity. }
  assert (Hlen : List.length (tablaSimbolos b) = List.length (tablaSimbolos a)).
  { rewrite <- (length_map clave (tablaSimbolos b)), Hk, length_map. reflexivity. }
  split; [ rewrite Hid, Hlen; exact Hi | rewrite Hc, Hlen; exact Hn ].
Qed.

Lemma esDeclaracionVariable_ids tokens i :
  conserva mantiene_ids (esDeclaracionVariable tokens i).
Proof.
  intros st [Hi Hn].
  destruct (esDeclaracionVariable_estado tokens i st)
    as [-> | (nombre & tipo & valor & _ & _ & ->)]; [ split; assumption | ].
  split; cbn [tablaSimbolos idGlobalCounter].
  - rewrite length_app. cbn [List.length]. rewrite Nat.add_1_r, seq_S, !map_app.
    f_equal; [ exact Hi | ].
    cbn [map Sim.id_contador]. unfold id_de. rewrite Hn. reflexivity.
  - rewrite length_app, Hn. cbn [List.length]. lia.
Qed.

Lemma esOperacionAritmetica_ids tokens i :
  conserva mantiene_ids (esOperacionAritmetica tokens i).
Proof. intro st. apply mismas_claves_ids, esOperacionAritmetica_claves. Qed.

(** X8. The ids of the symbols are id1, id2, ... in the order of the
    table and the id counter is the number of the next one: this holds
    at the start, every recognizer, the analysis of a block and the
    driver loop keep it whatever their outcome, so it holds at the end of
    the analysis of every source text. Hence no two symbols have the
    same id. *)
Theorem ids_consecutivos :
  forall tokens fuel i st,
    ids_en_orden st ->
    NoDup (map Sim.id_contador (tablaSimbolos st))
    /\ ids_en_orden (snd (esDeclaracionVariable tokens i st))
    /\ ids_en_orden (snd (esOperacionAritmetica tokens i st))
    /\ ids_en_orden (snd (esBloqueIf (analizarBloque tokens) tokens i st))
    /\ ids_en_orden (snd (esBloqueWhile (analizarBloque tokens) tokens i st))
    /\ ids_en_orden (snd (analizarBloque_rec fuel tokens i st))
    /\ ids_en_orden (snd (analisisSintactico_rec fuel tokens i st))
    /\ forall codigo,
         ids_en_orden (snd (principal codigo))
         /\ NoDup (map Sim.id_contador (tablaSimbolos (snd (principal codigo)))).
Proof.
  intros tokens fuel i st H.
  assert (Hini : ids_en_orden estado_inicial) by (split; reflexivity).
  assert (Hb : forall k, conserva mantiene_ids (analizarBloque tokens k)).
  { intro k. apply (relacion_analizarBloque_rec mantiene_ids mantiene_ids_refl
                      mantiene_ids_trans esDeclaracionVariable_ids
                      esOperacionAritmetica_ids). }
  split; [ apply ids_en_orden_distintos; exact H | ].
  split; [ apply esDeclaracionVariable_ids; exact H | ].
  split; [ apply esOperacionAritmetica_ids; exact H | ].
  split; [ apply (relacion_esBloqueIf mantiene_ids mantiene_ids_refl mantiene_ids_trans);
           [ exact Hb | exact H ] | ].
  split; [ apply (relacion_esBloqueWhile mantiene_ids mantiene_ids_refl
                    mantiene_ids_trans); [ exact Hb | exact H ] | ].
  split; [ apply (relacion_analizarBloque_rec mantiene_ids mantiene_ids_refl
                    mantiene_ids_trans esDeclaracionVariable_ids
                    esOperacionAritmetica_ids); exact H | ].
  split; [ apply (relacion_analisisSintactico_rec mantiene_ids mantiene_ids_refl
                    mantiene_ids_trans mantiene_ids_pila esDeclaracionVariable_ids
                    esOperacionAritmetica_ids); exact H | ].
  intro codigo.
  assert (Hfin : ids_en_orden (snd (principal codigo))).
  { unfold principal, analisisSintactico.
    apply (relacion_analisisSintactico_rec mantiene_ids mantiene_ids_refl
             mantiene_ids_trans mantiene_ids_pila esDeclaracionVariable_ids
             esOperacionAritmetica_ids). exact Hini. }
  split; [ exact Hfin | apply ids_en_orden_distintos; exact Hfin ].
Qed.

(** X8 on the program [int x = 5; x = x + 1;], from the initial globals. *)
Lemma ids_consecutivos_testigo :
  ids_en_orden estado_inicial
  /\ ids_en_orden (snd (analisisSintactico_rec 3 tokens_incremento 0 estado_inicial)).
Proof.
  assert (H : ids_en_orden estado_inicial) by (split; reflexivity).
  split; [ exact H | ].
  destruct (ids_consecutivos tokens_incremento 3 0 estado_inicial H)
    as (_ & _ & _ & _ & _ & _ & T & _).
  exact T.
Defined.

(** ** The values of numeric variables *)

Lemma todos_app p a b : todos p (a ++ b) = todos p a && todos p b.
Proof.
  induction a as [| c a IH]; cbn [append todos]; [ reflexivity | ].
  rewrite IH. apply andb_assoc.
Qed.

Lemma string_of_uint_digitos d : todos es_digito (NilEmpty.string_of_uint d) = true.
Proof. induction d; cbn [NilEmpty.string_of_uint todos]; try rewrite IHd; reflexivity. Qed.

Lemma string_of_uint_solo_digitos d : solo_digitos (NilZero.string_of_uint d) = true.
Proof.
  unfold solo_digitos.
  destruct d; try reflexivity;
    cbn [NilZero.string_of_uint NilEmpty.string_of_uint no_vacia todos andb];
    apply string_of_uint_digitos.
Qed.

Lemma quitar_menos_digitos s : solo_digitos s = true -> quitar_menos s = s.
Proof.
  destruct s as [| c r]; [ reflexivity | ].
  unfold solo_digitos. cbn [no_vacia todos andb]. intro H.
  apply andb_true_iff in H. destruct H as [Hc _].
  destruct c as [[] [] [] [] [] [] [] []]; try reflexivity; discriminate.
Qed.

(** [to_string] of an [int] is an integer numeral. *)
Lemma to_string_int_entero n : solo_digitos (quitar_menos (to_string_int n)) = true.
Proof.
  unfold to_string_int. destruct (Z.to_int n) as [d | d]; cbn [NilZero.string_of_int].
  - rewrite quitar_menos_digitos; apply string_of_uint_solo_digitos.
  - cbn [quitar_menos]. apply string_of_uint_solo_digitos.
Qed.

Lemma to_string_int_natural n :
  (0 <= n)%Z -> solo_digitos (to_string_int n) = true.
Proof.
  intro Hn. unfold to_string_int. destruct n as [| p | p]; [ reflexivity | | lia ].
  cbn [Z.to_int NilZero.string_of_int]. apply string_of_uint_solo_digitos.
Qed.

Lemma ceros_digitos n : todos es_digito (ceros n) = true.
Proof. induction n as [| n IH]; cbn [ceros todos]; [ reflexivity | exact IH ]. Qed.

Lemma no_vacia_app_r a b : no_vacia b = true -> no_vacia (a ++ b) = true.
Proof. destruct a; cbn [append no_vacia]; auto. Qed.

Lemma rellenar_digitos ancho s : solo_digitos s = true -> solo_digitos (rellenar ancho s) = true.
Proof.
  unfold solo_digitos, rellenar. intro H.
  apply andb_true_iff in H. destruct H as [Hn Hd].
  rewrite todos_app, ceros_digitos, Hd, (no_vacia_app_r _ _ Hn). reflexivity.
Qed.

Lemma numero_sin_signo_decimal a b :
  solo_digitos a = true -> solo_digitos b = true ->
  numero_sin_signo (a ++ "." ++ b) = true.
Proof.
  unfold solo_digitos at 1. intros Ha Hb.
  apply andb_true_iff in Ha. destruct Ha as [Hn Hd].
  unfold numero_sin_signo. cbn [append].
  rewrite (tomar_mientras_hasta es_digito a "." b Hd eq_refl), Hn, Hb. reflexivity.
Qed.

Lemma seis_decimales_numero mm :
  (0 <= mm)%Z ->
  numero_sin_signo (seis_decimales mm) = true
  /\ quitar_menos (seis_decimales mm) = seis_decimales mm.
Proof.
  intro H. unfold seis_decimales.
  assert (Ha : solo_digitos (to_string_int (mm / 1000000)) = true).
  { apply to_string_int_natural. apply Z.div_pos; lia. }
  assert (Hb : solo_digitos (rellenar 6 (to_string_int (mm mod 1000000))) = true).
  { apply rellenar_digitos, to_string_int_natural.
    apply Z.mod_pos_bound. lia. }
  split; [ apply numero_sin_signo_decimal; assumption | ].
  destruct (to_string_int (mm / 1000000)) as [| c r]; [ discriminate | ].
  unfold solo_digitos in Ha. cbn [no_vacia todos andb] in Ha.
  apply andb_true_iff in Ha. destruct Ha as [Hc _].
  destruct c as [[] [] [] [] [] [] [] []]; try reflexivity; discriminate.
Qed.

Lemma div_redondeo_natural a b : (0 <= a)%Z -> (0 < b)%Z -> (0 <= div_redondeo a b)%Z.
Proof.
  intros Ha Hb. unfold div_redondeo.
  assert (0 <= a / b)%Z by (apply Z.div_pos; lia).
  destruct (2 * (a mod b) ?= b)%Z; [ destruct (Z.even (a / b)) | | ]; lia.
Qed.

(** [to_string] of a [double] is a decimal numeral, or the text of a
    value that is not finite. *)
Lemma to_string_double_numero x :
  esValorCompatible (to_string_double x) "float" || es_no_finito (to_string_double x)
  = true.
Proof.
  unfold to_string_double.
  destruct (Prim2SF x) as [s | s | | s m e]; try (destruct s; reflexivity); try reflexivity.
  set (mm := if (0 <=? e)%Z then (Z.pos m * 2 ^ e * 1000000)%Z
             else div_redondeo (Z.pos m * 1000000) (2 ^ (- e))).
  assert (Hmm : (0 <= mm)%Z).
  { subst mm. destruct (0 <=? e)%Z eqn:He.
    - apply Z.leb_le in He.
      assert (0 <= 2 ^ e)%Z by (apply Z.pow_nonneg; lia). nia.
    - apply Z.leb_gt in He. apply div_redondeo_natural; [ lia | ].
      apply Z.pow_pos_nonneg; lia. }
  destruct (seis_decimales_numero mm Hmm) as [Hnum Hq].
  apply orb_true_iff. left.
  change (esValorCompatible ?v "float") with (numero_sin_signo (quitar_menos v)).
  destruct s; cbn [append].
  - cbn [quitar_menos]. exact Hnum.
  - rewrite Hq. exact Hnum.
Qed.

Lemma valor_nuevo_numerico destino resultado v :
  valor_nuevo (stringToDataType (Sim.tipo destino)) resultado = Ret v ->
  valor_numerico (Sim.mk (Sim.nombre destino) (Sim.tipo destino) v
                         (Sim.id_contador destino)) = true.
Proof.
  unfold valor_numerico, valor_nuevo, stringToDataType. cbn [Sim.tipo Sim.valor].
  destruct (Sim.tipo destino =? "int") eqn:Ei.
  - cbn [DataType_eqb]. intro H.
    apply rbind_ret_inv in H. destruct H as (n & _ & H). inversion H.
    apply to_string_int_entero.
  - destruct (Sim.tipo destino =? "float") eqn:Ef; [ | reflexivity ].
    cbn [DataType_eqb]. intro H. inversion H. apply to_string_double_numero.
Qed.

Lemma mantiene_valores_refl st : mantiene_valores st st.
Proof. intro H. exact H. Qed.

Lemma mantiene_valores_trans a b c :
  mantiene_valores a b -> mantiene_valores b c -> mantiene_valores a c.
Proof. unfold mantiene_valores. auto. Qed.

Lemma mantiene_valores_pila st p :
  mantiene_valores st (mkEstado (tablaSimbolos st) (idGlobalCounter st) p).
Proof. intro H. exact H. Qed.

Lemma esValorCompatible_numerico nombre tipo valor id :
  esValorCompatible valor tipo = true ->
  valor_numerico (Sim.mk nombre tipo valor id) = true.
Proof.
  unfold valor_numerico. cbn [Sim.tipo Sim.valor]. intro H.
  destruct (tipo =? "int") eqn:Ei.
  - apply String.eqb_eq in Ei. subst tipo. exact H.
  - destruct (tipo =? "float") eqn:Ef; [ | reflexivity ].
    apply String.eqb_eq in Ef. subst tipo. rewrite H. reflexivity.
Qed.

Lemma esDeclaracionVariable_valores tokens i :
  conserva mantiene_valores (esDeclaracionVariable tokens i).
Proof.
  intros st H. unfold valores_numericos in *.
  destruct (esDeclaracionVariable_estado tokens i st)
    as [-> | (nombre & tipo & valor & Hc & _ & ->)]; [ exact H | ].
  cbn [tablaSimbolos]. rewrite forallb_app, H. cbn [forallb].
  rewrite (esValorCompatible_numerico _ _ _ _ Hc). reflexivity.
Qed.

Lemma esOperacionAritmetica_valores tokens i :
  conserva mantiene_valores (esOperacionAritmetica tokens i).
Proof.
  intros st H. unfold valores_numericos in *.
  destruct (esOperacionAritmetica_estado tokens i st) as [_ Ht].
  destruct Ht as [-> | (t & destino & resultado & Hb & Ha)]; [ exact H | ].
  destruct (actualizar_inv _ _ _ _ _ _ Hb Ha)
    as (antes & despues & v & Htab & _ & _ & Hv & ->).
  rewrite Htab in H. rewrite forallb_app in *. cbn [forallb] in *.
  apply andb_true_iff in H. destruct H as [H1 H2].
  apply andb_true_iff in H2. destruct H2 as [_ H2].
  rewrite H1, H2, (valor_nuevo_numerico _ _ _ Hv). reflexivity.
Qed.

(** X9. The value of a variable of type [int] is always an integer
    numeral (an optional minus sign and digits), and the value of a
    variable of type [float] is always a decimal numeral or one of the
    texts [inf], [-inf], [-nan] that [to_string] gives to a value that is
    not finite: a declaration stores only a value that passed
    [esValorCompatible], an assignment stores the text of [to_string],
    and nothing else writes a value. Every recognizer, the analysis of a
    block and the driver loop keep this, whatever their outcome, so it
    holds at the end of the analysis of every source text. *)
Theorem valores_numericos_siempre :
  forall tokens fuel i st,
    valores_numericos st ->
    valores_numericos (snd (esDeclaracionVariable tokens i st))
    /\ valores_numericos (snd (esOperacionAritmetica tokens i st))
    /\ valores_numericos (snd (esBloqueIf (analizarBloque tokens) tokens i st))
    /\ valores_numericos (snd (esBloqueWhile (analizarBloque tokens) tokens i st))
    /\ valores_numericos (snd (analizarBloque_rec fuel tokens i st))
    /\ valores_numericos (snd (analisisSintactico_rec fuel tokens i st))
    /\ forall codigo, valores_numericos (snd (principal codigo)).
Proof.
  intros tokens fuel i st H.
  assert (Hb : forall k, conserva mantiene_valores (analizarBloque tokens k)).
  { intro k. apply (relacion_analizarBloque_rec mantiene_valores mantiene_valores_refl
                      mantiene_valores_trans esDeclaracionVariable_valores
                      esOperacionAritmetica_valores). }
  split; [ apply esDeclaracionVariable_valores; exact H | ].
  split; [ apply esOperacionAritmetica_valores; exact H | ].
  split; [ apply (relacion_esBloqueIf mantiene_valores mantiene_valores_refl
                    mantiene_valores_trans); [ exact Hb | exact H ] | ].
  split; [ apply (relacion_esBloqueWhile mantiene_valores mantiene_valores_refl
                    mantiene_valores_trans); [ exact Hb | exact H ] | ].
  split; [ apply (relacion_analizarBloque_rec mantiene_valores mantiene_valores_refl
                    mantiene_valores_trans esDeclaracionVariable_valores
                    esOperacionAritmetica_valores); exact H | ].
  split; [ apply (relacion_analisisSintactico_rec mantiene_valores mantiene_valores_refl
                    mantiene_valores_trans mantiene_valores_pila
                    esDeclaracionVariable_valores esOperacionAritmetica_valores);
           exact H | ].
  intro codigo. unfold principal, analisisSintactico.
  apply (relacion_analisisSintactico_rec mantiene_valores mantiene_valores_refl
           mantiene_valores_trans mantiene_valores_pila
           esDeclaracionVariable_valores esOperacionAritmetica_valores).
  reflexivity.
Qed.

(** X9 on the program [int x = 5; x = x + 1;], after its declaration. *)
Lemma valores_numericos_siempre_testigo :
  valores_numericos estado_x5
  /\ valores_numericos (snd (analisisSintactico_rec 3 tokens_incremento 0 estado_x5)).
Proof.
  assert (H : valores_numericos estado_x5) by reflexivity.
  split; [ exact H | ].
  destruct (valores_numericos_siempre tokens_incremento 3 0 estado_x5 H)
    as (_ & _ & _ & _ & _ & T & _).
  exact T.
Defined.

(** ** The semantic stack *)

Lemma push_inv t st u st' :
  push t st = (Ret u, st') ->
  st' = mkEstado (tablaSimbolos st) (idGlobalCounter st) (t :: pilaSemantica st).
Proof. unfold push. intro H. inversion H. reflexivity. Qed.

Lemma top_pop_inv st t st' :
  top_pop st = (Ret t, st') ->
  exists resto,
    pilaSemantica st = t :: resto /\
    st' = mkEstado (tablaSimbolos st) (idGlobalCounter st) resto.
Proof.
  unfold top_pop. destruct (pilaSemantica st) as [| t0 resto]; intro H; inversion H.
  exists resto. auto.
Qed.

(** What [verificar_tipos] does when it does not throw: the two topmost
    types are replaced by their combination. *)
Lemma verificar_tipos_inv st u st' :
  verificar_tipos st = (Ret u, st') ->
  exists tipoDerecho tipoIzquierdo resto T,
    pilaSemantica st = tipoDerecho :: tipoIzquierdo :: resto /\
    st' = mkEstado (tablaSimbolos st) (idGlobalCounter st) (T :: resto) /\
    ((T = FLOAT /\ ((tipoIzquierdo = INT /\ tipoDerecho = FLOAT)
                    \/ (tipoIzquierdo = FLOAT /\ tipoDerecho = INT)))
     \/ (T = tipoIzquierdo /\ tipoIzquierdo = tipoDerecho)).
Proof.
  unfold verificar_tipos. intro H.
  inv_bind_as H tipoDerecho s1 E1. apply top_pop_inv in E1.
  destruct E1 as (r1 & Hp1 & ->).
  inv_bind_as H tipoIzquierdo s2 E2. apply top_pop_inv in E2.
  cbn [pilaSemantica tablaSimbolos idGlobalCounter] in E2.
  destruct E2 as (r2 & Hp2 & ->). subst r1.
  destruct tipoIzquierdo, tipoDerecho; cbn in H; inversion H;
    eexists; eexists; eexists; eexists;
    (split; [ exact Hp1 | split; [ reflexivity | ] ]); tauto.
Qed.

(** The combination of the stack agrees with [OperatorNode::getType]. *)
Lemma tipo_en_pila_operador tabla op lhs rhs tipoIzquierdo tipoDerecho T :
  tipo_en_pila tabla lhs tipoIzquierdo ->
  tipo_en_pila tabla rhs tipoDerecho ->
  (T = FLOAT /\ ((tipoIzquierdo = INT /\ tipoDerecho = FLOAT)
                 \/ (tipoIzquierdo = FLOAT /\ tipoDerecho = INT)))
  \/ (T = tipoIzquierdo /\ tipoIzquierdo = tipoDerecho) ->
  tipo_en_pila tabla (OperatorNode op lhs rhs) T.
Proof.
  unfold tipo_en_pila. cbn [getType].
  intros [Hl | [Hl1 Hl2]] [Hr | [Hr1 Hr2]] HT; rewrite ?Hl, ?Hl2, ?Hr, ?Hr2;
    cbn [rbind]; subst;
    destruct HT as [[-> [[? ?] | [? ?]]] | [-> ?]]; subst; try discriminate;
    try (right; split; reflexivity);
    try (left; reflexivity).
  destruct tipoDerecho; try (left; reflexivity).
  unfold tipo_operacion. cbn [DataType_eqb andb orb negb].
  destruct (Ascii.eqb op "+"); [ left | right; split ]; reflexivity.
Qed.

Lemma NumberNode_cadena_tipo val n tabla :
  NumberNode_cadena val = Ret n -> exists T, getType tabla n = Ret T /\ T <> STRING.
Proof.
  unfold NumberNode_cadena.
  destruct (contiene "." val); intro H; apply rbind_ret_inv in H;
    destruct H as (v & _ & H); inversion H; eexists; (split; [ reflexivity | discriminate ]).
Qed.

(** The operand read by [factor] leaves its type on the stack, provided
    the recursive call does so for the expression it builds. *)
Lemma factor_pila rec tokens i otro st n j st' :
  (forall k st0 n0 j0 st0',
      rec k st0 = (Ret (n0, j0), st0') ->
      exists T, pilaSemantica st0' = T :: pilaSemantica st0 /\
                tipo_en_pila (tablaSimbolos st0) n0 T) ->
  factor rec tokens i otro st = (Ret (n, j), st') ->
  exists T, pilaSemantica st' = T :: pilaSemantica st /\
            tipo_en_pila (tablaSimbolos st) n T.
Proof.
  intros Hrec H. unfold factor in H.
  inv_bind_as H t s0 Et. inv_lift Et.
  caso_if_en H.
  { inv_bind_as H nj s1 Er. destruct nj as [n0 j0]. apply Hrec in Er.
    caso_if_en H; [ | discriminate ].
    inv_ret H. inversion H; subst. exact Er. }
  caso_if_en H.
  { inv_bind_as H n0 s1 En. inv_lift En.
    inv_bind_as H tabla s2 Etab. apply leer_tabla_inv in Etab. destruct Etab as [-> ->].
    inv_bind_as H ty s3 Ety. inv_lift Ety.
    inv_bind_as H u s4 Ep. apply push_inv in Ep. subst s4.
    inv_ret H. inversion H; subst.
    exists ty. split; [ reflexivity | left; exact Ety ]. }
  caso_if_en H; [ | discriminate ].
  inv_bind_as H tabla s2 Etab. apply leer_tabla_inv in Etab. destruct Etab as [-> ->].
  inv_bind_as H ty s3 Ety. inv_lift Ety.
  inv_bind_as H u s4 Ep. apply push_inv in Ep. subst s4.
  inv_ret H. inversion H; subst.
  exists ty. split; [ reflexivity | left; exact Ety ].
Qed.

Lemma construirAST_rec_pila tokens fuel :
  (forall i st n j st',
      construirAST_rec fuel tokens i st = (Ret (n, j), st') ->
      exists T, pilaSemantica st' = T :: pilaSemantica st /\
                tipo_en_pila (tablaSimbolos st) n T) /\
  (forall lhs i st n j st' tipoIzquierdo resto,
      operadores fuel tokens lhs i st = (Ret (n, j), st') ->
      pilaSemantica st = tipoIzquierdo :: resto ->
      tipo_en_pila (tablaSimbolos st) lhs tipoIzquierdo ->
      exists T, pilaSemantica st' = T :: resto /\
                tipo_en_pila (tablaSimbolos st) n T).
Proof.
  induction fuel as [| f [IH1 IH2]]; split; intros until st'.
  - intro H. discriminate.
  - intros Tl resto H. discriminate.
  - intro H. cbn [construirAST_rec] in H.
    inv_bind_as H nj s1 Ef. destruct nj as [lhs i1].
    pose proof (conserva_factor (construirAST_rec f tokens) tokens i
                  (fun v => runtime_error ("Factor inesperado: " ++ v))
                  (fun k => proj1 (conserva_construirAST_rec tokens f) k) st) as Hc.
    rewrite Ef in Hc. destruct Hc as [Htab _]. cbn [snd] in Htab.
    apply (factor_pila _ _ _ _ _ _ _ _ IH1) in Ef. destruct Ef as (Tl & Hp & Ht).
    rewrite <- Htab in Ht.
    destruct (IH2 _ _ _ _ _ _ _ _ H Hp Ht) as (T & Hp' & Ht').
    exists T. split; [ exact Hp' | rewrite <- Htab; exact Ht' ].
  - intros Tl resto H Hp Ht. cbn [operadores] in H.
    destruct (nth_error tokens i) as [t |];
      [ | inv_ret H; inversion H; subst; exists Tl; auto ].
    caso_if_en H; [ | inv_ret H; inversion H; subst; exists Tl; auto ].
    inv_bind_as H nj s1 Ef. destruct nj as [rhs i2].
    pose proof (conserva_factor (construirAST_rec f tokens) tokens (i + 1)
                  (fun _ => runtime_error "Operando derecho inválido")
                  (fun k => proj1 (conserva_construirAST_rec tokens f) k) st) as Hc.
    rewrite Ef in Hc. destruct Hc as [Htab _]. cbn [snd] in Htab.
    apply (factor_pila _ _ _ _ _ _ _ _ IH1) in Ef. destruct Ef as (Tr & Hp1 & Htr).
    inv_bind_as H u s2 Ev. apply verificar_tipos_inv in Ev.
    destruct Ev as (Tr' & Tl' & resto' & T & Hp2 & -> & HT).
    rewrite Hp1, Hp in Hp2. inversion Hp2; subst Tr' Tl' resto'.
    pose proof (tipo_en_pila_operador _ (primer_caracter (Tok.valor t)) _ _ _ _ _
                  Ht Htr HT) as Hop.
    rewrite <- Htab in Hop.
    destruct (IH2 _ _ _ _ _ _ T resto H eq_refl Hop) as (T' & Hp' & Ht').
    exists T'. split; [ exact Hp' | ].
    cbn [tablaSimbolos] in Ht'. rewrite Htab in Ht'. exact Ht'.
Qed.

(** X10. When [construirAST] returns a tree, it has pushed exactly one
    type on the semantic stack, above the entries that were there, and
    has changed nothing else in the globals. That type is the type of
    the tree as [getType] computes it, with one exception: for a tree
    that combines strings under an operator other than [+] the stack
    holds STRING while [getType] throws. *)
Theorem construirAST_deja_un_tipo :
  forall tokens i st root j st',
    construirAST tokens i st = (Ret (root, j), st') ->
    exists T,
      st' = mkEstado (tablaSimbolos st) (idGlobalCounter st) (T :: pilaSemantica st)
      /\ tipo_en_pila (tablaSimbolos st) root T.
Proof.
  intros tokens i st root j st' H.
  pose proof (conserva_construirAST tokens i st) as Hc. rewrite H in Hc.
  destruct Hc as [Htab Hcnt]. cbn [snd] in Htab, Hcnt.
  apply (proj1 (construirAST_rec_pila tokens _)) in H.
  destruct H as (T & Hp & Ht). exists T. split; [ | exact Ht ].
  destruct st' as [tabla' contador' pila']. cbn in *. congruence.
Qed.

(** X10 at [x + y * x] with two variables of type [int]. *)
Lemma construirAST_deja_un_tipo_testigo :
  exists T,
    mkEstado tabla_xy 3 [INT]
      = mkEstado (tablaSimbolos estado_xy) (idGlobalCounter estado_xy)
                 (T :: pilaSemantica estado_xy)
    /\ tipo_en_pila (tablaSimbolos estado_xy) arbol_suma_producto T.
Proof.
  apply (construirAST_deja_un_tipo (Lexico "x + y * x;") 0 estado_xy
           arbol_suma_producto 5 (mkEstado tabla_xy 3 [INT])).
  vm_compute. reflexivity.
Defined.

Lemma getType_variable_no_concatenacion tabla name :
  getType_variable tabla name <> Throw SoloConcatenacion.
Proof.
  induction tabla as [| s r IH]; cbn [getType_variable]; [ discriminate | ].
  repeat (caso_if; try discriminate); exact IH.
Qed.

(** A tree that evaluates has the type that the builder left on the
    stack. *)
Lemma tipo_en_pila_evaluate tabla n T v :
  tipo_en_pila tabla n T -> evaluate tabla n = Ret v -> getType tabla n = Ret T.
Proof.
  intros [H | [_ H]] Hv; [ exact H | exfalso ].
  destruct n as [x d | name | op lhs rhs].
  - discriminate.
  - exact (getType_variable_no_concatenacion _ _ H).
  - cbn [evaluate] in Hv. rewrite H in Hv. discriminate.
Qed.

(** A successful assignment, with the types it checked and the stack it
    leaves. *)
Lemma esOperacionAritmetica_exito_pila tokens i st j st' :
  esOperacionAritmetica tokens i st = (Ret (true, j), st') ->
  exists t destino root k st1 tipoExpresion resultado,
    nth_error tokens i = Some t /\
    buscarVariable (tablaSimbolos st) (Tok.valor t) = Some destino /\
    construirAST tokens (i + 2) st = (Ret (root, k), st1) /\
    pilaSemantica st1 = tipoExpresion :: pilaSemantica st' /\
    tipoExpresion = stringToDataType (Sim.tipo destino) /\
    es_punto_y_coma tokens k = true /\
    evaluate (tablaSimbolos st) root = Ret resultado.
Proof.
  intro H. unfold esOperacionAritmetica in H.
  inv_bind_as H entra s0 Ec. inv_lift Ec. destruct entra; [ | inv_ret H; discriminate ].
  inv_bind_as H t s1 Et. inv_lift Et. apply leer_ret_inv in Et.
  inv_bind_as H tabla s2 Etab. apply leer_tabla_inv in Etab. destruct Etab as [-> ->].
  destruct (buscarVariable (tablaSimbolos st) (Tok.valor t)) as [destino |] eqn:Eb;
    [ | inv_ret H; discriminate ].
  apply capturar_true_inv in H. unfold intento_aritmetico in H.
  inv_bind_as H rk st1 East. destruct rk as [root k].
  pose proof (conserva_construirAST tokens (i + 2) st) as Hc.
  rewrite East in Hc. destruct Hc as [Htab Hcnt]. cbn [snd] in Htab, Hcnt.
  inv_bind_as H tipoExpresion st2 Epop. apply top_pop_inv in Epop.
  destruct Epop as (resto & Hp & ->).
  destruct (DataType_eqb tipoExpresion (stringToDataType (Sim.tipo destino))) eqn:Etipo;
    cbn [negb] in H; [ | inv_ret H; discriminate ].
  destruct (es_punto_y_coma tokens k) eqn:Epc; [ | inv_ret H; discriminate ].
  inv_bind_as H tabla s3 Etab. apply leer_tabla_inv in Etab. destruct Etab as [-> ->].
  inv_bind_as H resultado s4 Eev. inv_lift Eev.
  inv_bind_as H nueva s5 Eact. inv_lift Eact.
  inv_bind_as H u st3 Eponer. unfold poner_tabla in Eponer.
  inversion Eponer; subst u st3. clear Eponer.
  inv_bind_as H u1 s6 Emostrar. inv_lift Emostrar.
  inv_bind_as H u2 s7 Eev2. inv_lift Eev2.
  inv_ret H. inversion H; subst j.
  cbn [tablaSimbolos pilaSemantica] in *. rewrite Htab in Eev.
  exists t, destino, root, k, st1, tipoExpresion, resultado.
  repeat split; auto.
  destruct tipoExpresion, (stringToDataType (Sim.tipo destino)); try discriminate;
    reflexivity.
Qed.

(** X11. An assignment that succeeds is exact in its types: the type of
    the tree, as [getType] computes it on the table before the write, is
    the declared type of the destination. An expression of type INT is
    not accepted for a [float] variable, nor FLOAT for [int]. And the
    assignment leaves the semantic stack as it found it. *)
Theorem asignacion_de_tipo_exacto :
  forall tokens i st j st',
    esOperacionAritmetica tokens i st = (Ret (true, j), st') ->
    exists t destino root k st1,
      nth_error tokens i = Some t /\
      buscarVariable (tablaSimbolos st) (Tok.valor t) = Some destino /\
      construirAST tokens (i + 2) st = (Ret (root, k), st1) /\
      getType (tablaSimbolos st) root = Ret (stringToDataType (Sim.tipo destino)) /\
      pilaSemantica st' = pilaSemantica st.
Proof.
  intros tokens i st j st' H.
  apply esOperacionAritmetica_exito_pila in H.
  destruct H as (t & destino & root & k & st1 & T & resultado
                 & Ht & Hb & Hast & Hp & HT & _ & Hev).
  exists t, destino, root, k, st1. repeat split; auto.
  - pose proof (proj1 (construirAST_rec_pila tokens _) _ _ _ _ _ Hast) as Hpila.
    destruct Hpila as (T' & Hp' & Ht'). rewrite Hp in Hp'. inversion Hp'; subst T'.
    rewrite <- HT. eapply tipo_en_pila_evaluate; eauto.
  - pose proof (proj1 (construirAST_rec_pila tokens _) _ _ _ _ _ Hast) as Hpila.
    destruct Hpila as (T' & Hp' & _). rewrite Hp in Hp'. inversion Hp'. reflexivity.
Qed.

(** X11 at the assignment of [int x = 5; x = x + 1;]. *)
Lemma asignacion_de_tipo_exacto_testigo :
  exists t destino root k st1,
    nth_error tokens_incremento 5 = Some t /\
    buscarVariable (tablaSimbolos estado_x5) (Tok.valor t) = Some destino /\
    construirAST tokens_incremento (5 + 2) estado_x5 = (Ret (root, k), st1) /\
    getType (tablaSimbolos estado_x5) root = Ret (stringToDataType (Sim.tipo destino)) /\
    pilaSemantica (mkEstado [Sim.mk "x" "int" "6" "id1"] 2 []) = pilaSemantica estado_x5.
Proof.
  apply (asignacion_de_tipo_exacto tokens_incremento 5 estado_x5 11
           (mkEstado [Sim.mk "x" "int" "6" "id1"] 2 [])).
  vm_compute. reflexivity.
Defined.

(** ** Exceptions that leave the analysis *)

Lemma bind_sin_runtime_error {A B : Type} (m : M A) (k : A -> M B) st :
  sin_runtime_error (fst (m st)) ->
  (forall a st1, m st = (Ret a, st1) -> sin_runtime_error (fst (k a st1))) ->
  sin_runtime_error (fst (bind m k st)).
Proof.
  unfold bind. destruct (m st) as [[a | e | | ] st1]; cbn [fst]; intros Hm Hk;
    auto; exact I.
Qed.

Lemma leer_sin_runtime_error tokens i st :
  sin_runtime_error (fst (lift (leer tokens i) st)).
Proof. unfold lift, leer. destruct (nth_error tokens i); exact I. Qed.

Lemma esDeclaracionVariable_sin_runtime_error tokens i st :
  sin_runtime_error (fst (esDeclaracionVariable tokens i st)).
Proof.
  unfold esDeclaracionVariable. caso_if; [ | exact I ].
  apply bind_sin_runtime_error; [ apply leer_sin_runtime_error | intros t0 s0 _ ].
  apply bind_sin_runtime_error; [ apply leer_sin_runtime_error | intros t1 s1 _ ].
  apply bind_sin_runtime_error; [ apply leer_sin_runtime_error | intros t3 s3 _ ].
  apply bind_sin_runtime_error; [ exact I | intros tabla s4 _ ].
  caso_if; [ exact I | ].
  destruct (valor_inicial _ _ _) as [valor |]; [ | exact I ].
  caso_if; [ exact I | ].
  apply bind_sin_runtime_error.
  - unfold agregar. caso_if; exact I.
  - intros u s5 _. caso_if; exact I.
Qed.

Lemma esEscritura_sin_runtime_error tokens i st :
  sin_runtime_error (fst (esEscritura tokens i st)).
Proof.
  unfold esEscritura. caso_if; [ | exact I ].
  apply bind_sin_runtime_error; [ apply leer_sin_runtime_error | intros t2 s0 _ ].
  apply bind_sin_runtime_error; [ exact I | intros tabla s1 _ ].
  caso_if; exact I.
Qed.

Lemma esLectura_sin_runtime_error tokens i st :
  sin_runtime_error (fst (esLectura tokens i st)).
Proof.
  unfold esLectura. caso_if; [ | exact I ].
  apply bind_sin_runtime_error; [ apply leer_sin_runtime_error | intros t2 s0 _ ].
  apply bind_sin_runtime_error; [ exact I | intros tabla s1 _ ].
  destruct (buscarVariable _ _); exact I.
Qed.

Lemma condicion_aritmetica_sin_runtime_error tokens i :
  sin_runtime_error (condicion_aritmetica tokens i).
Proof.
  unfold condicion_aritmetica, leer.
  destruct (Nat.ltb (i + 3) (List.length tokens));
    destruct (nth_error tokens i) as [t |]; cbn [rbind]; try exact I;
    repeat (caso_if; cbn [rbind]; try exact I);
    destruct (nth_error tokens (i + 1)) as [t1 |]; cbn [rbind]; try exact I;
    repeat (caso_if; cbn [rbind]; try exact I).
Qed.

(** The [catch] of the assignment recognizer lets no [runtime_error]
    through. *)
Lemma esOperacionAritmetica_sin_runtime_error tokens i st :
  sin_runtime_error (fst (esOperacionAritmetica tokens i st)).
Proof.
  unfold esOperacionAritmetica.
  apply bind_sin_runtime_error.
  { apply condicion_aritmetica_sin_runtime_error. }
  intros entra s0 _. destruct entra; [ | exact I ].
  apply bind_sin_runtime_error; [ apply leer_sin_runtime_error | intros t s1 _ ].
  apply bind_sin_runtime_error; [ exact I | intros tabla s2 _ ].
  destruct (buscarVariable _ _) as [destino |]; [ | exact I ].
  unfold capturar.
  destruct (intento_aritmetico _ _ _ _ _ s2) as [[r | [w | w | w] | | ] st1]; exact I.
Qed.

Lemma esBloqueWhile_sin_runtime_error bloque tokens i st :
  (forall k st0, sin_runtime_error (fst (bloque k st0))) ->
  sin_runtime_error (fst (esBloqueWhile bloque tokens i st)).
Proof.
  intro Hb. unfold esBloqueWhile.
  caso_if; [ | exact I ]. caso_if; [ | exact I ].
  apply bind_sin_runtime_error; [ apply Hb | intros [ok j] s0 _ ].
  repeat (caso_if; try exact I).
Qed.

Lemma esBloqueIf_sin_runtime_error bloque tokens i st :
  (forall k st0, sin_runtime_error (fst (bloque k st0))) ->
  sin_runtime_error (fst (esBloqueIf bloque tokens i st)).
Proof.
  intro Hb. unfold esBloqueIf.
  caso_if; [ | exact I ].
  apply bind_sin_runtime_error; [ apply leer_sin_runtime_error | intros t2 s0 _ ].
  apply bind_sin_runtime_error; [ apply leer_sin_runtime_error | intros t4 s1 _ ].
  apply bind_sin_runtime_error; [ exact I | intros tabla s2 _ ].
  caso_if; [ exact I | ]. caso_if; [ exact I | ].
  caso_if; [ | exact I ].
  apply bind_sin_runtime_error; [ apply Hb | intros [ok j] s3 _ ].
  caso_if; [ exact I | ]. caso_if; [ | exact I ].
  caso_if; [ | exact I ]. caso_if; [ | exact I ].
  apply bind_sin_runtime_error; [ apply Hb | intros [ok2 k] s4 _ ].
  repeat (caso_if; try exact I).
Qed.

Lemma reconocer_sin_runtime_error bloque tokens i st :
  (forall k st0, sin_runtime_error (fst (bloque k st0))) ->
  sin_runtime_error (fst (reconocer bloque tokens i st)).
Proof.
  intro Hb. unfold reconocer.
  apply bind_sin_runtime_error;
    [ apply esDeclaracionVariable_sin_runtime_error | intros [ok1 i1] s1 _ ].
  destruct ok1; [ exact I | ].
  apply bind_sin_runtime_error;
    [ apply esEscritura_sin_runtime_error | intros [ok2 i2] s2 _ ].
  destruct ok2; [ exact I | ].
  apply bind_sin_runtime_error;
    [ apply esLectura_sin_runtime_error | intros [ok3 i3] s3 _ ].
  destruct ok3; [ exact I | ].
  apply bind_sin_runtime_error;
    [ apply esBloqueIf_sin_runtime_error; exact Hb | intros [ok4 i4] s4 _ ].
  destruct ok4; [ exact I | ].
  apply bind_sin_runtime_error;
    [ apply esBloqueWhile_sin_runtime_error; exact Hb | intros [ok5 i5] s5 _ ].
  destruct ok5; [ exact I | ].
  apply esOperacionAritmetica_sin_runtime_error.
Qed.

Lemma analizarBloque_rec_sin_runtime_error tokens fuel :
  forall i st, sin_runtime_error (fst (analizarBloque_rec fuel tokens i st)).
Proof.
  induction fuel as [| f IH]; intros i st; cbn [analizarBloque_rec]; [ exact I | ].
  caso_if; [ | exact I ].
  apply bind_sin_runtime_error;
    [ apply reconocer_sin_runtime_error; exact IH | intros [ok j] s1 _ ].
  destruct ok; [ apply IH | exact I ].
Qed.

Lemma analisisSintactico_rec_sin_runtime_error tokens fuel :
  forall i st, sin_runtime_error (fst (analisisSintactico_rec fuel tokens i st)).
Proof.
  induction fuel as [| f IH]; intros i st; cbn [analisisSintactico_rec]; [ exact I | ].
  caso_if; [ | exact I ].
  apply bind_sin_runtime_error; [ exact I | intros u s0 _ ].
  apply bind_sin_runtime_error.
  - apply reconocer_sin_runtime_error. intros k st0.
    apply analizarBloque_rec_sin_runtime_error.
  - intros [ok j] s1 _. destruct ok; [ apply IH | exact I ].
Qed.

(** Reading a text that starts with a double quote as a number. *)
Lemma stod_comilla r : stod (String comilla r) = Throw (invalid_argument "stod").
Proof. reflexivity. Qed.

Lemma getType_variable_buscar tabla name s :
  buscarVariable tabla name = Some s ->
  stringToDataType (Sim.tipo s) <> UNKNOWN ->
  getType_variable tabla name = Ret (stringToDataType (Sim.tipo s)).
Proof.
  unfold buscarVariable.
  induction tabla as [| x r IH]; cbn [find getType_variable]; [ discriminate | ].
  destruct (Sim.nombre x =? name); [ | exact IH ].
  intros H Hu. inversion H; subst x. unfold stringToDataType in *.
  repeat (caso_if; try reflexivity). contradiction.
Qed.

Lemma evaluate_variable_buscar tabla name :
  evaluate_variable tabla name
  = match buscarVariable tabla name with
    | Some s => stod (Sim.valor s)
    | None => Throw (runtime_error ("Variable no encontrada: " ++ name))
    end.
Proof.
  unfold buscarVariable.
  induction tabla as [| x r IH]; cbn [find evaluate_variable]; [ reflexivity | ].
  destruct (Sim.nombre x =? name); [ reflexivity | exact IH ].
Qed.

(** X13. Copying a string variable stops the program. When the
    destination and the single variable assigned to it are both declared
    of type [string], the statement ends with a semicolon and the value
    of the source starts with a double quote (as every string literal
    does), the expression is built and passes the type check, and the
    evaluation reads the value with [stod], which throws
    [invalid_argument]. This is not a [runtime_error], so the [catch] of
    the recognizer does not stop it: it leaves [esOperacionAritmetica]
    with the globals as they were. *)
Theorem copia_de_cadena :
  forall (tokens : list Token) i st (t0 t2 : Token) destino fuente r,
    nth_error tokens i = Some t0 ->
    Tok.tipo t0 = "IDENTIFICADOR" ->
    nth_error tokens (i + 2) = Some t2 ->
    Tok.tipo t2 = "IDENTIFICADOR" ->
    es_punto_y_coma tokens (i + 3) = true ->
    buscarVariable (tablaSimbolos st) (Tok.valor t0) = Some destino ->
    Sim.tipo destino = "string" ->
    buscarVariable (tablaSimbolos st) (Tok.valor t2) = Some fuente ->
    Sim.tipo fuente = "string" ->
    Sim.valor fuente = String comilla r ->
    esOperacionAritmetica tokens i st = (Throw (invalid_argument "stod"), st).
Proof.
  intros tokens i st t0 t2 destino fuente r H0 Ht0 H2 Ht2 Hpc Hd Htd Hf Htf Hv.
  destruct st as [tabla contador pila]. cbn [tablaSimbolos] in *.
  assert (Hlen : i + 3 < List.length tokens).
  { unfold es_punto_y_coma in Hpc. apply nth_error_Some.
    destruct (nth_error tokens (i + 3)); [ discriminate | discriminate ]. }
  assert (Hop : exists t3, nth_error tokens (i + 3) = Some t3
                           /\ (Tok.tipo t3 =? "ARITMETICO") = false).
  { unfold es_punto_y_coma in Hpc.
    destruct (nth_error tokens (i + 3)) as [t3 |]; [ | discriminate ].
    exists t3. split; [ reflexivity | ].
    apply andb_true_iff in Hpc. destruct Hpc as [Hpc _].
    apply String.eqb_eq in Hpc. rewrite Hpc. reflexivity. }
  destruct Hop as (t3 & H3 & Hno).
  assert (Hcond : condicion_aritmetica tokens i = Ret true).
  { unfold condicion_aritmetica, leer.
    apply Nat.ltb_lt in Hlen. rewrite Hlen, H0. cbn [rbind]. rewrite Ht0. reflexivity. }
  assert (Hty : getType_variable tabla (Tok.valor t2) = Ret STRING).
  { rewrite (getType_variable_buscar _ _ _ Hf); rewrite Htf; [ reflexivity | discriminate ]. }
  assert (Hast : construirAST tokens (i + 2) (mkEstado tabla contador pila)
                 = (Ret (VariableNode (Tok.valor t2), i + 3),
                    mkEstado tabla contador (STRING :: pila))).
  { unfold construirAST. rewrite construirAST_rec_S.
    unfold factor, bind, lift, leer, leer_tabla, push, ret.
    rewrite H2, Ht2. cbn [String.eqb Ascii.eqb Bool.eqb tablaSimbolos getType
                            idGlobalCounter pilaSemantica].
    rewrite Hty.
    destruct (List.length tokens) as [| f] eqn:El; [ lia | ].
    rewrite operadores_S.
    replace (i + 2 + 1) with (i + 3) by lia. rewrite H3, Hno. reflexivity. }
  unfold esOperacionAritmetica, bind, lift, leer, leer_tabla.
  rewrite Hcond, H0. cbn [tablaSimbolos]. rewrite Hd.
  unfold capturar, intento_aritmetico, bind. rewrite Hast.
  unfold top_pop. cbn [pilaSemantica tablaSimbolos idGlobalCounter].
  rewrite Htd. cbn [stringToDataType String.eqb Ascii.eqb Bool.eqb DataType_eqb negb].
  rewrite Hpc. unfold leer_tabla, lift. cbn [tablaSimbolos evaluate].
  rewrite evaluate_variable_buscar, Hf, Hv, stod_comilla. reflexivity.
Qed.

(** X13 at the assignment [s = t;] of two declared strings. *)
Lemma copia_de_cadena_testigo :
  esOperacionAritmetica (Lexico codigo_copia) 10
    (mkEstado (tabla_cadenas "s" "t" (entre_comillas "a") (entre_comillas "b")) 3 [])
  = (Throw (invalid_argument "stod"),
     mkEstado (tabla_cadenas "s" "t" (entre_comillas "a") (entre_comillas "b")) 3 []).
Proof.
  apply (copia_de_cadena (Lexico codigo_copia) 10
           (mkEstado (tabla_cadenas "s" "t" (entre_comillas "a") (entre_comillas "b")) 3 [])
           (Tok.mk "IDENTIFICADOR" "s") (Tok.mk "IDENTIFICADOR" "t")
           (Sim.mk "s" "string" (entre_comillas "a") "id1")
           (Sim.mk "t" "string" (entre_comillas "b") "id2")
           (String "b" (String comilla EmptyString)));
    vm_compute; reflexivity.
Defined.

(** X12. No [runtime_error] leaves the analysis: every one that the
    builder or the evaluation throws (an undeclared variable, a missing
    parenthesis, incompatible types, a string operation) is caught by the
    assignment recognizer, so neither that recognizer, nor the analysis
    of a block, nor the driver loop, nor the analysis of a source text
    ends with one. The builder itself does throw them, and the exceptions
    of [stod] are not caught: the program that copies a string ends with
    [invalid_argument]. *)
Theorem runtime_error_no_escapa :
  forall tokens fuel i st w,
    fst (esOperacionAritmetica tokens i st) <> Throw (runtime_error w)
    /\ fst (analizarBloque_rec fuel tokens i st) <> Throw (runtime_error w)
    /\ fst (analisisSintactico_rec fuel tokens i st) <> Throw (runtime_error w)
    /\ (forall codigo, fst (principal codigo) <> Throw (runtime_error w))
    /\ fst (construirAST (Lexico "y;") 0 estado_inicial)
       = Throw (runtime_error "Variable no encontrada: y")
    /\ principal codigo_copia
       = (Throw (invalid_argument "stod"),
          mkEstado (tabla_cadenas "s" "t" (entre_comillas "a") (entre_comillas "b")) 3 []).
Proof.
  intros tokens fuel i st w.
  assert (H : forall A (r : Res A), sin_runtime_error r -> r <> Throw (runtime_error w)).
  { intros A r Hr E. rewrite E in Hr. exact Hr. }
  split; [ apply H, esOperacionAritmetica_sin_runtime_error | ].
  split; [ apply H, analizarBloque_rec_sin_runtime_error | ].
  split; [ apply H, analisisSintactico_rec_sin_runtime_error | ].
  split; [ intro codigo; apply H, analisisSintactico_rec_sin_runtime_error | ].
  split; vm_compute; reflexivity.
Qed.

(** ** The last token *)

Lemma condicion_aritmetica_ultimo tokens i :
  List.length tokens <= i + 1 -> condicion_aritmetica tokens i = Undef.
Proof.
  intro H. unfold condicion_aritmetica, leer.
  assert (H3 : Nat.ltb (i + 3) (List.length tokens) = false) by (apply Nat.ltb_ge; lia).
  assert (H1 : nth_error tokens (i + 1) = None) by (apply nth_error_None; lia).
  rewrite H3, H1. cbn [rbind].
  destruct (nth_error tokens i) as [t |] eqn:Et; [ | reflexivity ].
  cbn [rbind]. caso_if; reflexivity.
Qed.

(** A declaration that lacks only its semicolon: the symbol is entered
    and the recognizer fails with the cursor after the value. *)
Lemma esDeclaracionVariable_sin_punto_y_coma :
  forall (tokens : list Token) i st (t0 t1 t2 t3 : Token) valor,
    nth_error tokens i = Some t0 ->
    nth_error tokens (i + 1) = Some t1 ->
    nth_error tokens (i + 2) = Some t2 ->
    nth_error tokens (i + 3) = Some t3 ->
    es_punto_y_coma tokens (i + 4) = false ->
    Tok.tipo t0 = "VARIABLE" ->
    Tok.tipo t1 = "IDENTIFICADOR" ->
    Tok.tipo t2 = "OPERADOR" ->
    Tok.valor t2 = "=" ->
    ~ In (Tok.valor t1) (map Sim.nombre (tablaSimbolos st)) ->
    valor_inicial (tablaSimbolos st) (Tok.valor t0) t3 = Some valor ->
    esValorCompatible valor (Tok.valor t0) = true ->
    idGlobalCounter st <> INT_MAX ->
    esDeclaracionVariable tokens i st
    = (Ret (false, i + 4),
       mkEstado (tablaSimbolos st ++
                   [Sim.mk (Tok.valor t1) (Tok.valor t0) valor
                           ("id" ++ to_string_int (idGlobalCounter st))])
                (idGlobalCounter st + 1) (pilaSemantica st)).
Proof.
  intros tokens i st t0 t1 t2 t3 valor H0 H1 H2 H3 Hpc Ht0 Ht1 Ht2 Hv2 Hno Hval Hc Hmax.
  unfold esDeclaracionVariable, es_tipo, bind, lift, leer, leer_tabla.
  assert (Hlen : Nat.ltb (i + 3) (List.length tokens) = true).
  { apply Nat.ltb_lt. apply nth_error_Some. congruence. }
  rewrite Hlen, H0, H1, H2, H3, Ht0, Ht1, Ht2, Hv2.
  cbn [String.eqb Ascii.eqb Bool.eqb andb].
  assert (Hex : existsb (fun simbolo => Sim.nombre simbolo =? Tok.valor t1)
                        (tablaSimbolos st) = false).
  { destruct (existsb _ _) eqn:E; [ exfalso | reflexivity ].
    apply existsb_exists in E. destruct E as (x & Hx & E).
    apply String.eqb_eq in E. apply Hno. apply in_map_iff. exists x. auto. }
  rewrite Hex, Hval, Hc. cbn [negb]. unfold agregar.
  apply Z.eqb_neq in Hmax. rewrite Hmax, Hpc. reflexivity.
Qed.

(** X14. Starting a statement on the last token, or after it, is
    undefined behaviour. With the cursor there none of the first five
    recognizers can match (each needs at least four tokens), and the
    condition that opens [esOperacionAritmetica] reads [tokens[i]] or
    [tokens[i + 1]] past the end. So the assignment recognizer and the
    sequence of recognizers are undefined at such a cursor; on the last
    token the driver loop is undefined, and so is the analysis of a block
    unless that token closes the block. A declaration that fails with
    the cursor moved there runs into this, since the recognizers after
    it are tried at the cursor it left: when the declaration recognizer,
    entered at any cursor [k], returns failure with the cursor on the
    last token or after it, the sequence of recognizers entered at [k]
    is undefined, and so is the driver loop entered at [k]. This is what
    happens at a declaration that lacks only its semicolon and has at
    most one token behind it: with a type key word, a name that is not
    in the table, [=] and a compatible value at [k], no semicolon at
    [k + 4] and the end of the tokens at [k + 4] or [k + 5], the driver
    loop entered at [k] enters the symbol in the table and is then
    undefined. The text [int x = 5] ends this way. *)
Theorem ultimo_token_indefinido :
  forall tokens i st bloque fuel,
    List.length tokens <= i + 1 ->
    esOperacionAritmetica tokens i st = (Undef, st)
    /\ reconocer bloque tokens i st = (Undef, st)
    /\ (i < List.length tokens ->
        analizarBloque_rec (S fuel) tokens i st
        = (if es_tipo tokens i "LLAVE_DERECHA" then (Ret (true, i), st) else (Undef, st))
        /\ analisisSintactico_rec (S fuel) tokens i st
           = (Undef, mkEstado (tablaSimbolos st) (idGlobalCounter st) []))
    /\ (forall k st0 st1,
          esDeclaracionVariable tokens k st0 = (Ret (false, i), st1) ->
          reconocer bloque tokens k st0 = (Undef, st1))
    /\ (forall k st0 st1,
          k < List.length tokens ->
          esDeclaracionVariable tokens k
            (mkEstado (tablaSimbolos st0) (idGlobalCounter st0) [])
          = (Ret (false, i), st1) ->
          analisisSintactico_rec (S fuel) tokens k st0 = (Undef, st1))
    /\ (forall k st0 (t0 t1 t2 t3 : Token) valor,
          i = k + 4 ->
          nth_error tokens k = Some t0 ->
          nth_error tokens (k + 1) = Some t1 ->
          nth_error tokens (k + 2) = Some t2 ->
          nth_error tokens (k + 3) = Some t3 ->
          es_punto_y_coma tokens (k + 4) = false ->
          Tok.tipo t0 = "VARIABLE" ->
          Tok.tipo t1 = "IDENTIFICADOR" ->
          Tok.tipo t2 = "OPERADOR" ->
          Tok.valor t2 = "=" ->
          ~ In (Tok.valor t1) (map Sim.nombre (tablaSimbolos st0)) ->
          valor_inicial (tablaSimbolos st0) (Tok.valor t0) t3 = Some valor ->
          esValorCompatible valor (Tok.valor t0) = true ->
          idGlobalCounter st0 <> INT_MAX ->
          analisisSintactico_rec (S fuel) tokens k st0
          = (Undef,
             mkEstado (tablaSimbolos st0 ++
                         [Sim.mk (Tok.valor t1) (Tok.valor t0) valor
                                 ("id" ++ to_string_int (idGlobalCounter st0))])
                      (idGlobalCounter st0 + 1) []))
    /\ principal "int x = 5" = (Undef, estado_x5).
Proof.
  intros tokens i st bloque fuel H.
  assert (H3 : Nat.ltb (i + 3) (List.length tokens) = false) by (apply Nat.ltb_ge; lia).
  assert (H6 : Nat.ltb (i + 6) (List.length tokens) = false) by (apply Nat.ltb_ge; lia).
  assert (Ha : forall s, esOperacionAritmetica tokens i s = (Undef, s)).
  { intro s. unfold esOperacionAritmetica, bind, lift.
    rewrite (condicion_aritmetica_ultimo _ _ H). reflexivity. }
  assert (Hr : forall b s, reconocer b tokens i s = (Undef, s)).
  { intros b s. unfold reconocer, bind.
    unfold esDeclaracionVariable. rewrite H3. cbn [andb]. unfold ret. cbv beta iota.
    unfold esEscritura. rewrite H3. cbn [andb]. unfold ret. cbv beta iota.
    unfold esLectura. rewrite H3. cbn [andb]. unfold ret. cbv beta iota.
    unfold esBloqueIf, cabecera. rewrite H6. cbn [andb]. unfold ret. cbv beta iota.
    unfold esBloqueWhile, cabecera. rewrite H6. cbn [andb]. unfold ret. cbv beta iota.
    apply Ha. }
  assert (Hd : forall b k st0 st1,
             esDeclaracionVariable tokens k st0 = (Ret (false, i), st1) ->
             reconocer b tokens k st0 = (Undef, st1)).
  { intros b k st0 st1 Hk. unfold reconocer, bind. rewrite Hk. cbv beta iota.
    unfold esEscritura. rewrite H3. cbn [andb]. unfold ret. cbv beta iota.
    unfold esLectura. rewrite H3. cbn [andb]. unfold ret. cbv beta iota.
    unfold esBloqueIf, cabecera. rewrite H6. cbn [andb]. unfold ret. cbv beta iota.
    unfold esBloqueWhile, cabecera. rewrite H6. cbn [andb]. unfold ret. cbv beta iota.
    apply Ha. }
  assert (Hs : forall k st0 st1,
             k < List.length tokens ->
             esDeclaracionVariable tokens k
               (mkEstado (tablaSimbolos st0) (idGlobalCounter st0) [])
             = (Ret (false, i), st1) ->
             analisisSintactico_rec (S fuel) tokens k st0 = (Undef, st1)).
  { intros k st0 st1 Hk Hdecl. apply Nat.ltb_lt in Hk.
    cbn [analisisSintactico_rec]. rewrite Hk.
    unfold bind, limpiarPilaSemantica. rewrite (Hd _ _ _ _ Hdecl). reflexivity. }
  split; [ apply Ha | ]. split; [ apply Hr | ].
  split; [ | split; [ | split; [ | split; [ | vm_compute; reflexivity ] ] ] ].
  - intro Hlt. apply Nat.ltb_lt in Hlt. split.
    + cbn [analizarBloque_rec]. rewrite Hlt. cbn [andb].
      destruct (es_tipo tokens i "LLAVE_DERECHA"); cbn [negb]; [ reflexivity | ].
      unfold bind. rewrite Hr. reflexivity.
    + cbn [analisisSintactico_rec]. rewrite Hlt.
      unfold bind, limpiarPilaSemantica. rewrite Hr. reflexivity.
  - apply Hd.
  - exact Hs.
  - intros k st0 t0 t1 t2 t3 valor Hi H0 H1 H2 H3' Hpc Ht0 Ht1 Ht2 Hv2 Hno Hval Hc Hmax.
    apply Hs; [ apply nth_error_Some; congruence | ].
    subst i.
    apply (esDeclaracionVariable_sin_punto_y_coma tokens k
             (mkEstado (tablaSimbolos st0) (idGlobalCounter st0) [])
             t0 t1 t2 t3 valor); assumption.
Qed.

(** X14 on [int x = 5; x], whose last token is a stray identifier, and
    on [int x = 5], where the declaration without its semicolon leaves
    the cursor after the last token: the driver loop, entered at the
    declaration, is undefined with [x] declared. *)
Lemma ultimo_token_indefinido_testigo :
  esOperacionAritmetica (Lexico "int x = 5; x") 5 estado_x5 = (Undef, estado_x5)
  /\ reconocer (analizarBloque (Lexico "int x = 5")) (Lexico "int x = 5") 4 estado_x5
     = (Undef, estado_x5)
  /\ analisisSintactico_rec 1 (Lexico "int x = 5") 0 estado_inicial = (Undef, estado_x5)
  /\ principal "int x = 5; x" = (Undef, estado_x5)
  /\ principal "int x = 5" = (Undef, estado_x5).
Proof.
  destruct (ultimo_token_indefinido (Lexico "int x = 5; x") 5 estado_x5
              (analizarBloque (Lexico "int x = 5; x")) 0 (le_n 6)) as (H1 & _).
  destruct (ultimo_token_indefinido (Lexico "int x = 5") 4 estado_x5
              (analizarBloque (Lexico "int x = 5")) 0 (le_S _ _ (le_n 4)))
    as (_ & H2 & _ & _ & _ & H3 & _).
  split; [ exact H1 | ]. split; [ exact H2 | ].
  split.
  { apply (H3 0 estado_inicial (Tok.mk "VARIABLE" "int") (Tok.mk "IDENTIFICADOR" "x")
              (Tok.mk "OPERADOR" "=") (Tok.mk "NUMERO" "5") "5");
      try (vm_compute; reflexivity).
    - intros [].
    - vm_compute. discriminate. }
  split; vm_compute; reflexivity.
Defined.

(** ** Entries under the semantic stack *)

Lemma marco_ret {A : Type} (a : A) : marco (ret a).
Proof. intros base st. reflexivity. Qed.

Lemma marco_lift {A : Type} (r : Res A) : marco (lift r).
Proof. intros base st. reflexivity. Qed.

Lemma marco_leer_tabla : marco leer_tabla.
Proof. intros base st. reflexivity. Qed.

Lemma marco_push t : marco (push t).
Proof. intros base st. reflexivity. Qed.

Lemma marco_poner_tabla tabla : marco (poner_tabla tabla).
Proof. intros base st. reflexivity. Qed.

Lemma marco_agregar nombre tipo valor : marco (agregar nombre tipo valor).
Proof.
  intros base st. unfold agregar, sobre. cbn [idGlobalCounter].
  destruct (idGlobalCounter st =? INT_MAX)%Z; reflexivity.
Qed.

Lemma marco_bind {A B : Type} (m : M A) (k : A -> M B) :
  marco m -> (forall a, marco (k a)) -> marco (bind m k).
Proof.
  intros Hm Hk base st. unfold bind. rewrite (Hm base st).
  destruct (m st) as [[a | e | | ] st1]; cbn [fst snd]; try reflexivity.
  apply Hk.
Qed.

Lemma marco_capturar pos m : marco m -> marco (capturar pos m).
Proof.
  intros Hm base st. unfold capturar. rewrite (Hm base st).
  destruct (m st) as [[a | [w | w | w] | | ] st1]; reflexivity.
Qed.

(** Taking the top of a stack that is not empty. *)
Lemma top_pop_sobre base st :
  pilaSemantica st <> [] ->
  top_pop (sobre base st) = (fst (top_pop st), sobre base (snd (top_pop st))).
Proof.
  intro H. unfold top_pop, sobre. cbn [pilaSemantica].
  destruct (pilaSemantica st) as [| t resto]; [ contradiction | reflexivity ].
Qed.

Ltac marco_paso :=
  first
    [ apply marco_ret
    | apply marco_lift
    | apply marco_leer_tabla
    | apply marco_push
    | apply marco_poner_tabla
    | apply marco_agregar
    | apply marco_bind; [ | intros ] ].

(** Combining the two topmost types of a stack that holds them. *)
Lemma verificar_tipos_sobre base st a b resto :
  pilaSemantica st = a :: b :: resto ->
  verificar_tipos (sobre base st)
    = (fst (verificar_tipos st), sobre base (snd (verificar_tipos st))).
Proof.
  intro H. unfold verificar_tipos, bind, top_pop, sobre, push, throw, lift.
  cbn [pilaSemantica tablaSimbolos idGlobalCounter]. rewrite H. cbn [app].
  destruct a, b; reflexivity.
Qed.

Lemma marco_factor rec tokens i otro :
  (forall k, marco (rec k)) -> marco (factor rec tokens i otro).
Proof.
  intro Hrec. unfold factor, throw.
  marco_paso; [ marco_paso | ].
  caso_if.
  { marco_paso; [ apply Hrec | ]. destruct a0 as [n j].
    caso_if; marco_paso. }
  caso_if.
  { repeat (marco_paso; try solve [marco_paso]). }
  caso_if.
  { repeat (marco_paso; try solve [marco_paso]). }
  marco_paso.
Qed.

(** The builder uses the entries it pushed and no other; its loop is
    entered with the type of the tree built so far on the stack. *)
Lemma marco_construirAST_rec tokens fuel :
  (forall i, marco (construirAST_rec fuel tokens i)) /\
  (forall lhs i base st,
      pilaSemantica st <> [] ->
      operadores fuel tokens lhs i (sobre base st)
        = (fst (operadores fuel tokens lhs i st),
           sobre base (snd (operadores fuel tokens lhs i st)))).
Proof.
  induction fuel as [| f [IH1 IH2]]; split; intros;
    cbn [construirAST_rec operadores]; try reflexivity.
  - intros base st. reflexivity.
  - intros base st. unfold bind.
    rewrite (marco_factor _ tokens i _ IH1 base st).
    destruct (factor _ tokens i _ st) as [[[lhs i1] | e | | ] st1] eqn:Ef;
      cbn [fst snd]; try reflexivity.
    apply (factor_pila _ _ _ _ _ _ _ _
             (proj1 (construirAST_rec_pila tokens f))) in Ef.
    destruct Ef as (T & Hp & _).
    apply IH2. rewrite Hp. discriminate.
  - destruct (nth_error tokens i) as [t |]; [ | reflexivity ].
    destruct (Tok.tipo t =? "ARITMETICO"); [ | reflexivity ].
    unfold bind.
    rewrite (marco_factor _ tokens (i + 1) _ IH1 base st).
    destruct (factor _ tokens (i + 1) _ st) as [[[rhs i2] | e | | ] st1] eqn:Ef;
      cbn [fst snd]; try reflexivity.
    apply (factor_pila _ _ _ _ _ _ _ _
             (proj1 (construirAST_rec_pila tokens f))) in Ef.
    destruct Ef as (T & Hp & _).
    destruct (pilaSemantica st) as [| b resto] eqn:Hst; [ contradiction | ].
    rewrite (verificar_tipos_sobre base st1 _ _ _ Hp).
    destruct (verificar_tipos st1) as [[u | e | | ] st2] eqn:Ev;
      cbn [fst snd]; try reflexivity.
    apply verificar_tipos_inv in Ev.
    destruct Ev as (Tr & Tl & r & T' & _ & -> & _).
    apply IH2. cbn [pilaSemantica]. discriminate.
Qed.

Lemma marco_construirAST tokens i : marco (construirAST tokens i).
Proof. apply marco_construirAST_rec. Qed.

Lemma marco_bind_si {A B : Type} (m : M A) (k : A -> M B) (P : A -> Estado -> Prop) :
  marco m ->
  (forall st a st', m st = (Ret a, st') -> P a st') ->
  (forall a base st,
      P a st -> k a (sobre base st) = (fst (k a st), sobre base (snd (k a st)))) ->
  marco (bind m k).
Proof.
  intros Hm HP Hk base st. unfold bind. rewrite (Hm base st).
  destruct (m st) as [[a | e | | ] st1] eqn:E; cbn [fst snd]; try reflexivity.
  apply Hk. eapply HP. exact E.
Qed.

Lemma bind_top_pop_sobre {B : Type} (k : DataType -> M B) base st :
  pilaSemantica st <> [] ->
  (forall t, marco (k t)) ->
  bind top_pop k (sobre base st)
    = (fst (bind top_pop k st), sobre base (snd (bind top_pop k st))).
Proof.
  intros Hp Hk. unfold bind. rewrite (top_pop_sobre base st Hp).
  destruct (top_pop st) as [[t | e | | ] st1]; cbn [fst snd]; try reflexivity.
  apply Hk.
Qed.

Lemma marco_intento_aritmetico tokens pos i nombre destino :
  marco (intento_aritmetico tokens pos i nombre destino).
Proof.
  unfold intento_aritmetico.
  apply (marco_bind_si _ _ (fun _ st => pilaSemantica st <> [])).
  - apply marco_construirAST.
  - intros st [root k] st' H.
    apply (proj1 (construirAST_rec_pila tokens _)) in H. destruct H as (T & Hp & _).
    rewrite Hp. discriminate.
  - intros [root k] base st Hp. apply bind_top_pop_sobre; [ exact Hp | ].
    intro ty. caso_if; [ marco_paso | ]. caso_if; [ | marco_paso ].
    repeat (marco_paso; try solve [marco_paso]).
Qed.

Lemma marco_esOperacionAritmetica tokens i : marco (esOperacionAritmetica tokens i).
Proof.
  unfold esOperacionAritmetica.
  marco_paso; [ marco_paso | ]. destruct a; [ | marco_paso ].
  marco_paso; [ marco_paso | ]. marco_paso; [ marco_paso | ].
  destruct (buscarVariable a0 (Tok.valor a)) as [destino |]; [ | marco_paso ].
  apply marco_capturar. apply marco_intento_aritmetico.
Qed.

Lemma marco_esDeclaracionVariable tokens i : marco (esDeclaracionVariable tokens i).
Proof.
  unfold esDeclaracionVariable. caso_if; [ | marco_paso ].
  marco_paso; [ marco_paso | ]. marco_paso; [ marco_paso | ].
  marco_paso; [ marco_paso | ]. marco_paso; [ marco_paso | ].
  caso_if; [ marco_paso | ].
  destruct (valor_inicial _ _ _) as [valor |]; [ | marco_paso ].
  caso_if; [ marco_paso | ].
  marco_paso; [ marco_paso | ]. caso_if; marco_paso.
Qed.

Lemma marco_esEscritura tokens i : marco (esEscritura tokens i).
Proof.
  unfold esEscritura. caso_if; [ | marco_paso ].
  repeat (marco_paso; try solve [marco_paso]).
  caso_if; marco_paso.
Qed.

Lemma marco_esLectura tokens i : marco (esLectura tokens i).
Proof.
  unfold esLectura. caso_if; [ | marco_paso ].
  repeat (marco_paso; try solve [marco_paso]).
  destruct (buscarVariable _ _); marco_paso.
Qed.

Lemma marco_esBloqueWhile bloque tokens i :
  (forall k, marco (bloque k)) -> marco (esBloqueWhile bloque tokens i).
Proof.
  intro Hb. unfold esBloqueWhile.
  caso_if; [ | marco_paso ]. caso_if; [ | marco_paso ].
  marco_paso; [ apply Hb | ]. destruct a as [ok j].
  repeat (caso_if; try marco_paso).
Qed.

Lemma marco_esBloqueIf bloque tokens i :
  (forall k, marco (bloque k)) -> marco (esBloqueIf bloque tokens i).
Proof.
  intro Hb. unfold esBloqueIf.
  caso_if; [ | marco_paso ].
  marco_paso; [ marco_paso | ]. marco_paso; [ marco_paso | ].
  marco_paso; [ marco_paso | ].
  caso_if; [ marco_paso | ]. caso_if; [ marco_paso | ].
  caso_if; [ | marco_paso ].
  marco_paso; [ apply Hb | ]. destruct a2 as [ok j].
  caso_if; [ marco_paso | ]. caso_if; [ | marco_paso ].
  caso_if; [ | marco_paso ]. caso_if; [ | marco_paso ].
  marco_paso; [ apply Hb | ]. destruct a2 as [ok2 k].
  repeat (caso_if; try marco_paso).
Qed.

Lemma marco_reconocer bloque tokens i :
  (forall k, marco (bloque k)) -> marco (reconocer bloque tokens i).
Proof.
  intro Hb. unfold reconocer.
  marco_paso; [ apply marco_esDeclaracionVariable | ].
  destruct a as [ok1 i1]. destruct ok1; [ marco_paso | ].
  marco_paso; [ apply marco_esEscritura | ].
  destruct a as [ok2 i2]. destruct ok2; [ marco_paso | ].
  marco_paso; [ apply marco_esLectura | ].
  destruct a as [ok3 i3]. destruct ok3; [ marco_paso | ].
  marco_paso; [ apply marco_esBloqueIf; exact Hb | ].
  destruct a as [ok4 i4]. destruct ok4; [ marco_paso | ].
  marco_paso; [ apply marco_esBloqueWhile; exact Hb | ].
  destruct a as [ok5 i5]. destruct ok5; [ marco_paso | ].
  apply marco_esOperacionAritmetica.
Qed.

Lemma marco_analizarBloque_rec tokens fuel :
  forall i, marco (analizarBloque_rec fuel tokens i).
Proof.
  induction fuel as [| f IH]; intro i; cbn [analizarBloque_rec].
  - unfold sin_fuel. marco_paso.
  - caso_if; [ | marco_paso ].
    marco_paso; [ apply marco_reconocer; exact IH | ].
    destruct a as [ok j]. destruct ok; [ apply IH | marco_paso ].
Qed.

(** X15. The semantic stack is used as a stack. The builder, the
    assignment recognizer and the analysis of a block never read or
    remove an entry that was on the stack when they were entered: run on
    a stack with more entries underneath, they end in the same way, with
    the same result, cursor, symbol table and id counter, and with those
    entries still underneath. *)
Theorem pila_semantica_marco :
  forall tokens i base st,
    construirAST tokens i (sobre base st)
      = (fst (construirAST tokens i st), sobre base (snd (construirAST tokens i st)))
    /\ esOperacionAritmetica tokens i (sobre base st)
        = (fst (esOperacionAritmetica tokens i st),
           sobre base (snd (esOperacionAritmetica tokens i st)))
    /\ analizarBloque tokens i (sobre base st)
        = (fst (analizarBloque tokens i st),
           sobre base (snd (analizarBloque tokens i st))).
Proof.
  intros tokens i base st.
  split; [ apply marco_construirAST_rec | ].
  split; [ apply marco_esOperacionAritmetica | apply marco_analizarBloque_rec ].
Qed.

(** ** The texts of the tokens *)

Lemma palabras_en ws s m : palabras ws s = Some m -> en ws m = true.
Proof.
  induction ws as [| w otras IH]; cbn [palabras]; [ discriminate | ].
  unfold en in *. cbn [existsb].
  destruct (tras_prefijo w s) as [resto |].
  - destruct (fin_de_palabra resto).
    + intro H. inversion H. rewrite String.eqb_refl. reflexivity.
    + intro H. rewrite (IH H). apply orb_true_r.
  - intro H. rewrite (IH H). apply orb_true_r.
Qed.

Lemma literales_en ws s m : literales ws s = Some m -> en ws m = true.
Proof.
  induction ws as [| w otras IH]; cbn [literales]; [ discriminate | ].
  unfold en in *. cbn [existsb].
  destruct (tras_prefijo w s) as [resto |].
  - intro H. inversion H. rewrite String.eqb_refl. reflexivity.
  - intro H. rewrite (IH H). apply orb_true_r.
Qed.

Lemma caracter_inv p s m :
  caracter p s = Some m -> exists c, m = String c EmptyString /\ p c = true.
Proof.
  unfold caracter. destruct s as [| c r]; [ discriminate | ].
  destruct (p c) eqn:E; [ | discriminate ].
  intro H. inversion H. exists c. auto.
Qed.

Lemma tomar_mientras_resto p a c r :
  todos p a = true -> p c = false ->
  snd (tomar_mientras p (a ++ String c r)%string) = String c r.
Proof. intros Ha Hc. rewrite (tomar_mientras_hasta p a c r Ha Hc). reflexivity. Qed.

Lemma cadena_es_cadena s m : cadena s = Some m -> es_cadena m = true.
Proof.
  unfold cadena. destruct s as [| c r]; [ discriminate | ].
  destruct (Ascii.eqb c comilla); [ | discriminate ].
  pose proof (tomar_mientras_todos (fun d => negb (Ascii.eqb d comilla)) r) as Hc.
  destruct (tomar_mientras (fun d => negb (Ascii.eqb d comilla)) r) as [cuerpo resto].
  cbn [fst] in Hc.
  destruct resto; [ discriminate | ].
  intro H. inversion H. unfold es_cadena.
  rewrite (tomar_mientras_resto _ cuerpo comilla EmptyString Hc eq_refl).
  reflexivity.
Qed.

Lemma tras_prefijo_app w resto : tras_prefijo w (w ++ resto)%string = Some resto.
Proof.
  induction w as [| a w IH]; cbn [append tras_prefijo]; [ reflexivity | ].
  rewrite Ascii.eqb_refl. exact IH.
Qed.

(** A word of the list that is in the text as a whole word is found by
    [palabras], or a word before it in the list is. *)
Lemma palabras_acepta ws w resto :
  In w ws -> fin_de_palabra resto = true -> palabras ws (w ++ resto)%string <> None.
Proof.
  intros Hin Hfin.
  induction ws as [| w' otras IH]; [ destruct Hin | ].
  cbn [palabras].
  destruct (tras_prefijo w' (w ++ resto)) as [r' |] eqn:E.
  - destruct (fin_de_palabra r') eqn:F; [ discriminate | ].
    destruct Hin as [-> | Hin]; [ | exact (IH Hin) ].
    rewrite tras_prefijo_app in E. inversion E. congruence.
  - destruct Hin as [-> | Hin]; [ | exact (IH Hin) ].
    rewrite tras_prefijo_app in E. discriminate.
Qed.

Lemma fin_de_palabra_resto s :
  fin_de_palabra (snd (tomar_mientras es_palabra s)) = true.
Proof.
  induction s as [| c r IH]; cbn [tomar_mientras]; [ reflexivity | ].
  destruct (es_palabra c) eqn:E.
  - destruct (tomar_mientras es_palabra r) as [a b]. exact IH.
  - cbn [snd fin_de_palabra]. rewrite E. reflexivity.
Qed.

(** The identifier pattern takes a whole word. *)
Lemma identificadores_inv s m :
  identificadores s = Some m ->
  es_identificador m = true
  /\ exists resto, s = (m ++ resto)%string /\ fin_de_palabra resto = true.
Proof.
  unfold identificadores. destruct s as [| c r]; [ discriminate | ].
  destruct (es_inicio_ident c) eqn:E; [ | discriminate ].
  intro H. inversion H. split.
  - cbn [es_identificador]. rewrite E, tomar_mientras_todos. reflexivity.
  - exists (snd (tomar_mientras es_palabra r)). split.
    + cbn [append]. f_equal. apply tomar_mientras_app.
    + apply fin_de_palabra_resto.
Qed.

Lemma en_In ws v : en ws v = true <-> In v ws.
Proof.
  unfold en. rewrite existsb_exists. split.
  - intros (x & Hx & E). apply String.eqb_eq in E. subst. exact Hx.
  - intro H. exists v. split; [ exact H | apply String.eqb_refl ].
Qed.

Ltac forma_con H :=
  unfold forma, categorias;
  cbn [existsb fst snd Tok.tipo Tok.valor String.eqb Ascii.eqb Bool.eqb andb orb];
  rewrite H; reflexivity.

Lemma caracter_en p s m c :
  (forall d, p d = true -> d = c) ->
  caracter p s = Some m -> en [String c EmptyString] m = true.
Proof.
  intros Hp H. apply caracter_inv in H. destruct H as (d & -> & Hd).
  apply Hp in Hd. subst d. unfold en. cbn [existsb]. rewrite String.eqb_refl. reflexivity.
Qed.

Lemma caracter_aritmetico s m :
  caracter (uno_de ["+"; "-"; "/"; "*"]%char) s = Some m ->
  en ["+"; "-"; "/"; "*"] m = true.
Proof.
  intro H. apply caracter_inv in H. destruct H as (d & -> & Hd).
  unfold uno_de in Hd. cbn [existsb] in Hd.
  repeat (apply orb_true_iff in Hd; destruct Hd as [Hd | Hd];
          [ apply Ascii.eqb_eq in Hd; subst d; reflexivity | ]).
  discriminate.
Qed.

Lemma eqb_caracter c d : Ascii.eqb c d = true -> d = c.
Proof. intro H. apply Ascii.eqb_eq in H. congruence. Qed.

(** The text of the token of the first pattern that matches fits the
    category of that pattern; an identifier is not a key word, because
    the patterns of the key words are tried first. *)
Lemma primer_patron_forma s t : primer_patron patrones s = Some t -> forma t = true.
Proof.
  unfold patrones. cbn [primer_patron]. intro H.
  destruct (palabras ["int"; "float"; "string"] s) as [m |] eqn:P1.
  { inversion H. apply palabras_en in P1. forma_con P1. }
  destruct (palabras ["while"] s) as [m |] eqn:P2.
  { inversion H. apply palabras_en in P2. forma_con P2. }
  destruct (palabras ["write"] s) as [m |] eqn:P3.
  { inversion H. apply palabras_en in P3. forma_con P3. }
  destruct (palabras ["read"] s) as [m |] eqn:P4.
  { inversion H. apply palabras_en in P4. forma_con P4. }
  destruct (literales [">="; "<="; "=="; "!="; ">"; "<"] s) as [m |] eqn:P5.
  { inversion H. apply literales_en in P5. forma_con P5. }
  destruct (caracter (uno_de ["+"; "-"; "/"; "*"]%char) s) as [m |] eqn:P6.
  { inversion H. apply caracter_aritmetico in P6. forma_con P6. }
  destruct (literales ["="; ";"] s) as [m |] eqn:P7.
  { inversion H. apply literales_en in P7. forma_con P7. }
  destruct (cadena s) as [m |] eqn:P8.
  { inversion H. apply cadena_es_cadena in P8. forma_con P8. }
  destruct (caracter (Ascii.eqb ")") s) as [m |] eqn:P9.
  { inversion H. apply (caracter_en _ _ _ _ (eqb_caracter ")")) in P9. forma_con P9. }
  destruct (caracter (Ascii.eqb "(") s) as [m |] eqn:P10.
  { inversion H. apply (caracter_en _ _ _ _ (eqb_caracter "(")) in P10. forma_con P10. }
  destruct (caracter (Ascii.eqb "]") s) as [m |] eqn:P11.
  { inversion H. apply (caracter_en _ _ _ _ (eqb_caracter "]")) in P11. forma_con P11. }
  destruct (caracter (Ascii.eqb "[") s) as [m |] eqn:P12.
  { inversion H. apply (caracter_en _ _ _ _ (eqb_caracter "[")) in P12. forma_con P12. }
  destruct (caracter (Ascii.eqb "}") s) as [m |] eqn:P13.
  { inversion H. apply (caracter_en _ _ _ _ (eqb_caracter "}")) in P13. forma_con P13. }
  destruct (caracter (Ascii.eqb "{") s) as [m |] eqn:P14.
  { inversion H. apply (caracter_en _ _ _ _ (eqb_caracter "{")) in P14. forma_con P14. }
  destruct (numeros s) as [m |] eqn:P15.
  { inversion H. apply numeros_sin_signo in P15. forma_con P15. }
  destruct (palabras ["if"; "else"] s) as [m |] eqn:P16.
  { inversion H. apply palabras_en in P16. forma_con P16. }
  destruct (identificadores s) as [m |] eqn:P17; [ | discriminate ].
  inversion H. apply identificadores_inv in P17.
  destruct P17 as (Hid & resto & -> & Hfin).
  assert (Hres : en reservadas m = false).
  { destruct (en reservadas m) eqn:E; [ exfalso | reflexivity ].
    apply en_In in E. unfold reservadas in E. cbn [In] in E.
    destruct E as [E | [E | [E | [E | [E | [E | [E | [E | []]]]]]]]]; subst m.
    - apply (palabras_acepta ["int"; "float"; "string"] "int" resto); cbn; auto.
    - apply (palabras_acepta ["int"; "float"; "string"] "float" resto); cbn; auto.
    - apply (palabras_acepta ["int"; "float"; "string"] "string" resto); cbn; auto.
    - apply (palabras_acepta ["while"] "while" resto); cbn; auto.
    - apply (palabras_acepta ["write"] "write" resto); cbn; auto.
    - apply (palabras_acepta ["read"] "read" resto); cbn; auto.
    - apply (palabras_acepta ["if"; "else"] "if" resto); cbn; auto.
    - apply (palabras_acepta ["if"; "else"] "else" resto); cbn; auto. }
  unfold forma, categorias.
  cbn [existsb fst snd Tok.tipo Tok.valor String.eqb Ascii.eqb Bool.eqb andb orb].
  rewrite Hid, Hres. reflexivity.
Qed.

(** X16. The text of every token fits its category, for every source
    text: a VARIABLE is [int], [float] or [string]; CICLO is [while];
    ESCRITURA is [write]; LECTURA is [read]; CONDICION is [if] or
    [else]; a COMPARACION, an ARITMETICO, an OPERADOR and the six
    brackets are one of their fixed texts; a CADENA is a text between
    double quotes with no double quote inside; a NUMERO is digits with an
    optional fraction; an IDENTIFICADOR is a letter or underscore
    followed by letters, digits and underscores, and is never a key
    word. No token has another category. *)
Theorem Lexico_forma :
  forall input t, In t (Lexico input) -> forma t = true.
Proof.
  intros input t H. apply Lexico_desde_patron in H. destruct H as (s & Hs).
  eapply primer_patron_forma. exact Hs.
Qed.

(** X16 at the identifier of [int entero = 5;], which starts like a key
    word. *)
Lemma Lexico_forma_testigo :
  forma (Tok.mk "IDENTIFICADOR" "entero") = true.
Proof.
  apply (Lexico_forma "int entero = 5;" (Tok.mk "IDENTIFICADOR" "entero")).
  vm_compute. right. left. reflexivity.
Defined.

(** ** Reading the texts of the tokens again *)

Lemma append_String a c s : ((a ++ String c EmptyString) ++ s = a ++ String c s)%string.
Proof. induction a as [| d a IH]; cbn [append]; [ reflexivity | rewrite IH; reflexivity ]. Qed.

Lemma append_asociativa a b s : ((a ++ b) ++ s = a ++ (b ++ s))%string.
Proof. induction a as [| d a IH]; cbn [append]; [ reflexivity | rewrite IH; reflexivity ]. Qed.

(** After a token the tokenizer goes on behind its text. *)
Lemma Lexico_desde_omitir a s :
  Lexico_desde (a ++ s) (String.length a) = Lexico_desde s 0.
Proof.
  induction a as [| c a IH]; cbn [append String.length]; [ reflexivity | ].
  cbn [Lexico_desde]. exact IH.
Qed.

Lemma primer_patron_blanco r : primer_patron patrones (String " " r) = None.
Proof. reflexivity. Qed.

Lemma es_cadena_inv v :
  es_cadena v = true ->
  exists cuerpo,
    todos (fun d => negb (Ascii.eqb d comilla)) cuerpo = true
    /\ v = String comilla (cuerpo ++ String comilla EmptyString).
Proof.
  unfold es_cadena. destruct v as [| c r]; [ discriminate | ].
  intro H. apply andb_true_iff in H. destruct H as [Hc Hr].
  apply Ascii.eqb_eq in Hc. subst c. apply String.eqb_eq in Hr.
  exists (fst (tomar_mientras (fun d => negb (Ascii.eqb d comilla)) r)).
  split; [ apply tomar_mientras_todos | ].
  f_equal. rewrite <- Hr. apply tomar_mientras_app.
Qed.

Lemma numero_sin_signo_inv v :
  numero_sin_signo v = true ->
  exists ent,
    solo_digitos ent = true
    /\ (v = ent
        \/ exists frac, solo_digitos frac = true /\ v = (ent ++ String "." frac)%string).
Proof.
  unfold numero_sin_signo. intro H.
  pose proof (tomar_mientras_app es_digito v) as Hv.
  pose proof (tomar_mientras_todos es_digito v) as Hd.
  destruct (tomar_mientras es_digito v) as [ent resto]. cbn [fst snd] in *.
  apply andb_true_iff in H. destruct H as [Hn H].
  exists ent. split; [ unfold solo_digitos; rewrite Hn, Hd; reflexivity | ].
  destruct resto as [| c frac].
  - left. rewrite Hv. clear. induction ent; cbn [append]; congruence.
  - apply andb_true_iff in H. destruct H as [Hc Hf].
    apply Ascii.eqb_eq in Hc. subst c. right. exists frac. auto.
Qed.

Lemma tras_prefijo_palabra w :
  forall v r resto,
    tras_prefijo w (v ++ String " " r) = Some resto ->
    todos es_palabra w = true -> todos es_palabra v = true ->
    w = v \/ fin_de_palabra resto = false.
Proof.
  induction w as [| a w IH]; intros v r resto H Hw Hv.
  - cbn [tras_prefijo] in H. inversion H.
    destruct v as [| c v]; [ left; reflexivity | right ].
    cbn [append fin_de_palabra todos] in *.
    apply andb_true_iff in Hv. destruct Hv as [Hc _]. rewrite Hc. reflexivity.
  - cbn [todos] in Hw. apply andb_true_iff in Hw. destruct Hw as [Ha Hw].
    destruct v as [| c v]; cbn [append tras_prefijo] in H.
    + destruct (Ascii.eqb a " ") eqn:E; [ | discriminate ].
      apply Ascii.eqb_eq in E. subst a. discriminate.
    + destruct (Ascii.eqb a c) eqn:E; [ | discriminate ].
      apply Ascii.eqb_eq in E. subst c.
      cbn [todos] in Hv. apply andb_true_iff in Hv. destruct Hv as [_ Hv].
      destruct (IH _ _ _ H Hw Hv) as [-> | Hf]; [ left; reflexivity | right; exact Hf ].
Qed.

(** A word that is none of the key words of a pattern is not matched by
    the pattern. *)
Lemma palabras_rechaza ws v r :
  todos es_palabra v = true ->
  forallb (todos es_palabra) ws = true ->
  ~ In v ws ->
  palabras ws (v ++ String " " r)%string = None.
Proof.
  intros Hv Hws Hin.
  induction ws as [| w otras IH]; cbn [palabras]; [ reflexivity | ].
  cbn [forallb] in Hws. apply andb_true_iff in Hws. destruct Hws as [Hw Hws].
  assert (Hotras : palabras otras (v ++ String " " r)%string = None).
  { apply IH; [ exact Hws | ]. intro H. apply Hin. right. exact H. }
  destruct (tras_prefijo w (v ++ String " " r)%string) as [resto |] eqn:E; [ | exact Hotras ].
  destruct (tras_prefijo_palabra _ _ _ _ E Hw Hv) as [-> | Hf].
  - exfalso. apply Hin. left. reflexivity.
  - rewrite Hf. exact Hotras.
Qed.

(** Which patterns can match a text, by its first character. *)
Lemma primer_patron_comilla Y :
  primer_patron patrones (String comilla Y)
  = match cadena (String comilla Y) with
    | Some m => Some (Tok.mk "CADENA" m)
    | None => None
    end.
Proof. unfold patrones. cbn [primer_patron]. reflexivity. Qed.

Lemma primer_patron_digito c Y :
  es_digito c = true ->
  primer_patron patrones (String c Y)
  = match numeros (String c Y) with
    | Some m => Some (Tok.mk "NUMERO" m)
    | None => None
    end.
Proof.
  intro H. unfold patrones. cbn [primer_patron].
  destruct c as [[] [] [] [] [] [] [] []]; try discriminate H;
    (destruct (numeros _); reflexivity).
Qed.

Lemma primer_patron_letra c Y :
  es_inicio_ident c = true ->
  palabras ["int"; "float"; "string"] (String c Y) = None ->
  palabras ["while"] (String c Y) = None ->
  palabras ["write"] (String c Y) = None ->
  palabras ["read"] (String c Y) = None ->
  palabras ["if"; "else"] (String c Y) = None ->
  primer_patron patrones (String c Y)
  = match identificadores (String c Y) with
    | Some m => Some (Tok.mk "IDENTIFICADOR" m)
    | None => None
    end.
Proof.
  intros H P1 P2 P3 P4 P5. unfold patrones. cbn [primer_patron].
  rewrite P1, P2, P3, P4, P5.
  destruct c as [[] [] [] [] [] [] [] []]; try discriminate H; reflexivity.
Qed.

Ltac caso_finito H :=
  apply en_In in H; cbn [In] in H;
  repeat (destruct H as [H | H]; [ subst; reflexivity | ]);
  destruct H.

(** A text that fits a category, followed by a blank, is read as one
    token of that category. *)
Lemma forma_primer_patron t r :
  forma t = true ->
  primer_patron patrones (Tok.valor t ++ String " " r)%string = Some t.
Proof.
  destruct t as [tipo v]. unfold forma, categorias.
  cbn [existsb fst snd Tok.tipo Tok.valor]. intro H.
  repeat (apply orb_true_iff in H; destruct H as [H | H]);
    try discriminate H;
    apply andb_true_iff in H; destruct H as [Ht H];
    apply String.eqb_eq in Ht; subst tipo;
    try solve [ caso_finito H ].
  - (* CADENA *)
    apply es_cadena_inv in H. destruct H as (cuerpo & Hc & ->).
    cbn [append]. rewrite append_String, primer_patron_comilla.
    unfold cadena. rewrite Ascii.eqb_refl.
    rewrite (tomar_mientras_hasta _ cuerpo comilla (String " " r) Hc eq_refl).
    reflexivity.
  - (* NUMERO *)
    apply numero_sin_signo_inv in H. destruct H as (ent & He & Hv).
    unfold solo_digitos in He. apply andb_true_iff in He. destruct He as [Hne Hde].
    destruct ent as [| c e]; [ discriminate | ].
    assert (Hc : es_digito c = true).
    { cbn [todos] in Hde. apply andb_true_iff in Hde. apply Hde. }
    destruct Hv as [-> | (frac & Hf & ->)].
    + cbn [append]. rewrite (primer_patron_digito _ _ Hc).
      change (String c (e ++ String " " r))%string
        with (String c e ++ String " " r)%string.
      unfold numeros.
      rewrite (tomar_mientras_hasta es_digito (String c e) " " r Hde eq_refl).
      reflexivity.
    + unfold solo_digitos in Hf. apply andb_true_iff in Hf. destruct Hf as [Hnf Hdf].
      rewrite append_asociativa. cbn [append]. rewrite (primer_patron_digito _ _ Hc).
      change (String c (e ++ String "." (frac ++ String " " r)))%string
        with (String c e ++ String "." (frac ++ String " " r))%string.
      unfold numeros.
      rewrite (tomar_mientras_hasta es_digito (String c e) "."
                 (frac ++ String " " r) Hde eq_refl).
      cbn [no_vacia].
      rewrite (tomar_mientras_hasta es_digito frac " " r Hdf eq_refl), Hnf.
      reflexivity.
  - (* IDENTIFICADOR *)
    apply andb_true_iff in H. destruct H as [Hid Hres].
    apply negb_true_iff in Hres.
    destruct v as [| c w]; [ discriminate | ].
    cbn [es_identificador] in Hid. apply andb_true_iff in Hid.
    destruct Hid as [Hc Hw].
    assert (Hv : todos es_palabra (String c w) = true).
    { cbn [todos]. rewrite Hw. unfold es_palabra. rewrite Hc. reflexivity. }
    assert (Hno : forall ws, (forall x, In x ws -> In x reservadas) ->
                             ~ In (String c w) ws).
    { intros ws Hsub Hin. apply Hsub in Hin. apply en_In in Hin. congruence. }
    assert (Hp : forall ws,
               forallb (todos es_palabra) ws = true ->
               (forall x, In x ws -> In x reservadas) ->
               palabras ws (String c (w ++ String " " r)) = None).
    { intros ws Hws Hsub.
      apply (palabras_rechaza ws (String c w) r Hv Hws (Hno ws Hsub)). }
    cbn [append].
    rewrite primer_patron_letra; try exact Hc;
      try (apply Hp; [ reflexivity | unfold reservadas; cbn [In]; intros x Hx; tauto ]).
    unfold identificadores. rewrite Hc.
    rewrite (tomar_mientras_hasta es_palabra w " " r Hw eq_refl). reflexivity.
Qed.

Lemma forma_no_vacia t : forma t = true -> no_vacia (Tok.valor t) = true.
Proof.
  intro H. pose proof (forma_primer_patron t EmptyString H) as Hp.
  destruct (Tok.valor t); [ discriminate | reflexivity ].
Qed.

Lemma Lexico_unir_forma ts :
  forallb forma ts = true -> Lexico (unir ts) = ts.
Proof.
  unfold Lexico.
  induction ts as [| t ts IH]; cbn [forallb unir]; intro H; [ reflexivity | ].
  apply andb_true_iff in H. destruct H as [Ht Hts].
  pose proof (forma_primer_patron t (unir ts) Ht) as Hp.
  pose proof (forma_no_vacia t Ht) as Hn.
  destruct (Tok.valor t) as [| c v] eqn:Ev; [ discriminate | ].
  cbn [append] in *. cbn [Lexico_desde]. rewrite Hp, Ev.
  cbn [String.length Nat.sub]. rewrite Nat.sub_0_r.
  rewrite Lexico_desde_omitir. cbn [Lexico_desde].
  rewrite primer_patron_blanco, (IH Hts). reflexivity.
Qed.

(** X17. Tokens can be written out and read again. The tokenizer, run on
    the texts of any tokens that fit their categories written one after
    the other with a blank after each, returns exactly these tokens; in
    particular, writing out the tokens of any source text and tokenizing
    the result gives the same tokens. So the categories of X16 describe
    exactly the tokens that [Lexico] can produce. *)
Theorem Lexico_unir :
  forall ts input,
    (forallb forma ts = true -> Lexico (unir ts) = ts)
    /\ Lexico (unir (Lexico input)) = Lexico input.
Proof.
  intros ts input. split; [ apply Lexico_unir_forma | ].
  apply Lexico_unir_forma. apply forallb_forall. intros t Ht.
  apply Lexico_desde_patron in Ht. destruct Ht as (s & Hs).
  eapply primer_patron_forma. exact Hs.
Qed.

(** ** Literals and the types they are compatible with *)

Lemma solo_digitos_sin_punto a : todos es_digito a = true -> contiene "." a = false.
Proof.
  induction a as [| c a IH]; cbn [todos contiene]; intro H; [ reflexivity | ].
  apply andb_true_iff in H. destruct H as [Hc Ha]. rewrite (IH Ha).
  destruct (Ascii.eqb c ".") eqn:E; [ | reflexivity ].
  apply Ascii.eqb_eq in E. subst c. discriminate.
Qed.

Lemma solo_digitos_numero a : solo_digitos a = true -> numero_sin_signo a = true.
Proof.
  unfold solo_digitos, numero_sin_signo. intro H.
  apply andb_true_iff in H. destruct H as [Hn Hd].
  rewrite (tomar_mientras_completo _ _ Hd), Hn. reflexivity.
Qed.

Lemma todos_digitos_punto ent frac :
  todos es_digito (ent ++ String "." frac) = false.
Proof.
  induction ent as [| c e IH]; cbn [append todos]; [ reflexivity | ].
  rewrite IH. apply andb_false_r.
Qed.

Lemma numero_quitar_menos v : numero_sin_signo v = true -> quitar_menos v = v.
Proof.
  intro H. apply numero_sin_signo_sin_menos in H.
  destruct v as [| c r]; [ reflexivity | ].
  cbn [contiene] in H. apply orb_false_iff in H. destruct H as [Hc _].
  destruct c as [[] [] [] [] [] [] [] []]; try reflexivity; discriminate.
Qed.

(** An unsigned number is compatible with [float], and with [int] when
    it has no decimal point. *)
Lemma numero_compatible v :
  numero_sin_signo v = true ->
  esValorCompatible v "float" = true
  /\ esValorCompatible v "int" = negb (contiene "." v).
Proof.
  intro H.
  change (esValorCompatible v "float") with (numero_sin_signo (quitar_menos v)).
  change (esValorCompatible v "int") with (solo_digitos (quitar_menos v)).
  rewrite (numero_quitar_menos v H). split; [ exact H | ].
  apply numero_sin_signo_inv in H. destruct H as (ent & He & Hv).
  pose proof He as He'. unfold solo_digitos in He'.
  apply andb_true_iff in He'. destruct He' as [Hn Hd].
  destruct Hv as [-> | (frac & Hf & ->)].
  - rewrite He, (solo_digitos_sin_punto _ Hd). reflexivity.
  - rewrite contiene_app. cbn [contiene]. rewrite Ascii.eqb_refl, orb_true_r.
    unfold solo_digitos. rewrite todos_digitos_punto. apply andb_false_r.
Qed.

(** A string literal is compatible with neither. *)
Lemma cadena_no_compatible v :
  es_cadena v = true ->
  esValorCompatible v "float" = false /\ esValorCompatible v "int" = false.
Proof.
  intro H. apply es_cadena_inv in H. destruct H as (cuerpo & _ & ->).
  split; reflexivity.
Qed.

Lemma forma_tipo t tipo p :
  forma t = true ->
  Tok.tipo t = tipo ->
  In (tipo, p) categorias ->
  NoDup (map fst categorias) ->
  p (Tok.valor t) = true.
Proof.
  unfold forma. intros H Ht Hin Hnd.
  apply existsb_exists in H. destruct H as ([tipo' p'] & Hin' & H).
  cbn [fst snd] in H. apply andb_true_iff in H. destruct H as [He Hp].
  apply String.eqb_eq in He. rewrite Ht in He. subst tipo'.
  assert (p' = p) as ->; [ | exact Hp ].
  clear - Hin Hin' Hnd. induction categorias as [| [a q] l IH]; [ destruct Hin | ].
  cbn [map fst] in Hnd. inversion Hnd as [| x y Hx Hl]; subst.
  destruct Hin as [E | Hin]; destruct Hin' as [E' | Hin'].
  - congruence.
  - inversion E; subst. exfalso. apply Hx. apply in_map_iff.
    exists (tipo, p'). auto.
  - inversion E'; subst. exfalso. apply Hx. apply in_map_iff.
    exists (tipo, p). auto.
  - apply IH; assumption.
Qed.

Lemma categorias_distintas : NoDup (map fst categorias).
Proof.
  cbn. repeat (constructor; [ cbn; intro H; repeat (destruct H as [H | H]; [ discriminate | ]); exact H | ]).
  constructor.
Qed.

(** X18. Which literal fits which type. For every source text, the text
    of a NUMERO token is accepted by [esValorCompatible] for [float],
    and for [int] exactly when it has no decimal point; the text of a
    CADENA token is accepted neither for [int] nor for [float]; every
    text is accepted for [string]. *)
Theorem literales_compatibles :
  forall input t,
    In t (Lexico input) ->
    (Tok.tipo t = "NUMERO" ->
     esValorCompatible (Tok.valor t) "float" = true
     /\ esValorCompatible (Tok.valor t) "int" = negb (contiene "." (Tok.valor t)))
    /\ (Tok.tipo t = "CADENA" ->
        esValorCompatible (Tok.valor t) "float" = false
        /\ esValorCompatible (Tok.valor t) "int" = false)
    /\ esValorCompatible (Tok.valor t) "string" = true.
Proof.
  intros input t Hin.
  assert (Hf : forma t = true).
  { apply Lexico_desde_patron in Hin. destruct Hin as (s & Hs).
    eapply primer_patron_forma. exact Hs. }
  split; [ | split; [ | reflexivity ] ].
  - intro Ht. apply numero_compatible.
    apply (forma_tipo t "NUMERO" numero_sin_signo Hf Ht); [ | apply categorias_distintas ].
    unfold categorias. cbn [In]. tauto.
  - intro Ht. apply cadena_no_compatible.
    apply (forma_tipo t "CADENA" es_cadena Hf Ht); [ | apply categorias_distintas ].
    unfold categorias. cbn [In]. tauto.
Qed.

(** X18 at the number of [int x = 1.5;]. *)
Lemma literales_compatibles_testigo :
  (Tok.tipo (Tok.mk "NUMERO" "1.5") = "NUMERO" ->
   esValorCompatible "1.5" "float" = true
   /\ esValorCompatible "1.5" "int" = negb (contiene "." "1.5"))
  /\ (Tok.tipo (Tok.mk "NUMERO" "1.5") = "CADENA" ->
      esValorCompatible "1.5" "float" = false
      /\ esValorCompatible "1.5" "int" = false)
  /\ esValorCompatible "1.5" "string" = true.
Proof.
  apply (literales_compatibles "int x = 1.5;" (Tok.mk "NUMERO" "1.5")).
  vm_compute. do 3 right. left. reflexivity.
Defined.

(** ** Reading numerals back *)

Lemma leer_digitos_cuenta s :
  forall acc n, (n <= snd (fst (leer_digitos acc n s)))%Z.
Proof.
  induction s as [| c r IH]; intros acc n; cbn [leer_digitos]; [ cbn; lia | ].
  destruct (es_digito c); [ | cbn; lia ].
  specialize (IH (10 * acc + valor_digito c)%Z (n + 1)%Z). lia.
Qed.

Lemma convertir_valido neg p q w : convertir neg p q <> Throw (invalid_argument w).
Proof.
  unfold convertir. destruct p; try discriminate.
  destruct (redondear neg p q); try discriminate.
  destruct (_ && _); discriminate.
Qed.

(** A text that starts with a digit is a number for [strtod]. *)
Lemma stod_decimal_digito neg c r w :
  es_digito c = true ->
  stod_decimal neg (String c r) <> Throw (invalid_argument w).
Proof.
  intro Hc. unfold stod_decimal. cbn [leer_digitos]. rewrite Hc.
  pose proof (leer_digitos_cuenta r (10 * 0 + valor_digito c) (0 + 1)) as H1.
  destruct (leer_digitos (10 * 0 + valor_digito c) (0 + 1) r) as [[m1 n1] r1].
  cbn [fst snd] in H1.
  assert (H2 : forall m2 n2 r2,
             (0 <= n2)%Z ->
             (if (n1 + n2 =? 0)%Z then Throw (invalid_argument "stod")
              else
                let ex :=
                  match r2 with
                  | String c0 r0 =>
                      if Ascii.eqb (minuscula c0) "e" then leer_exponente r0 else 0%Z
                  | EmptyString => 0%Z
                  end in
                let '(p, q) := escalar m2 10 (ex - n2) in convertir neg p q)
             <> Throw (invalid_argument w)).
  { intros m2 n2 r2 Hn2.
    destruct (n1 + n2 =? 0)%Z eqn:E; [ apply Z.eqb_eq in E; lia | ].
    cbv zeta. destruct (escalar m2 10 _) as [p q]. apply convertir_valido. }
  destruct r1 as [| d r1]; [ apply (H2 m1 0%Z EmptyString); lia | ].
  destruct (Ascii.eqb d ".") eqn:Ed.
  - apply Ascii.eqb_eq in Ed. subst d.
    pose proof (leer_digitos_cuenta r1 m1 0) as H3.
    destruct (leer_digitos m1 0 r1) as [[m n] r']. cbn [fst snd] in H3.
    apply (H2 m n r'). exact H3.
  - destruct d as [[] [] [] [] [] [] [] []]; try discriminate Ed;
      apply (H2 m1 0%Z (String _ r1)); lia.
Qed.

Lemma stod_digito c r w :
  es_digito c = true ->
  numero_sin_signo (String c r) = true ->
  stod (String c r) <> Throw (invalid_argument w)
  /\ stod (String "-" (String c r)) <> Throw (invalid_argument w).
Proof.
  intros Hc Hn.
  assert (Hx : forall x r', r = String x r' -> c = "0"%char ->
                            Ascii.eqb (minuscula x) "x" = false).
  { intros x r' -> ->.
    destruct x as [[] [] [] [] [] [] [] []]; try reflexivity;
      vm_compute in Hn; discriminate Hn. }
  assert (Hd : forall neg : bool, stod_decimal neg (String c r) <> Throw (invalid_argument w)).
  { intro neg. apply stod_decimal_digito. exact Hc. }
  assert (Hs : forall neg : bool,
             (if empieza_con "inf" (String c r)
              then Ret (if neg then neg_infinity else infinity)
              else if empieza_con "nan" (String c r) then Ret nan
              else
                match String c r with
                | String "0" (String x r0) =>
                    if Ascii.eqb (minuscula x) "x" then
                      match stod_hex neg r0 with
                      | Some v => v
                      | None => stod_decimal neg (String c r)
                      end
                    else stod_decimal neg (String c r)
                | _ => stod_decimal neg (String c r)
                end) <> Throw (invalid_argument w)).
  { intro neg.
    destruct (empieza_con "inf" (String c r)); [ discriminate | ].
    destruct (empieza_con "nan" (String c r)); [ discriminate | ].
    destruct r as [| x r'].
    - destruct c as [[] [] [] [] [] [] [] []]; apply Hd.
    - destruct (ascii_dec c "0") as [-> | Hc0].
      + rewrite (Hx x r' eq_refl eq_refl). apply Hd.
      + destruct c as [[] [] [] [] [] [] [] []]; try apply Hd.
        contradiction Hc0; reflexivity. }
  split.
  - unfold stod.
    assert (E : saltar_espacios (String c r) = String c r).
    { cbn [saltar_espacios].
      destruct c as [[] [] [] [] [] [] [] []]; try discriminate Hc; reflexivity. }
    rewrite E.
    assert (E2 : match String c r with
                 | String "-" r0 => (true, r0)
                 | String "+" r0 => (false, r0)
                 | _ => (false, String c r)
                 end = (false, String c r)).
    { destruct c as [[] [] [] [] [] [] [] []]; try discriminate Hc; reflexivity. }
    rewrite E2. apply (Hs false).
  - unfold stod.
    change (saltar_espacios (String "-" (String c r))) with (String "-" (String c r)).
    cbv iota beta. apply (Hs true).
Qed.

Lemma numero_empieza_con_digito c r :
  numero_sin_signo (String c r) = true -> es_digito c = true.
Proof.
  unfold numero_sin_signo. cbn [tomar_mientras].
  destruct (es_digito c); [ reflexivity | discriminate ].
Qed.

(** Every value that the declaration check accepts for [int] or for
    [float] is a number for [stod]. *)
Lemma stod_compatible v w :
  numero_sin_signo (quitar_menos v) = true -> stod v <> Throw (invalid_argument w).
Proof.
  intro H. destruct v as [| c r]; [ discriminate | ].
  destruct (ascii_dec c "-") as [-> | Hc].
  - cbn [quitar_menos] in H. destruct r as [| d r]; [ discriminate | ].
    apply (stod_digito d r w (numero_empieza_con_digito _ _ H) H).
  - assert (E : quitar_menos (String c r) = String c r).
    { destruct c as [[] [] [] [] [] [] [] []]; try reflexivity.
      contradiction Hc; reflexivity. }
    rewrite E in H.
    apply (stod_digito c r w (numero_empieza_con_digito _ _ H) H).
Qed.

Lemma stod_valor_numerico s w :
  valor_numerico s = true ->
  Sim.tipo s = "int" \/ Sim.tipo s = "float" ->
  stod (Sim.valor s) <> Throw (invalid_argument w).
Proof.
  unfold valor_numerico. intros H [Ht | Ht]; rewrite Ht in H; cbn in H.
  - apply stod_compatible. apply solo_digitos_numero. exact H.
  - apply orb_true_iff in H. destruct H as [H | H]; [ apply stod_compatible; exact H | ].
    unfold es_no_finito in H.
    apply orb_true_iff in H. destruct H as [H | H];
      [ apply orb_true_iff in H; destruct H as [H | H] | ];
      apply String.eqb_eq in H; rewrite H; discriminate.
Qed.

(** X19. Numeric variables can always be read back. At the end of the
    analysis of any source text, the value of every symbol of type [int]
    or [float] is a numeral (or the text of a value that is not finite),
    and [stod] does not throw [invalid_argument] on it: the evaluation
    of a numeric variable can fail on a value out of range, never on its
    form. *)
Theorem variables_numericas_legibles :
  forall codigo s w,
    In s (tablaSimbolos (snd (principal codigo))) ->
    Sim.tipo s = "int" \/ Sim.tipo s = "float" ->
    valor_numerico s = true
    /\ stod (Sim.valor s) <> Throw (invalid_argument w).
Proof.
  intros codigo s w Hin Ht.
  assert (Hv : valores_numericos (snd (principal codigo))).
  { unfold principal, analisisSintactico.
    apply (relacion_analisisSintactico_rec mantiene_valores mantiene_valores_refl
             mantiene_valores_trans mantiene_valores_pila
             esDeclaracionVariable_valores esOperacionAritmetica_valores).
    reflexivity. }
  unfold valores_numericos in Hv.
  assert (Hs : valor_numerico s = true).
  { apply (proj1 (forallb_forall _ _) Hv). exact Hin. }
  split; [ exact Hs | apply stod_valor_numerico; assumption ].
Qed.

(** X19 at the variable of [float x = 1; x = x / 0;], whose value is
    [inf]. *)
Lemma variables_numericas_legibles_testigo :
  valor_numerico (Sim.mk "x" "float" "inf" "id1") = true
  /\ stod "inf" <> Throw (invalid_argument "stod").
Proof.
  apply (variables_numericas_legibles "float x = 1; x = x / 0; "
           (Sim.mk "x" "float" "inf" "id1") "stod").
  - vm_compute. left. reflexivity.
  - right. reflexivity.
Defined.

(** ** Type names *)

(** X20. The names of the types go back and forth:
    [stringToDataType] undoes [dataTypeToString] on every type;
    [dataTypeToString] undoes [stringToDataType] exactly on the four
    texts [int], [float], [string] and [unknown]; and the type of a text
    is UNKNOWN exactly when the text is none of [int], [float],
    [string]. *)
Theorem tipos_ida_y_vuelta :
  forall (T : DataType) (tipo : string),
    stringToDataType (dataTypeToString T) = T
    /\ (dataTypeToString (stringToDataType tipo) = tipo
        <-> In tipo ["int"; "float"; "string"; "unknown"])
    /\ (stringToDataType tipo = UNKNOWN <-> ~ In tipo ["int"; "float"; "string"]).
Proof.
  intros T tipo. split; [ destruct T; reflexivity | ].
  unfold stringToDataType.
  destruct (tipo =? "int") eqn:E1; [ apply String.eqb_eq in E1; subst | ].
  { split; split.
    - intros _. cbn [In]. tauto.
    - intros _. reflexivity.
    - discriminate.
    - intro H. exfalso. apply H. cbn [In]. tauto. }
  destruct (tipo =? "float") eqn:E2; [ apply String.eqb_eq in E2; subst | ].
  { split; split.
    - intros _. cbn [In]. tauto.
    - intros _. reflexivity.
    - discriminate.
    - intro H. exfalso. apply H. cbn [In]. tauto. }
  destruct (tipo =? "string") eqn:E3; [ apply String.eqb_eq in E3; subst | ].
  { split; split.
    - intros _. cbn [In]. tauto.
    - intros _. reflexivity.
    - discriminate.
    - intro H. exfalso. apply H. cbn [In]. tauto. }
  apply String.eqb_neq in E1, E2, E3. cbn [dataTypeToString In].
  split; split.
  - intro H. subst. tauto.
  - intros [H | [H | [H | [H | []]]]]; congruence.
  - intros _ [H | [H | [H | []]]]; congruence.
  - reflexivity.
Qed.

(** ** Looking a name up *)

Lemma buscarDato_buscar tabla nombre :
  buscarDato tabla nombre
  = match buscarVariable tabla nombre with
    | Some s => Ret (Sim.valor s)
    | None => Throw (runtime_error ("Error: Variable '" ++ nombre ++ "' no declarada"))
    end.
Proof.
  unfold buscarVariable.
  induction tabla as [| x r IH]; cbn [find buscarDato]; [ reflexivity | ].
  destruct (Sim.nombre x =? nombre); [ reflexivity | exact IH ].
Qed.

Lemma buscarVariable_None tabla nombre :
  buscarVariable tabla nombre = None <-> ~ In nombre (map Sim.nombre tabla).
Proof.
  unfold buscarVariable. induction tabla as [| x r IH]; cbn [find map In].
  - tauto.
  - destruct (Sim.nombre x =? nombre) eqn:E.
    + apply String.eqb_eq in E. split; [ discriminate | intro H; exfalso; apply H; auto ].
    + apply String.eqb_neq in E. rewrite IH. tauto.
Qed.

Lemma getType_variable_None tabla nombre :
  buscarVariable tabla nombre = None ->
  getType_variable tabla nombre
  = Throw (runtime_error ("Variable no encontrada: " ++ nombre)).
Proof.
  unfold buscarVariable. induction tabla as [| x r IH]; cbn [find getType_variable];
    [ reflexivity | ].
  destruct (Sim.nombre x =? nombre); [ discriminate | exact IH ].
Qed.

(** X21. All lookups agree on the symbol that a name denotes: the first
    one with that name. [buscarVariable] fails exactly when no symbol has
    the name, and then [buscarDato], [VariableNode::evaluate] and
    [VariableNode::getType] throw their [runtime_error]; when it finds a
    symbol, that symbol has the name and is in the table, [buscarDato]
    returns its value, [VariableNode::evaluate] is [stod] of its value,
    and [VariableNode::getType] is its declared type when that is one of
    the three types of the language. *)
Theorem busquedas_coinciden :
  forall tabla nombre,
    (buscarVariable tabla nombre = None <-> ~ In nombre (map Sim.nombre tabla))
    /\ match buscarVariable tabla nombre with
       | Some s =>
           Sim.nombre s = nombre
           /\ In s tabla
           /\ buscarDato tabla nombre = Ret (Sim.valor s)
           /\ evaluate tabla (VariableNode nombre) = stod (Sim.valor s)
           /\ (stringToDataType (Sim.tipo s) <> UNKNOWN ->
               getType tabla (VariableNode nombre) = Ret (stringToDataType (Sim.tipo s)))
       | None =>
           buscarDato tabla nombre
             = Throw (runtime_error ("Error: Variable '" ++ nombre ++ "' no declarada"))
           /\ evaluate tabla (VariableNode nombre)
              = Throw (runtime_error ("Variable no encontrada: " ++ nombre))
           /\ getType tabla (VariableNode nombre)
              = Throw (runtime_error ("Variable no encontrada: " ++ nombre))
       end.
Proof.
  intros tabla nombre. split; [ apply buscarVariable_None | ].
  cbn [evaluate getType]. rewrite buscarDato_buscar, evaluate_variable_buscar.
  destruct (buscarVariable tabla nombre) as [s |] eqn:E.
  - unfold buscarVariable in E. pose proof (find_some _ _ E) as [Hin Hn].
    apply String.eqb_eq in Hn.
    repeat split; auto.
    intro Hu. apply getType_variable_buscar; assumption.
  - repeat split; auto. apply getType_variable_None. exact E.
Qed.

(** ** Tokens before the cursor *)

Lemma bind_igual {A B : Type} (m m' : M A) (k k' : A -> M B) st :
  m st = m' st ->
  (forall a st1, m st = (Ret a, st1) -> k a st1 = k' a st1) ->
  bind m k st = bind m' k' st.
Proof.
  intros Hm Hk. unfold bind. rewrite <- Hm.
  destruct (m st) as [[a | e | | ] st1]; try reflexivity.
  apply Hk. reflexivity.
Qed.

Section Coinciden.
Variables (k : nat) (a b : list Token).
Hypothesis Hab : coinciden k a b.

Lemma coinciden_length : List.length a = List.length b.
Proof. exact (proj1 Hab). Qed.

Lemma coinciden_nth p : k <= p -> nth_error a p = nth_error b p.
Proof. exact (proj2 Hab p). Qed.

Lemma coinciden_leer p : k <= p -> leer a p = leer b p.
Proof. intro H. unfold leer. rewrite (coinciden_nth p H). reflexivity. Qed.

Lemma coinciden_es_tipo p tipo : k <= p -> es_tipo a p tipo = es_tipo b p tipo.
Proof. intro H. unfold es_tipo. rewrite (coinciden_nth p H). reflexivity. Qed.

Lemma coinciden_es_punto_y_coma p :
  k <= p -> es_punto_y_coma a p = es_punto_y_coma b p.
Proof. intro H. unfold es_punto_y_coma. rewrite (coinciden_nth p H). reflexivity. Qed.

Lemma coinciden_tras_punto_y_coma p :
  k <= p -> tras_punto_y_coma a p = tras_punto_y_coma b p.
Proof.
  intro H. unfold tras_punto_y_coma. rewrite (coinciden_es_punto_y_coma p H). reflexivity.
Qed.

Lemma coinciden_cabecera i tipo palabra :
  k <= i -> cabecera a i tipo palabra = cabecera b i tipo palabra.
Proof.
  intro H. unfold cabecera.
  rewrite coinciden_length, (coinciden_nth i H), (coinciden_es_tipo i _ H).
  rewrite !(coinciden_es_tipo (i + _)) by lia. reflexivity.
Qed.

Lemma coinciden_condicion_aritmetica i :
  k <= i -> condicion_aritmetica a i = condicion_aritmetica b i.
Proof.
  intro H. unfold condicion_aritmetica.
  rewrite coinciden_length, (coinciden_leer i H), (coinciden_leer (i + 1)) by lia.
  reflexivity.
Qed.

Lemma coinciden_factor rec rec' i otro st :
  k <= i ->
  (forall st0, rec (i + 1) st0 = rec' (i + 1) st0) ->
  (forall st0 n0 j0 st0', rec (i + 1) st0 = (Ret (n0, j0), st0') -> i + 1 < j0) ->
  factor rec a i otro st = factor rec' b i otro st.
Proof.
  intros Hi Hrec Hav. unfold factor.
  rewrite (coinciden_leer i Hi).
  apply bind_igual; [ reflexivity | intros t s0 _ ].
  caso_if; [ | reflexivity ].
  apply bind_igual; [ apply Hrec | intros [n j] s1 Er ].
  apply Hav in Er. rewrite (coinciden_es_tipo j) by lia. reflexivity.
Qed.

Lemma coinciden_construirAST_rec fuel :
  (forall i st, k <= i -> construirAST_rec fuel a i st = construirAST_rec fuel b i st) /\
  (forall lhs i st, k <= i -> operadores fuel a lhs i st = operadores fuel b lhs i st).
Proof.
  induction fuel as [| f [IH1 IH2]]; split; intros; cbn [construirAST_rec operadores];
    try reflexivity.
  - apply bind_igual.
    + apply coinciden_factor; [ assumption | intro st0; apply IH1; lia | ].
      intros st0 n0 j0 st0' Hr. apply construirAST_rec_avanza in Hr. exact Hr.
    + intros [lhs i1] s1 Ef.
      apply factor_avanza in Ef;
        [ | intros st0 n0 j0 st0' Hr; apply construirAST_rec_avanza in Hr; exact Hr ].
      apply IH2. lia.
  - rewrite (coinciden_nth i) by assumption.
    destruct (nth_error b i) as [t |]; [ | reflexivity ].
    caso_if; [ | reflexivity ].
    apply bind_igual.
    + apply coinciden_factor; [ lia | intro st0; apply IH1; lia | ].
      intros st0 n0 j0 st0' Hr. apply construirAST_rec_avanza in Hr. exact Hr.
    + intros [rhs i2] s1 Ef.
      apply factor_avanza in Ef;
        [ | intros st0 n0 j0 st0' Hr; apply construirAST_rec_avanza in Hr; exact Hr ].
      apply bind_igual; [ reflexivity | intros u s2 _ ].
      apply IH2. lia.
Qed.

Lemma coinciden_construirAST i st :
  k <= i -> construirAST a i st = construirAST b i st.
Proof.
  intro H. unfold construirAST. rewrite coinciden_length.
  apply coinciden_construirAST_rec. exact H.
Qed.

Lemma coinciden_esOperacionAritmetica i st :
  k <= i -> esOperacionAritmetica a i st = esOperacionAritmetica b i st.
Proof.
  intro H. unfold esOperacionAritmetica.
  rewrite (coinciden_condicion_aritmetica i H), (coinciden_leer i H).
  apply bind_igual; [ reflexivity | intros entra s0 _ ].
  destruct entra; [ | reflexivity ].
  apply bind_igual; [ reflexivity | intros t s1 _ ].
  apply bind_igual; [ reflexivity | intros tabla s2 _ ].
  destruct (buscarVariable tabla (Tok.valor t)) as [destino |]; [ | reflexivity ].
  unfold capturar.
  assert (E : intento_aritmetico a i (i + 2) (Tok.valor t) destino s2
              = intento_aritmetico b i (i + 2) (Tok.valor t) destino s2);
    [ | rewrite E; reflexivity ].
  unfold intento_aritmetico.
  apply bind_igual; [ apply coinciden_construirAST; lia | intros [root j] s3 Ea ].
  apply construirAST_avanza in Ea.
  apply bind_igual; [ reflexivity | intros ty s4 _ ].
  rewrite (coinciden_es_punto_y_coma j) by lia. reflexivity.
Qed.

Lemma coinciden_esDeclaracionVariable i st :
  k <= i -> esDeclaracionVariable a i st = esDeclaracionVariable b i st.
Proof.
  intro H. unfold esDeclaracionVariable.
  rewrite coinciden_length, (coinciden_es_tipo i _ H), (coinciden_leer i H).
  rewrite !(coinciden_es_tipo (i + _)) by lia.
  rewrite !(coinciden_leer (i + _)) by lia.
  rewrite (coinciden_nth (i + 2)) by lia.
  rewrite (coinciden_es_punto_y_coma (i + 4)) by lia.
  reflexivity.
Qed.

Lemma coinciden_esEscritura i st :
  k <= i -> esEscritura a i st = esEscritura b i st.
Proof.
  intro H. unfold esEscritura.
  rewrite coinciden_length, (coinciden_es_tipo i _ H).
  rewrite !(coinciden_es_tipo (i + _)) by lia.
  rewrite !(coinciden_leer (i + _)) by lia.
  rewrite (coinciden_tras_punto_y_coma (i + 4)) by lia.
  reflexivity.
Qed.

Lemma coinciden_esLectura i st :
  k <= i -> esLectura a i st = esLectura b i st.
Proof.
  intro H. unfold esLectura.
  rewrite coinciden_length, (coinciden_es_tipo i _ H).
  rewrite !(coinciden_es_tipo (i + _)) by lia.
  rewrite !(coinciden_leer (i + _)) by lia.
  rewrite (coinciden_tras_punto_y_coma (i + 4)) by lia.
  reflexivity.
Qed.

Lemma coinciden_esBloqueWhile bloque bloque' i st :
  k <= i ->
  (forall j st0, i < j -> bloque j st0 = bloque' j st0) ->
  (forall j st0 ok j' st0', bloque j st0 = (Ret (ok, j'), st0') -> j <= j') ->
  esBloqueWhile bloque a i st = esBloqueWhile bloque' b i st.
Proof.
  intros H Hb Hav. unfold esBloqueWhile.
  rewrite (coinciden_cabecera i _ _ H), (coinciden_es_tipo (i + 6)) by lia.
  caso_if; [ | reflexivity ]. caso_if; [ | reflexivity ].
  apply bind_igual; [ apply Hb; lia | intros [ok j] s0 Eb ].
  apply Hav in Eb. rewrite (coinciden_es_tipo j) by lia. reflexivity.
Qed.

Lemma coinciden_esBloqueIf bloque bloque' i st :
  k <= i ->
  (forall j st0, i < j -> bloque j st0 = bloque' j st0) ->
  (forall j st0 ok j' st0', bloque j st0 = (Ret (ok, j'), st0') -> j <= j') ->
  esBloqueIf bloque a i st = esBloqueIf bloque' b i st.
Proof.
  intros H Hb Hav. unfold esBloqueIf.
  rewrite (coinciden_cabecera i _ _ H), (coinciden_es_tipo (i + 6)) by lia.
  rewrite !(coinciden_leer (i + _)) by lia.
  caso_if; [ | reflexivity ].
  apply bind_igual; [ reflexivity | intros t2 s0 _ ].
  apply bind_igual; [ reflexivity | intros t4 s1 _ ].
  apply bind_igual; [ reflexivity | intros tabla s2 _ ].
  caso_if; [ reflexivity | ]. caso_if; [ reflexivity | ].
  caso_if; [ | reflexivity ].
  apply bind_igual; [ apply Hb; lia | intros [ok j] s3 Eb ].
  apply Hav in Eb.
  rewrite (coinciden_es_tipo j), (coinciden_es_tipo (j + 1)), (coinciden_nth (j + 1)),
    (coinciden_es_tipo (j + 2)) by lia.
  caso_if; [ reflexivity | ]. caso_if; [ | reflexivity ].
  caso_if; [ | reflexivity ]. caso_if; [ | reflexivity ].
  apply bind_igual; [ apply Hb; lia | intros [ok2 j2] s4 Eb2 ].
  apply Hav in Eb2. rewrite (coinciden_es_tipo j2) by lia. reflexivity.
Qed.

Lemma coinciden_reconocer bloque bloque' i st :
  k <= i ->
  (forall j st0, i < j -> bloque j st0 = bloque' j st0) ->
  (forall j st0 ok j' st0', bloque j st0 = (Ret (ok, j'), st0') -> j <= j') ->
  reconocer bloque a i st = reconocer bloque' b i st.
Proof.
  intros H Hb Hav. unfold reconocer.
  apply bind_igual; [ apply coinciden_esDeclaracionVariable; exact H | ].
  intros [ok1 i1] s1 E1. apply esDeclaracionVariable_avanza in E1.
  destruct ok1; [ reflexivity | ].
  apply bind_igual; [ apply coinciden_esEscritura; lia | ].
  intros [ok2 i2] s2 E2. apply esEscritura_avanza in E2.
  destruct ok2; [ reflexivity | ].
  apply bind_igual; [ apply coinciden_esLectura; lia | ].
  intros [ok3 i3] s3 E3. apply esLectura_avanza in E3.
  destruct ok3; [ reflexivity | ].
  apply bind_igual.
  { apply coinciden_esBloqueIf; [ lia | | exact Hav ].
    intros j st0 Hj. apply Hb. lia. }
  intros [ok4 i4] s4 E4. apply (esBloqueIf_avanza _ _ _ _ Hav) in E4.
  destruct ok4; [ reflexivity | ].
  apply bind_igual.
  { apply coinciden_esBloqueWhile; [ lia | | exact Hav ].
    intros j st0 Hj. apply Hb. lia. }
  intros [ok5 i5] s5 E5. apply (esBloqueWhile_avanza _ _ _ _ Hav) in E5.
  destruct ok5; [ reflexivity | ].
  apply coinciden_esOperacionAritmetica. lia.
Qed.

Lemma coinciden_analizarBloque_rec fuel :
  forall i st,
    k <= i -> analizarBloque_rec fuel a i st = analizarBloque_rec fuel b i st.
Proof.
  induction fuel as [| f IH]; intros i st H; cbn [analizarBloque_rec]; [ reflexivity | ].
  rewrite coinciden_length, (coinciden_es_tipo i _ H).
  caso_if; [ | reflexivity ].
  apply bind_igual.
  - apply coinciden_reconocer; [ exact H | | apply analizarBloque_rec_avanza ].
    intros j st0 Hj. apply IH. lia.
  - intros [ok j] s1 Er.
    apply (reconocer_avanza _ _ _ _ (analizarBloque_rec_avanza a f)) in Er.
    destruct ok; [ apply IH; lia | reflexivity ].
Qed.

Lemma coinciden_analizarBloque i st :
  k <= i -> analizarBloque a i st = analizarBloque b i st.
Proof.
  intro H. unfold analizarBloque. rewrite coinciden_length.
  apply coinciden_analizarBloque_rec. exact H.
Qed.

Lemma coinciden_analisisSintactico_rec fuel :
  forall i st,
    k <= i -> analisisSintactico_rec fuel a i st = analisisSintactico_rec fuel b i st.
Proof.
  induction fuel as [| f IH]; intros i st H; cbn [analisisSintactico_rec];
    [ reflexivity | ].
  rewrite coinciden_length.
  caso_if; [ | reflexivity ].
  apply bind_igual; [ reflexivity | intros u s0 _ ].
  assert (Hav : forall j st0 ok j' st0',
             analizarBloque a j st0 = (Ret (ok, j'), st0') -> j <= j')
    by (intros j st0 ok j' st0'; apply analizarBloque_rec_avanza).
  apply bind_igual.
  - apply coinciden_reconocer; [ exact H | | exact Hav ].
    intros j st0 Hj. apply coinciden_analizarBloque. lia.
  - intros [ok j] s1 Er. apply (reconocer_avanza _ _ _ _ Hav) in Er.
    destruct ok; [ apply IH; lia | reflexivity ].
Qed.

End Coinciden.

(** X22. The analysis never looks behind the cursor. On two token
    sequences of the same length that are equal from position [k] on,
    the builder, the assignment recognizer, the sequence of recognizers,
    the analysis of a block and the driver loop, entered at a cursor not
    before [k] with the same globals, end in the same way: same result,
    same cursor, same globals. *)
Theorem tokens_anteriores_sin_efecto :
  forall k a b i st fuel,
    coinciden k a b ->
    k <= i ->
    construirAST a i st = construirAST b i st
    /\ esOperacionAritmetica a i st = esOperacionAritmetica b i st
    /\ reconocer (analizarBloque a) a i st = reconocer (analizarBloque b) b i st
    /\ analizarBloque a i st = analizarBloque b i st
    /\ analisisSintactico_rec fuel a i st = analisisSintactico_rec fuel b i st.
Proof.
  intros k a b i st fuel Hab Hi.
  split; [ apply (coinciden_construirAST k a b Hab); exact Hi | ].
  split; [ apply (coinciden_esOperacionAritmetica k a b Hab); exact Hi | ].
  split.
  { apply (coinciden_reconocer k a b Hab); [ exact Hi | | ].
    - intros j st0 Hj. apply (coinciden_analizarBloque k a b Hab). lia.
    - intros j st0 ok j' st0'. apply analizarBloque_rec_avanza. }
  split; [ apply (coinciden_analizarBloque k a b Hab); exact Hi | ].
  apply (coinciden_analisisSintactico_rec k a b Hab). exact Hi.
Qed.

(** X22 on two programs that differ in their first statement. *)
Lemma tokens_anteriores_sin_efecto_testigo :
  esOperacionAritmetica (Lexico "int x = 5; x = x + 1;") 5 estado_x5
  = esOperacionAritmetica (Lexico "write(7); x = x + 1;") 5 estado_x5.
Proof.
  assert (H : coinciden 5 (Lexico "int x = 5; x = x + 1;")
                          (Lexico "write(7); x = x + 1;")).
  { split; [ reflexivity | ]. intros p Hp.
    replace p with (5 + (p - 5)) by lia.
    rewrite <- !nth_error_skipn. reflexivity. }
  destruct (tokens_anteriores_sin_efecto 5 _ _ 5 estado_x5 0 H (le_n 5))
    as (_ & T & _).
  exact T.
Defined.

(** ** Conditions *)




(** ** Every well-typed expression is built *)

Lemma getType_anidar tabla cola :
  forall lhs T,
    getType tabla (anidar lhs cola) = Ret T -> exists Tl, getType tabla lhs = Ret Tl.
Proof.
  induction cola as [| [op rhs] cola IH]; intros lhs T H.
  - exists T. exact H.
  - cbn [anidar fold_left fst snd] in H. apply IH in H. destruct H as (T1 & H).
    cbn [getType] in H. apply rbind_ret_inv in H. destruct H as (Tl & Hl & _).
    exists Tl. exact Hl.
Qed.

Lemma es_tipo_distinto tokens j tipo tipo' :
  es_tipo tokens j tipo = true -> tipo <> tipo' -> es_tipo tokens j tipo' = false.
Proof.
  unfold es_tipo. destruct (nth_error tokens j) as [t |]; [ | discriminate ].
  intros H Hd. apply String.eqb_eq in H. apply String.eqb_neq. congruence.
Qed.

Lemma factor_completo rec tokens i otro st n j T :
  es_termino tokens i j n ->
  getType (tablaSimbolos st) n = Ret T ->
  (forall j0 n0 T0 st0,
      es_expresion tokens (i + 1) j0 n0 ->
      es_tipo tokens j0 "ARITMETICO" = false ->
      getType (tablaSimbolos st0) n0 = Ret T0 ->
      rec (i + 1) st0 = (Ret (n0, j0), con_tipo T0 st0)) ->
  factor rec tokens i otro st = (Ret (n, j), con_tipo T st).
Proof.
  intros Ht HT Hrec. unfold factor, bind, lift, leer.
  inversion Ht as [i0 t n0 Hn Htipo Hnum | i0 t Hn Htipo | i0 j0 t n0 Hn Htipo He Hc];
    subst; rewrite Hn, Htipo; cbn [String.eqb Ascii.eqb Bool.eqb].
  - rewrite Hnum. unfold leer_tabla, push, ret. rewrite HT. reflexivity.
  - unfold leer_tabla, push, ret. rewrite HT. reflexivity.
  - assert (Hfin : es_tipo tokens j0 "ARITMETICO" = false).
    { apply (es_tipo_distinto tokens j0 "PARENTESIS_DERECHO" "ARITMETICO" Hc).
      discriminate. }
    rewrite (Hrec j0 n T st He Hfin HT).
    cbn [con_tipo]. rewrite Hc. reflexivity.
Qed.

Lemma tipo_operacion_verificar op Tl Tr T st resto :
  tipo_operacion op Tl Tr = Ret T ->
  pilaSemantica st = Tr :: Tl :: resto ->
  verificar_tipos st
    = (Ret tt, mkEstado (tablaSimbolos st) (idGlobalCounter st) (T :: resto)).
Proof.
  intros H Hp. unfold verificar_tipos, bind, top_pop, push, throw, lift. rewrite Hp.
  cbn [pilaSemantica tablaSimbolos idGlobalCounter].
  unfold tipo_operacion in H.
  destruct Tl, Tr; cbn in *; try discriminate; try (inversion H; reflexivity);
    destruct (Ascii.eqb op "+"); cbn in H; inversion H; reflexivity.
Qed.

Lemma construirAST_rec_completo tokens fuel :
  (forall i j n st T,
      es_expresion tokens i j n ->
      es_tipo tokens j "ARITMETICO" = false ->
      getType (tablaSimbolos st) n = Ret T ->
      List.length tokens - i < fuel ->
      construirAST_rec fuel tokens i st = (Ret (n, j), con_tipo T st)) /\
  (forall lhs i j cola st Tl resto T,
      es_cola tokens i j cola ->
      es_tipo tokens j "ARITMETICO" = false ->
      pilaSemantica st = Tl :: resto ->
      getType (tablaSimbolos st) lhs = Ret Tl ->
      getType (tablaSimbolos st) (anidar lhs cola) = Ret T ->
      List.length tokens - i < fuel ->
      operadores fuel tokens lhs i st
        = (Ret (anidar lhs cola, j),
           mkEstado (tablaSimbolos st) (idGlobalCounter st) (T :: resto))).
Proof.
  induction fuel as [| f [IH1 IH2]]; split; intros until T; try (intros; lia).
  - intros He Hfin HT Hf. cbn [construirAST_rec].
    inversion He as [i0 k j0 t0 cola Ht Hc]; subst.
    destruct (getType_anidar _ _ _ _ HT) as (T0 & HT0).
    assert (Ef : factor (construirAST_rec f tokens) tokens i
                   (fun v => runtime_error ("Factor inesperado: " ++ v)) st
                 = (Ret (t0, k), con_tipo T0 st)).
    { apply factor_completo; auto.
      intros j0 n0 T1 st0 He0 Hfin0 HT1. apply IH1; auto.
      assert (i < List.length tokens)
        by (inversion Ht; subst; apply nth_error_Some; congruence).
      lia. }
    pose proof (factor_avanza _ _ _ _ _ _ _ _
                  (fun st0 n0 j0 st0' Hr =>
                     proj1 (construirAST_rec_avanza tokens f) _ _ _ _ _ Hr) Ef)
      as [Hik Hi].
    unfold bind. rewrite Ef.
    apply (IH2 t0 k j cola (con_tipo T0 st) T0 (pilaSemantica st) T Hc Hfin
             eq_refl HT0 HT).
    lia.
  - intros Hc Hfin Hp HTl HT Hf. cbn [operadores].
    inversion Hc as [i0 | i0 j0 k t n cola0 Hn Htipo Ht Hc0]; subst.
    + unfold es_tipo in Hfin. cbn [anidar fold_left] in *.
      rewrite HTl in HT. inversion HT; subst T.
      destruct (nth_error tokens j) as [t |]; [ rewrite Hfin | ];
        unfold ret; destruct st; cbn in *; subst; reflexivity.
    + rewrite Hn, Htipo. cbn [String.eqb Ascii.eqb Bool.eqb].
      cbn [anidar fold_left fst snd] in HT.
      destruct (getType_anidar _ _ _ _ HT) as (T1 & HT1).
      pose proof HT1 as HT1'. cbn [getType] in HT1'. rewrite HTl in HT1'.
      cbn [rbind] in HT1'.
      apply rbind_ret_inv in HT1'. destruct HT1' as (Tr & HTr & Hop).
      assert (Hi : i < List.length tokens) by (apply nth_error_Some; congruence).
      assert (Ef : factor (construirAST_rec f tokens) tokens (i + 1)
                     (fun _ => runtime_error "Operando derecho inválido") st
                   = (Ret (n, j0), con_tipo Tr st)).
      { apply factor_completo; auto.
        intros j1 n0 T2 st0 He0 Hfin0 HT2. apply IH1; auto. lia. }
      pose proof (factor_avanza _ _ _ _ _ _ _ _
                    (fun st0 n0 j1 st0' Hr =>
                       proj1 (construirAST_rec_avanza tokens f) _ _ _ _ _ Hr) Ef)
        as [Hij _].
      unfold bind. rewrite Ef.
      rewrite (tipo_operacion_verificar _ _ _ _ (con_tipo Tr st) resto Hop)
        by (cbn [con_tipo pilaSemantica]; rewrite Hp; reflexivity).
      cbn [con_tipo tablaSimbolos idGlobalCounter].
      apply (IH2 _ j0 j cola0
               (mkEstado (tablaSimbolos st) (idGlobalCounter st) (T1 :: resto))
               T1 resto T Hc0 Hfin eq_refl HT1 HT).
      lia.
Qed.

(** X25. Every well-typed expression is built. If the tokens from [i]
    to [j] are an expression of the grammar [term (operator term)*] with
    the left-nested tree [n], no arithmetic operator follows at [j], and
    [getType] gives [n] a type on the current table, then [construirAST]
    entered at [i] returns [n] with the cursor at [j], and leaves that
    type on the semantic stack and nothing else changed. With C1 this
    makes the builder the recognizer of exactly that grammar on
    well-typed expressions. *)
Theorem construirAST_completo :
  forall tokens i j n st T,
    es_expresion tokens i j n ->
    es_tipo tokens j "ARITMETICO" = false ->
    getType (tablaSimbolos st) n = Ret T ->
    construirAST tokens i st = (Ret (n, j), con_tipo T st).
Proof.
  intros tokens i j n st T He Hfin HT.
  apply (proj1 (construirAST_rec_completo tokens _)); auto. lia.
Qed.

(** X25 at [x + y * x] with two variables of type [int]. *)
Lemma construirAST_completo_testigo :
  construirAST (Lexico "x + y * x;") 0 estado_xy
  = (Ret (arbol_suma_producto, 5), con_tipo INT estado_xy).
Proof.
  apply (construirAST_completo (Lexico "x + y * x;") 0 5 arbol_suma_producto
           estado_xy INT).
  - apply (proj1 (construirAST_rec_forma (Lexico "x + y * x;") 7) 0 estado_xy
             arbol_suma_producto 5 (mkEstado tabla_xy 3 [INT])).
    vm_compute. reflexivity.
  - vm_compute. reflexivity.
  - vm_compute. reflexivity.
Defined.

(** ** Declarations that are accepted *)



(** ** Variables that are not declared *)

(** X24. A variable that is not declared makes its statement fail with
    no effect. When the name of [t] is not in the table, the assignment
    recognizer returns failure with the cursor and the globals as they
    were if [t] is its destination, or the first operand of its
    expression (the [runtime_error] of the builder is caught); and
    [esBloqueIf] does so if [t] is an operand of its condition. *)
Theorem variable_no_declarada :
  forall (tokens : list Token) i st (t : Token) bloque,
    ~ In (Tok.valor t) (map Sim.nombre (tablaSimbolos st)) ->
    (condicion_aritmetica tokens i = Ret true ->
     nth_error tokens i = Some t ->
     esOperacionAritmetica tokens i st = (Ret (false, i), st))
    /\ (forall t0,
          condicion_aritmetica tokens i = Ret true ->
          nth_error tokens i = Some t0 ->
          In (Tok.valor t0) (map Sim.nombre (tablaSimbolos st)) ->
          nth_error tokens (i + 2) = Some t ->
          Tok.tipo t = "IDENTIFICADOR" ->
          esOperacionAritmetica tokens i st = (Ret (false, i), st))
    /\ (cabecera tokens i "CONDICION" "if" = true ->
        nth_error tokens (i + 2) = Some t \/ nth_error tokens (i + 4) = Some t ->
        Tok.tipo t = "IDENTIFICADOR" ->
        esBloqueIf bloque tokens i st = (Ret (false, i), st)).
Proof.
  intros tokens i st t bloque Hno.
  assert (Hb : buscarVariable (tablaSimbolos st) (Tok.valor t) = None).
  { apply buscarVariable_None. exact Hno. }
  split; [ | split ].
  - intros Hc Ht. unfold esOperacionAritmetica, bind, lift, leer, leer_tabla.
    rewrite Hc, Ht, Hb. reflexivity.
  - intros t0 Hc Ht0 Hin H2 Htipo.
    unfold esOperacionAritmetica, bind, lift, leer, leer_tabla.
    rewrite Hc, Ht0.
    destruct (buscarVariable (tablaSimbolos st) (Tok.valor t0)) as [destino |] eqn:Ed;
      [ | reflexivity ].
    unfold capturar, intento_aritmetico, bind, construirAST.
    rewrite construirAST_rec_S. unfold factor, bind, lift, leer, leer_tabla.
    rewrite H2, Htipo. cbn [String.eqb Ascii.eqb Bool.eqb getType].
    rewrite (getType_variable_None _ _ Hb). reflexivity.
  - intros Hc Ht Htipo. unfold esBloqueIf. rewrite Hc.
    assert (Hlen : i + 6 < List.length tokens).
    { unfold cabecera in Hc.
      repeat (apply andb_true_iff in Hc; destruct Hc as [Hc _]).
      apply Nat.ltb_lt. exact Hc. }
    assert (Hop : operando_declarado (tablaSimbolos st) t = false).
    { unfold operando_declarado. rewrite Htipo, Hb. reflexivity. }
    unfold bind, lift, leer, leer_tabla.
    destruct (nth_error tokens (i + 2)) as [t2 |] eqn:E2;
      [ | apply nth_error_None in E2; lia ].
    destruct (nth_error tokens (i + 4)) as [t4 |] eqn:E4;
      [ | apply nth_error_None in E4; lia ].
    destruct Ht as [Ht | Ht]; inversion Ht; subst.
    + rewrite Hop. reflexivity.
    + rewrite Hop. destruct (operando_declarado (tablaSimbolos st) t2); reflexivity.
Qed.

(** X24 at the assignment [y = x + 1;] where [y] is not declared. *)
Lemma variable_no_declarada_testigo :
  esOperacionAritmetica (Lexico "int x = 5; y = x + 1;") 5 estado_x5
  = (Ret (false, 5), estado_x5).
Proof.
  apply (proj1 (variable_no_declarada (Lexico "int x = 5; y = x + 1;") 5 estado_x5
                  (Tok.mk "IDENTIFICADOR" "y")
                  (analizarBloque (Lexico "int x = 5; y = x + 1;"))
                  ltac:(vm_compute; intros [H | []]; discriminate)));
    vm_compute; reflexivity.
Defined.

(** ** An assignment that fails *)

Lemma getType_variable_claves tabla tabla' name :
  map clave tabla' = map clave tabla ->
  getType_variable tabla' name = getType_variable tabla name.
Proof.
  revert tabla'. induction tabla as [| s r IH]; intros [| s' r'] H; try discriminate;
    [ reflexivity | ].
  cbn [map] in H. inversion H as [[Hn Ht Hi Hr]]. cbn [getType_variable].
  rewrite Hn, Ht, (IH r' Hr). reflexivity.
Qed.

Lemma getType_claves tabla tabla' n :
  map clave tabla' = map clave tabla -> getType tabla' n = getType tabla n.
Proof.
  intro H. induction n as [v d | name | op lhs IHl rhs IHr]; cbn [getType].
  - reflexivity.
  - apply getType_variable_claves. exact H.
  - rewrite IHl, IHr. reflexivity.
Qed.

Lemma buscarVariable_claves tabla tabla' name :
  map clave tabla' = map clave tabla ->
  buscarVariable tabla name <> None -> buscarVariable tabla' name <> None.
Proof.
  unfold buscarVariable.
  revert tabla'. induction tabla as [| s r IH]; intros [| s' r'] H; try discriminate;
    [ auto | ].
  cbn [map] in H. inversion H as [[Hn Ht Hi Hr]]. cbn [find]. rewrite Hn.
  destruct (Sim.nombre s =? name); [ discriminate | apply IH; exact Hr ].
Qed.

Lemma convertir_sin_runtime_error neg p q : sin_runtime_error (convertir neg p q).
Proof.
  unfold convertir. destruct p; try exact I.
  destruct (redondear neg p q); try exact I.
  destruct (_ && _); exact I.
Qed.

(** [stod] throws [invalid_argument] or [out_of_range], nothing else. *)
Lemma stod_sin_runtime_error s : sin_runtime_error (stod s).
Proof.
  assert (Hdec : forall neg r, sin_runtime_error (stod_decimal neg r)).
  { intros neg r. unfold stod_decimal.
    destruct (leer_digitos 0 0 r) as [[m1 n1] r1].
    destruct (match r1 with
              | String "." r0 => let '(m, n, r') := leer_digitos m1 0 r0 in (m, n, r')
              | _ => (m1, 0%Z, r1)
              end) as [[m2 n2] r2].
    destruct (n1 + n2 =? 0)%Z; [ exact I | ].
    destruct (escalar m2 10 _) as [p q]. apply convertir_sin_runtime_error. }
  assert (Hhex : forall neg r v, stod_hex neg r = Some v -> sin_runtime_error v).
  { intros neg r v. unfold stod_hex.
    destruct (leer_hex 0 0 r) as [[m1 n1] r1].
    destruct (match r1 with
              | String "." r0 => let '(m, n, r') := leer_hex m1 0 r0 in (m, n, r')
              | _ => (m1, 0%Z, r1)
              end) as [[m2 n2] r2].
    destruct (n1 + n2 =? 0)%Z; [ discriminate | ].
    destruct (escalar m2 2 _) as [p q]. intro H. inversion H.
    apply convertir_sin_runtime_error. }
  unfold stod.
  destruct (match saltar_espacios s with
            | String "-" r => (true, r)
            | String "+" r => (false, r)
            | _ => (false, saltar_espacios s)
            end) as [neg s2].
  destruct (empieza_con "inf" s2); [ exact I | ].
  destruct (empieza_con "nan" s2); [ exact I | ].
  assert (Hx : forall x r,
             sin_runtime_error
               (if Ascii.eqb (minuscula x) "x"
                then match stod_hex neg r with
                     | Some v => v
                     | None => stod_decimal neg s2
                     end
                else stod_decimal neg s2)).
  { intros x r. destruct (Ascii.eqb (minuscula x) "x"); [ | apply Hdec ].
    destruct (stod_hex neg r) eqn:E; [ eapply Hhex; exact E | apply Hdec ]. }
  destruct s2 as [| c r]; [ apply Hdec | ].
  destruct r as [| x r];
    destruct c as [[] [] [] [] [] [] [] []]; first [ apply Hdec | apply Hx ].
Qed.

Lemma aplicar_ret op a b v a' b' :
  aplicar op a b = Ret v -> exists v', aplicar op a' b' = Ret v'.
Proof.
  unfold aplicar. repeat (caso_if; [ eexists; reflexivity | ]). discriminate.
Qed.

(** A tree that evaluated evaluates again without [runtime_error] on a
    table with the same names and types, whatever the values. *)
Lemma evaluate_de_nuevo tabla tabla' n :
  map clave tabla' = map clave tabla ->
  forall v, evaluate tabla n = Ret v -> sin_runtime_error (evaluate tabla' n).
Proof.
  intro H. induction n as [x d | name | op lhs IHl rhs IHr]; intros v Hv.
  - exact I.
  - cbn [evaluate] in *. rewrite evaluate_variable_buscar in *.
    destruct (buscarVariable tabla name) as [s |] eqn:E; [ | discriminate ].
    assert (Hne : buscarVariable tabla' name <> None).
    { apply (buscarVariable_claves tabla tabla' name H). congruence. }
    destruct (buscarVariable tabla' name) as [s' |]; [ | contradiction ].
    apply stod_sin_runtime_error.
  - cbn [evaluate] in Hv |- *. rewrite (getType_claves _ _ _ H).
    destruct (getType tabla (OperatorNode op lhs rhs)) as [T | e | | ];
      try discriminate. cbn [rbind] in *.
    destruct (DataType_eqb T STRING); [ discriminate | ].
    destruct (evaluate tabla lhs) as [a | e | | ] eqn:El; try discriminate.
    destruct (evaluate tabla rhs) as [b | e | | ] eqn:Er; try discriminate.
    cbn [rbind] in Hv.
    specialize (IHl a eq_refl). specialize (IHr b eq_refl).
    destruct (evaluate tabla' lhs) as [a' | [w | w | w] | | ]; cbn [rbind];
      try exact I; try contradiction.
    destruct (evaluate tabla' rhs) as [b' | [w | w | w] | | ]; cbn [rbind];
      try exact I; try contradiction.
    destruct (aplicar_ret op a b v a' b' Hv) as (v' & ->). exact I.
Qed.

(** Printing a tree that evaluated, and whose variables had a type when
    it was built, does not throw. *)
Lemma mostrarExpresionSimple_ret tabla n :
  hojas_con_tipo tabla n ->
  forall v, evaluate tabla n = Ret v -> mostrarExpresionSimple tabla n = Ret tt.
Proof.
  induction n as [x d | name | op lhs IHl rhs IHr]; intros Hh v Hv.
  - reflexivity.
  - cbn [mostrarExpresionSimple getType]. destruct Hh as (T & ->). reflexivity.
  - destruct Hh as [Hl Hr]. cbn [evaluate] in Hv. cbn [mostrarExpresionSimple].
    destruct (getType tabla (OperatorNode op lhs rhs)) as [T | e | | ] eqn:ET;
      try discriminate. cbn [rbind] in Hv.
    destruct (DataType_eqb T STRING); [ discriminate | ].
    destruct (evaluate tabla lhs) as [a | e | | ] eqn:El; try discriminate.
    destruct (evaluate tabla rhs) as [b | e | | ] eqn:Er; try discriminate.
    rewrite (IHl Hl a eq_refl), (IHr Hr b eq_refl). reflexivity.
Qed.

Lemma hojas_con_tipo_claves tabla tabla' n :
  map clave tabla' = map clave tabla -> hojas_con_tipo tabla n -> hojas_con_tipo tabla' n.
Proof.
  intro H. induction n as [x d | name | op lhs IHl rhs IHr]; cbn [hojas_con_tipo].
  - auto.
  - intros (T & HT). exists T. rewrite (getType_variable_claves _ _ _ H). exact HT.
  - intros [Hl Hr]. auto.
Qed.

Lemma factor_hojas rec tokens i otro st n j st' :
  (forall k st0 n0 j0 st0',
      rec k st0 = (Ret (n0, j0), st0') -> hojas_con_tipo (tablaSimbolos st0) n0) ->
  factor rec tokens i otro st = (Ret (n, j), st') ->
  hojas_con_tipo (tablaSimbolos st) n.
Proof.
  intros Hrec H. unfold factor in H.
  inv_bind_as H t s0 Et. inv_lift Et.
  caso_if_en H.
  { inv_bind_as H nj s1 Er. destruct nj as [n0 j0]. apply Hrec in Er.
    caso_if_en H; [ | discriminate ].
    inv_ret H. inversion H; subst. exact Er. }
  caso_if_en H.
  { inv_bind_as H n0 s1 En. inv_lift En.
    inv_bind_as H tabla s2 Etab. inv_bind_as H ty s3 Ety. inv_bind_as H u s4 Ep.
    inv_ret H. inversion H; subst.
    unfold NumberNode_cadena in En.
    destruct (contiene "." (Tok.valor t)); apply rbind_ret_inv in En;
      destruct En as (x & _ & En); inversion En; exact I. }
  caso_if_en H; [ | discriminate ].
  inv_bind_as H tabla s2 Etab. apply leer_tabla_inv in Etab. destruct Etab as [-> ->].
  inv_bind_as H ty s3 Ety. inv_lift Ety. inv_bind_as H u s4 Ep.
  inv_ret H. inversion H; subst. exists ty. exact Ety.
Qed.

Lemma construirAST_rec_hojas tokens fuel :
  (forall i st n j st',
      construirAST_rec fuel tokens i st = (Ret (n, j), st') ->
      hojas_con_tipo (tablaSimbolos st) n) /\
  (forall lhs i st n j st',
      operadores fuel tokens lhs i st = (Ret (n, j), st') ->
      hojas_con_tipo (tablaSimbolos st) lhs ->
      hojas_con_tipo (tablaSimbolos st) n).
Proof.
  induction fuel as [| f [IH1 IH2]]; split; intros until st'; intro H;
    cbn [construirAST_rec operadores] in H; try discriminate.
  - inv_bind_as H nj s1 Ef. destruct nj as [lhs i1].
    pose proof (conserva_factor (construirAST_rec f tokens) tokens i
                  (fun v => runtime_error ("Factor inesperado: " ++ v))
                  (fun k => proj1 (conserva_construirAST_rec tokens f) k) st) as Hc.
    rewrite Ef in Hc. destruct Hc as [Htab _]. cbn [snd] in Htab.
    apply (factor_hojas _ _ _ _ _ _ _ _ IH1) in Ef.
    rewrite <- Htab. apply (IH2 _ _ _ _ _ _ H). rewrite Htab. exact Ef.
  - intro Hl.
    destruct (nth_error tokens i) as [t |]; [ | inv_ret H; inversion H; subst; exact Hl ].
    caso_if_en H; [ | inv_ret H; inversion H; subst; exact Hl ].
    inv_bind_as H nj s1 Ef. destruct nj as [rhs i2].
    pose proof (conserva_factor (construirAST_rec f tokens) tokens (i + 1)
                  (fun _ => runtime_error "Operando derecho inválido")
                  (fun k => proj1 (conserva_construirAST_rec tokens f) k) st) as Hc.
    rewrite Ef in Hc. destruct Hc as [Htab _]. cbn [snd] in Htab.
    apply (factor_hojas _ _ _ _ _ _ _ _ IH1) in Ef.
    inv_bind_as H u s2 Ev.
    pose proof (conserva_verificar_tipos s1) as Hv. rewrite Ev in Hv.
    destruct Hv as [Htab2 _]. cbn [snd] in Htab2.
    assert (Hs2 : tablaSimbolos s2 = tablaSimbolos st) by congruence.
    rewrite <- Hs2. apply (IH2 _ _ _ _ _ _ H). rewrite Hs2.
    split; assumption.
Qed.

Lemma mostrarExpresionSimple_claves tabla tabla' n :
  map clave tabla' = map clave tabla ->
  mostrarExpresionSimple tabla' n = mostrarExpresionSimple tabla n.
Proof.
  intro H. induction n as [x d | name | op lhs IHl rhs IHr];
    cbn [mostrarExpresionSimple]; [ reflexivity | | ].
  - rewrite (getType_claves _ _ _ H). reflexivity.
  - rewrite IHl, IHr, (getType_claves _ _ _ H). reflexivity.
Qed.

Lemma actualizar_sin_runtime_error tabla nombre T x :
  sin_runtime_error (actualizar tabla nombre T x).
Proof.
  induction tabla as [| s r IH]; cbn [actualizar]; [ exact I | ].
  caso_if.
  - unfold valor_nuevo, static_cast_int. caso_if; [ | exact I ].
    destruct (Prim2SF x); try exact I. caso_if; exact I.
  - destruct (actualizar r nombre T x) as [l | [w | w | w] | | ]; try exact I.
    contradiction.
Qed.

(** When the [try] block of the assignment recognizer reports failure or
    is left by a [runtime_error], the symbol table has not been written:
    after the write nothing can fail in that way. *)
Lemma intento_aritmetico_fallo tokens pos i nombre destino st :
  match fst (intento_aritmetico tokens pos i nombre destino st) with
  | Ret (false, _) | Throw (runtime_error _) =>
      mismos_simbolos st (snd (intento_aritmetico tokens pos i nombre destino st))
  | _ => True
  end.
Proof.
  unfold intento_aritmetico, bind.
  pose proof (conserva_construirAST tokens i st) as Hc.
  destruct (construirAST tokens i st) as [[[root k] | [w | w | w] | | ] st1] eqn:Ea;
    cbn [fst snd] in *; try exact I; try exact Hc.
  pose proof (proj1 (construirAST_rec_hojas tokens _) _ _ _ _ _ Ea) as Hh.
  pose proof (conserva_top_pop st1) as Hp.
  destruct (top_pop st1) as [[ty | [w | w | w] | | ] st2]; cbn [fst snd] in *;
    try exact I; try (eapply mismos_simbolos_trans; eassumption).
  assert (H2 : mismos_simbolos st st2) by (eapply mismos_simbolos_trans; eassumption).
  caso_if; [ exact H2 | ]. caso_if; [ | exact H2 ].
  unfold leer_tabla, lift, poner_tabla, ret.
  destruct H2 as [Htab Hcnt]. rewrite Htab.
  destruct (evaluate (tablaSimbolos st) root) as [resultado | [w | w | w] | | ] eqn:Ev;
    cbn [fst snd]; try exact I; try (split; assumption).
  pose proof (actualizar_sin_runtime_error (tablaSimbolos st) nombre
                (stringToDataType (Sim.tipo destino)) resultado) as Hact.
  destruct (actualizar _ _ _ _) as [nueva | [w | w | w] | | ] eqn:Eact;
    cbn [fst snd]; try exact I; try contradiction.
  pose proof (actualizar_claves _ _ _ _ _ Eact) as Hk.
  rewrite (mostrarExpresionSimple_claves _ _ _ Hk),
    (mostrarExpresionSimple_ret _ _ Hh _ Ev).
  pose proof (evaluate_de_nuevo _ nueva root Hk _ Ev) as He.
  destruct (evaluate nueva root) as [v | [w | w | w] | | ]; cbn [fst snd];
    try exact I. contradiction.
Qed.

(** X27. An assignment that fails changes nothing but the stack: when
    [esOperacionAritmetica] returns false (destination not declared,
    types that do not agree, a [runtime_error] caught) the symbol table
    and the counter are those of the call. The table is written on the
    accepting path only, and after the write neither the printing of
    the expression nor its second evaluation can throw a
    [runtime_error], which the handler would turn into false. *)
Theorem asignacion_fallida_sin_efecto :
  forall tokens i st j st',
    esOperacionAritmetica tokens i st = (Ret (false, j), st') ->
    tablaSimbolos st' = tablaSimbolos st /\ idGlobalCounter st' = idGlobalCounter st.
Proof.
  intros tokens i st j st' H. unfold esOperacionAritmetica in H.
  inv_bind_as H entra s0 Ec. inv_lift Ec.
  destruct entra; [ | inv_ret H; split; reflexivity ].
  inv_bind_as H t s1 Et. inv_lift Et.
  inv_bind_as H tabla s2 Etab. apply leer_tabla_inv in Etab. destruct Etab as [-> ->].
  destruct (buscarVariable _ _) as [destino |]; [ | inv_ret H; split; reflexivity ].
  pose proof (intento_aritmetico_fallo tokens i (i + 2) (Tok.valor t) destino st) as Hf.
  unfold capturar in H.
  destruct (intento_aritmetico tokens i (i + 2) (Tok.valor t) destino st)
    as [[[ok k] | [w | w | w] | | ] st1]; cbn [fst snd] in *; try discriminate.
  - inversion H; subst. exact Hf.
  - inversion H; subst. exact Hf.
Qed.

(** X27 at [x = 1 + y;] with [y] not declared: the builder has pushed
    the type of [1] when it throws. *)
Lemma asignacion_fallida_sin_efecto_testigo :
  tablaSimbolos (mkEstado [Sim.mk "x" "int" "5" "id1"] 2 [INT]) = tablaSimbolos estado_x5
  /\ idGlobalCounter (mkEstado [Sim.mk "x" "int" "5" "id1"] 2 [INT])
     = idGlobalCounter estado_x5.
Proof.
  apply (asignacion_fallida_sin_efecto (Lexico "int x = 5; x = 1 + y;") 5 estado_x5 5).
  vm_compute. reflexivity.
Defined.

(** ** Blocks and their braces *)

Lemma analizarBloque_rec_fin tokens fuel :
  forall i st j st',
    analizarBloque_rec fuel tokens i st = (Ret (true, j), st') ->
    List.length tokens <= j \/ es_tipo tokens j "LLAVE_DERECHA" = true.
Proof.
  induction fuel as [| f IH]; intros i st j st' H; cbn [analizarBloque_rec] in H;
    [ discriminate | ].
  destruct (Nat.ltb i (List.length tokens)) eqn:Hi; cbn [andb] in H.
  - destruct (es_tipo tokens i "LLAVE_DERECHA") eqn:Hll; cbn [negb] in H.
    + inv_ret H. inversion H; subst. right. exact Hll.
    + inv_bind_as H r s1 Er. destruct r as [ok j1].
      destruct ok; [ eapply IH; exact H | inv_ret H; discriminate ].
  - inv_ret H. inversion H; subst. left. apply Nat.ltb_ge. exact Hi.
Qed.

(** X28. Blocks and their braces. [analizarBloque] accepts only at a
    closing brace or at the end of the tokens. An accepted [while] has
    an opening brace after its condition and ends just behind a closing
    brace. An accepted [if] has an opening brace after its condition and
    ends just behind a closing brace, or at the end of the tokens: an
    [else] block that is never closed is accepted, as in the source text
    of the last part, which the analysis declares valid. *)
Theorem bloques_cerrados :
  forall tokens i st j st',
    (analizarBloque tokens i st = (Ret (true, j), st') ->
     List.length tokens <= j \/ es_tipo tokens j "LLAVE_DERECHA" = true)
    /\ (esBloqueWhile (analizarBloque tokens) tokens i st = (Ret (true, j), st') ->
        es_tipo tokens (i + 6) "LLAVE_IZQUIERDA" = true
        /\ exists k, j = k + 1 /\ es_tipo tokens k "LLAVE_DERECHA" = true)
    /\ (esBloqueIf (analizarBloque tokens) tokens i st = (Ret (true, j), st') ->
        es_tipo tokens (i + 6) "LLAVE_IZQUIERDA" = true
        /\ ((exists k, j = k + 1 /\ es_tipo tokens k "LLAVE_DERECHA" = true)
            \/ List.length tokens <= j))
    /\ principal "if (1 < 2) { } else { write(1);" = (Ret true, estado_inicial).
Proof.
  intros tokens i st j st'.
  split; [ apply analizarBloque_rec_fin | ].
  split; [ | split; [ | vm_compute; reflexivity ] ].
  - intro H. unfold esBloqueWhile in H.
    caso_if_en H; [ | inv_ret H; discriminate ].
    destruct (es_tipo tokens (i + 6) "LLAVE_IZQUIERDA"); [ | inv_ret H; discriminate ].
    split; [ reflexivity | ].
    inv_bind_as H okj s0 Eb. destruct okj as [ok k].
    destruct ok; cbn [negb] in H; [ | inv_ret H; discriminate ].
    destruct (es_tipo tokens k "LLAVE_DERECHA") eqn:Hk; inv_ret H; inversion H; subst.
    exists k. auto.
  - intro H. unfold esBloqueIf in H.
    caso_if_en H; [ | inv_ret H; discriminate ].
    inv_bind_as H t2 s0 E2. inv_bind_as H t4 s1 E4. inv_bind_as H tabla s2 Etab.
    caso_if_en H; [ inv_ret H; discriminate | ].
    caso_if_en H; [ inv_ret H; discriminate | ].
    destruct (es_tipo tokens (i + 6) "LLAVE_IZQUIERDA"); [ | inv_ret H; discriminate ].
    split; [ reflexivity | ].
    inv_bind_as H okj s3 Eb. destruct okj as [ok k].
    destruct ok; cbn [negb] in H; [ | inv_ret H; discriminate ].
    destruct (es_tipo tokens k "LLAVE_DERECHA") eqn:Hk; [ | inv_ret H; discriminate ].
    caso_if_en H; [ | inv_ret H; inversion H; subst; left; exists k; auto ].
    caso_if_en H; [ | inv_ret H; discriminate ].
    inv_bind_as H okk s4 Eb2. destruct okk as [ok2 k2].
    destruct ok2; cbn [negb] in H; [ | inv_ret H; discriminate ].
    destruct (es_tipo tokens k2 "LLAVE_DERECHA") eqn:Hk2; inv_ret H; inversion H; subst.
    + left. exists k2. auto.
    + right. apply analizarBloque_rec_fin in Eb2. destruct Eb2 as [Hl | Hl];
        [ exact Hl | congruence ].
Qed.

(** ** Tokens and lines, tokens and minus signs *)

Lemma tomar_mientras_app_no p a c s :
  p c = false ->
  tomar_mientras p (a ++ String c s)%string
  = (fst (tomar_mientras p a), (snd (tomar_mientras p a) ++ String c s)%string).
Proof.
  intro Hc. induction a as [| d a IH]; cbn [append tomar_mientras].
  - rewrite Hc. reflexivity.
  - destruct (p d); [ | reflexivity ].
    rewrite IH. destruct (tomar_mientras p a) as [x y]. reflexivity.
Qed.

(** The patterns before a separator [sep]: a character that is in no
    word, operator or number. *)
Lemma tras_prefijo_separador sep w :
  todos (fun c => negb (Ascii.eqb c sep)) w = true ->
  forall a s,
    tras_prefijo w (a ++ String sep s)%string
    = match tras_prefijo w a with
      | Some r => Some (r ++ String sep s)%string
      | None => None
      end.
Proof.
  induction w as [| x w IH]; intros Hw a s; [ reflexivity | ].
  cbn [todos] in Hw. apply andb_true_iff in Hw. destruct Hw as [Hx Hw].
  destruct a as [| c a]; cbn [append tras_prefijo].
  - apply negb_true_iff in Hx. rewrite Hx. reflexivity.
  - destruct (Ascii.eqb x c); [ apply IH; exact Hw | reflexivity ].
Qed.

Lemma fin_de_palabra_separador sep r s :
  es_palabra sep = false ->
  fin_de_palabra (r ++ String sep s)%string = fin_de_palabra r.
Proof. intro H. destruct r; cbn [append fin_de_palabra]; [ rewrite H | ]; reflexivity. Qed.

Lemma palabras_separador sep ws a s :
  es_palabra sep = false ->
  forallb (todos (fun c => negb (Ascii.eqb c sep))) ws = true ->
  palabras ws (a ++ String sep s)%string = palabras ws a.
Proof.
  intro Hsep. induction ws as [| w otras IH]; intro H; cbn [palabras]; [ reflexivity | ].
  cbn [forallb] in H. apply andb_true_iff in H. destruct H as [Hw Hws].
  rewrite (tras_prefijo_separador sep w Hw), (IH Hws).
  destruct (tras_prefijo w a) as [r |]; [ | reflexivity ].
  rewrite (fin_de_palabra_separador sep r s Hsep). reflexivity.
Qed.

Lemma literales_separador sep ws a s :
  forallb (todos (fun c => negb (Ascii.eqb c sep))) ws = true ->
  literales ws (a ++ String sep s)%string = literales ws a.
Proof.
  induction ws as [| w otras IH]; intro H; cbn [literales]; [ reflexivity | ].
  cbn [forallb] in H. apply andb_true_iff in H. destruct H as [Hw Hws].
  rewrite (tras_prefijo_separador sep w Hw), (IH Hws).
  destruct (tras_prefijo w a); reflexivity.
Qed.

Lemma cadena_sin_comilla c a :
  Ascii.eqb c comilla = false -> cadena (String c a) = None.
Proof. intro H. unfold cadena. rewrite H. reflexivity. Qed.

Lemma numeros_separador sep a s :
  sep = " "%char \/ sep = "-"%char ->
  numeros (a ++ String sep s)%string = numeros a.
Proof.
  intro Hsep.
  assert (Hd : es_digito sep = false) by (destruct Hsep as [-> | ->]; reflexivity).
  unfold numeros. rewrite (tomar_mientras_app_no es_digito a sep s Hd).
  destruct (tomar_mientras es_digito a) as [ent resto]. cbn [fst snd].
  destruct (no_vacia ent); [ | reflexivity ].
  destruct resto as [| c r]; [ destruct Hsep as [-> | ->]; reflexivity | ].
  cbn [append].
  destruct (ascii_dec c ".") as [-> | Hc].
  - rewrite (tomar_mientras_app_no es_digito r sep s Hd).
    destruct (tomar_mientras es_digito r) as [frac x]. reflexivity.
  - destruct c as [[] [] [] [] [] [] [] []]; try reflexivity.
    contradiction Hc; reflexivity.
Qed.

Lemma identificadores_separador sep c a s :
  es_palabra sep = false ->
  identificadores (String c a ++ String sep s)%string = identificadores (String c a).
Proof.
  intro Hsep. cbn [append]. unfold identificadores.
  rewrite (tomar_mientras_app_no es_palabra a sep s Hsep). reflexivity.
Qed.

(** The token at the start of a text without double quotes is the same
    when a blank or a minus sign and more text follow. *)
Lemma primer_patron_separador sep c a s :
  sep = " "%char \/ sep = "-"%char ->
  contiene comilla (String c a) = false ->
  primer_patron patrones (String c a ++ String sep s)%string
  = primer_patron patrones (String c a).
Proof.
  intros Hsep H. cbn [contiene] in H. apply orb_false_iff in H. destruct H as [Hc _].
  assert (Hp : es_palabra sep = false) by (destruct Hsep as [-> | ->]; reflexivity).
  unfold patrones. cbn [primer_patron].
  rewrite !(palabras_separador sep) by (destruct Hsep as [-> | ->]; reflexivity).
  rewrite !(literales_separador sep) by (destruct Hsep as [-> | ->]; reflexivity).
  rewrite (numeros_separador sep _ _ Hsep), (identificadores_separador sep _ _ _ Hp).
  cbn [append]. rewrite !(cadena_sin_comilla c) by exact Hc.
  reflexivity.
Qed.

Lemma longitud_app a b :
  String.length (a ++ b)%string = String.length a + String.length b.
Proof. induction a as [| c a IH]; cbn [append String.length]; [ reflexivity | rewrite IH; reflexivity ]. Qed.

Lemma tras_prefijo_longitud w :
  forall s r, tras_prefijo w s = Some r -> String.length w <= String.length s.
Proof.
  induction w as [| x w IH]; intros s r H; cbn [String.length]; [ lia | ].
  destruct s as [| c s]; cbn [tras_prefijo] in H; [ discriminate | ].
  destruct (Ascii.eqb x c); [ | discriminate ].
  apply IH in H. cbn [String.length]. lia.
Qed.

Lemma tomar_mientras_longitud p s :
  String.length s
  = String.length (fst (tomar_mientras p s)) + String.length (snd (tomar_mientras p s)).
Proof. rewrite (tomar_mientras_app p s) at 1. apply longitud_app. Qed.

Lemma palabras_longitud ws s m :
  palabras ws s = Some m -> String.length m <= String.length s.
Proof.
  induction ws as [| w otras IH]; cbn [palabras]; [ discriminate | ].
  destruct (tras_prefijo w s) as [r |] eqn:E; [ | exact IH ].
  destruct (fin_de_palabra r); [ | exact IH ].
  intro H. inversion H; subst m. exact (tras_prefijo_longitud _ _ _ E).
Qed.

Lemma literales_longitud ws s m :
  literales ws s = Some m -> String.length m <= String.length s.
Proof.
  induction ws as [| w otras IH]; cbn [literales]; [ discriminate | ].
  destruct (tras_prefijo w s) as [r |] eqn:E; [ | exact IH ].
  intro H. inversion H; subst m. exact (tras_prefijo_longitud _ _ _ E).
Qed.

Lemma caracter_longitud p s m :
  caracter p s = Some m -> String.length m <= String.length s.
Proof.
  unfold caracter. destruct s as [| c r]; [ discriminate | ].
  destruct (p c); [ | discriminate ].
  intro H. inversion H. cbn [String.length]. lia.
Qed.

Lemma cadena_longitud s m :
  cadena s = Some m -> String.length m <= String.length s.
Proof.
  unfold cadena. destruct s as [| c r]; [ discriminate | ].
  destruct (Ascii.eqb c comilla); [ | discriminate ].
  pose proof (tomar_mientras_longitud (fun d => negb (Ascii.eqb d comilla)) r) as L.
  destruct (tomar_mientras (fun d => negb (Ascii.eqb d comilla)) r) as [cuerpo resto].
  cbn [fst snd] in L.
  destruct resto as [| x y]; [ discriminate | ].
  intro H. inversion H. cbn [String.length] in *. rewrite longitud_app.
  cbn [String.length]. lia.
Qed.

Lemma numeros_longitud s m :
  numeros s = Some m -> String.length m <= String.length s.
Proof.
  unfold numeros.
  pose proof (tomar_mientras_longitud es_digito s) as L.
  destruct (tomar_mientras es_digito s) as [ent resto]. cbn [fst snd] in L.
  destruct (no_vacia ent); [ | discriminate ].
  assert (Hsolo : Some ent = Some m -> String.length m <= String.length s).
  { intro H. inversion H; subst m. lia. }
  destruct resto as [| c r]; [ exact Hsolo | ].
  destruct (ascii_dec c ".") as [-> | Hc].
  - pose proof (tomar_mientras_longitud es_digito r) as L'.
    destruct (tomar_mientras es_digito r) as [frac x]. cbn [fst snd] in L'.
    destruct (no_vacia frac); [ | exact Hsolo ].
    intro H. inversion H. rewrite longitud_app. cbn [String.length] in *. lia.
  - destruct c as [[] [] [] [] [] [] [] []]; try exact Hsolo.
    contradiction Hc; reflexivity.
Qed.

Lemma identificadores_longitud s m :
  identificadores s = Some m -> String.length m <= String.length s.
Proof.
  unfold identificadores. destruct s as [| c r]; [ discriminate | ].
  destruct (es_inicio_ident c); [ | discriminate ].
  intro H. inversion H. cbn [String.length].
  pose proof (tomar_mientras_longitud es_palabra r). lia.
Qed.

(** A token is not longer than the text it was found in. *)
Lemma primer_patron_longitud s t :
  primer_patron patrones s = Some t ->
  String.length (Tok.valor t) <= String.length s.
Proof.
  unfold patrones. cbn [primer_patron].
  repeat match goal with
  | |- context [match ?p s with Some _ => _ | None => _ end] =>
      let E := fresh "E" in
      destruct (p s) eqn:E;
      [ intro H; inversion H; cbn [Tok.valor];
        first [ exact (palabras_longitud _ _ _ E)
              | exact (literales_longitud _ _ _ E)
              | exact (caracter_longitud _ _ _ E)
              | exact (cadena_longitud _ _ E)
              | exact (numeros_longitud _ _ E)
              | exact (identificadores_longitud _ _ E) ]
      | ]
  end.
  discriminate.
Qed.

Lemma contiene_String c d a :
  contiene c (String d a) = false -> contiene c a = false.
Proof. cbn [contiene]. intro H. apply orb_false_iff in H. tauto. Qed.

(** The tokens of a text without double quotes that a blank or a minus
    sign follows are found first, as if the text ended there; the
    tokenizer then goes on at the blank or the minus sign. *)
Lemma Lexico_desde_separador sep a :
  sep = " "%char \/ sep = "-"%char ->
  forall k s,
    contiene comilla a = false ->
    Lexico_desde (a ++ String sep s)%string k
    = Lexico_desde a k ++ Lexico_desde (String sep s) (k - String.length a).
Proof.
  intro Hsep. induction a as [| c a IH]; intros k s Ha.
  - cbn [append String.length app]. rewrite Nat.sub_0_r. reflexivity.
  - pose proof (contiene_String _ _ _ Ha) as Ha'.
    destruct k as [| k].
    + change (Lexico_desde (String c a ++ String sep s)%string 0)
        with (match primer_patron patrones (String c a ++ String sep s)%string with
              | Some t => t :: Lexico_desde (a ++ String sep s)%string
                                 (String.length (Tok.valor t) - 1)
              | None => Lexico_desde (a ++ String sep s)%string 0
              end).
      rewrite (primer_patron_separador sep c a s Hsep Ha).
      cbn [Lexico_desde].
      destruct (primer_patron patrones (String c a)) as [t |] eqn:E.
      * apply primer_patron_longitud in E. cbn [String.length] in E.
        rewrite (IH _ s Ha').
        replace (String.length (Tok.valor t) - 1 - String.length a) with 0 by lia.
        reflexivity.
      * rewrite (IH 0 s Ha'). reflexivity.
    + cbn [append String.length Lexico_desde].
      rewrite (IH k s Ha'). reflexivity.
Qed.

Lemma Lexico_blanco a s :
  contiene comilla a = false ->
  Lexico (a ++ String " " s)%string = Lexico a ++ Lexico s.
Proof.
  intro H. unfold Lexico.
  rewrite (Lexico_desde_separador " " a (or_introl eq_refl) 0 s H). reflexivity.
Qed.

Lemma Lexico_menos a s :
  contiene comilla a = false ->
  Lexico (a ++ String "-" s)%string = Lexico a ++ Tok.mk "ARITMETICO" "-" :: Lexico s.
Proof.
  intro H. unfold Lexico.
  rewrite (Lexico_desde_separador "-" a (or_intror eq_refl) 0 s H). reflexivity.
Qed.

Lemma palabra_sin_menos r : todos es_palabra r = true -> contiene "-" r = false.
Proof.
  induction r as [| c r IH]; cbn [todos contiene]; intro H; [ reflexivity | ].
  apply andb_true_iff in H. destruct H as [Hc Hr]. rewrite (IH Hr).
  destruct (Ascii.eqb c "-") eqn:E; [ | reflexivity ].
  apply Ascii.eqb_eq in E. subst c. discriminate.
Qed.

(** A token whose text holds a minus sign is the operator [-] or a
    string. *)
Lemma forma_menos t :
  forma t = true ->
  contiene "-" (Tok.valor t) = true ->
  t = Tok.mk "ARITMETICO" "-" \/ Tok.tipo t = "CADENA".
Proof.
  destruct t as [tipo valor]. unfold forma, categorias.
  cbn [existsb fst snd Tok.tipo Tok.valor]. intros H Hm.
  repeat (apply orb_true_iff in H; destruct H as [H | H]);
    try discriminate H;
    apply andb_true_iff in H; destruct H as [Ht Hv];
    apply String.eqb_eq in Ht; subst tipo;
    try (right; reflexivity);
    try (unfold en in Hv; cbn [existsb] in Hv;
         repeat (apply orb_true_iff in Hv; destruct Hv as [Hv | Hv]);
         try discriminate Hv;
         apply String.eqb_eq in Hv; subst valor;
         first [ left; reflexivity | vm_compute in Hm; discriminate Hm ]).
  - apply numero_sin_signo_sin_menos in Hv. congruence.
  - apply andb_true_iff in Hv. destruct Hv as [Hv _].
    destruct valor as [| c r]; [ discriminate | ].
    cbn [es_identificador] in Hv. apply andb_true_iff in Hv. destruct Hv as [Hc Hr].
    cbn [contiene] in Hm. rewrite (palabra_sin_menos r Hr) in Hm.
    destruct c as [[] [] [] [] [] [] [] []]; discriminate.
Qed.

(** C8, as amended. Number tokens are unsigned: for every source text,
    the text of every token of category NUMERO matches [\d+(\.\d+)?] and
    holds no minus sign. A minus sign is never part of a number: every
    token whose text holds a minus sign is the arithmetic operator [-]
    or a string (a minus sign between double quotes stays in the
    string). A minus sign that no double quote precedes is always a
    token of its own: the tokens of a text [a], a minus sign and a text
    [s] are the tokens of [a], the arithmetic operator [-] and the
    tokens of [s]. So [-5] is the arithmetic operator [-] followed by
    the number [5]. *)
Theorem C8_numeros_sin_signo :
  (forall input t,
      In t (Lexico input) ->
      Tok.tipo t = "NUMERO" ->
      numero_sin_signo (Tok.valor t) = true /\ contiene "-" (Tok.valor t) = false)
  /\ (forall input t,
        In t (Lexico input) ->
        contiene "-" (Tok.valor t) = true ->
        t = Tok.mk "ARITMETICO" "-" \/ Tok.tipo t = "CADENA")
  /\ (forall a s,
        contiene comilla a = false ->
        Lexico (a ++ String "-" s)%string
        = Lexico a ++ Tok.mk "ARITMETICO" "-" :: Lexico s)
  /\ Lexico "-5" = [Tok.mk "ARITMETICO" "-"; Tok.mk "NUMERO" "5"].
Proof.
  split; [ | split; [ | split; [ exact Lexico_menos | reflexivity ] ] ].
  - intros input t Hin Ht.
    apply Lexico_desde_patron in Hin. destruct Hin as (s & Hs).
    pose proof (numeros_sin_signo _ _ (primer_patron_numero _ _ Hs Ht)) as Hn.
    split; [ exact Hn | apply numero_sin_signo_sin_menos; exact Hn ].
  - intros input t Hin Hm.
    apply Lexico_desde_patron in Hin. destruct Hin as (s & Hs).
    apply forma_menos; [ exact (primer_patron_forma _ _ Hs) | exact Hm ].
Qed.

(** The amended C8 on [x-5], at its number, at its minus sign and as a
    whole. *)
Lemma C8_testigo :
  (numero_sin_signo "5" = true /\ contiene "-" "5" = false)
  /\ (Tok.mk "ARITMETICO" "-" = Tok.mk "ARITMETICO" "-"
      \/ Tok.tipo (Tok.mk "ARITMETICO" "-") = "CADENA")
  /\ Lexico "x-5"
     = [Tok.mk "IDENTIFICADOR" "x"; Tok.mk "ARITMETICO" "-"; Tok.mk "NUMERO" "5"].
Proof.
  destruct C8_numeros_sin_signo as (H1 & H2 & H3 & _).
  split; [ | split ].
  - apply (H1 "x-5" (Tok.mk "NUMERO" "5")); [ vm_compute; tauto | reflexivity ].
  - apply (H2 "x-5" (Tok.mk "ARITMETICO" "-")); [ vm_compute; tauto | reflexivity ].
  - exact (H3 "x" "5" eq_refl).
Defined.

(** C8 as stated fails: the tokens of [-5] are not one token of category
    NUMERO, whatever its text. *)
Lemma C8_contraejemplo :
  ~ exists v, Lexico "-5" = [Tok.mk "NUMERO" v].
Proof. intros [v H]. vm_compute in H. discriminate. Qed.

(** X29. [main] joins the lines of the file that are not empty, each
    followed by a blank, and hands the text to [Lexico]. When no line
    holds a double quote, the tokens of the whole text are the tokens of
    the first line, then those of the second, and so on: no token runs
    over the end of a line, and the line ends give no token. The code is
    then analysed as the tokens of its lines, one after the other. *)
Theorem Lexico_por_lineas :
  forall lineas,
    forallb (fun linea => negb (contiene comilla linea)) lineas = true ->
    Lexico (codigo_completo lineas) = List.concat (map Lexico lineas)
    /\ principal (codigo_completo lineas)
       = analisisSintactico (List.concat (map Lexico lineas)) estado_inicial.
Proof.
  intros lineas H.
  assert (L : Lexico (codigo_completo lineas) = List.concat (map Lexico lineas)).
  { induction lineas as [| linea resto IH]; [ reflexivity | ].
    cbn [forallb] in H. apply andb_true_iff in H. destruct H as [Hl Hr].
    apply negb_true_iff in Hl.
    cbn [codigo_completo map List.concat]. rewrite <- (IH Hr).
    destruct linea as [| c l]; [ reflexivity | ].
    cbn [no_vacia]. apply Lexico_blanco. exact Hl. }
  split; [ exact L | ]. unfold principal. rewrite L. reflexivity.
Qed.

Lemma Lexico_por_lineas_testigo :
  forallb (fun linea => negb (contiene comilla linea))
    ["int x = 5;"; ""; "while (x > 0) {"; "x = x - 1;"; "}"] = true
  /\ (Lexico (codigo_completo ["int x = 5;"; ""; "while (x > 0) {"; "x = x - 1;"; "}"])
      = List.concat (map Lexico ["int x = 5;"; ""; "while (x > 0) {"; "x = x - 1;"; "}"])
      /\ principal (codigo_completo ["int x = 5;"; ""; "while (x > 0) {"; "x = x - 1;"; "}"])
         = analisisSintactico
             (List.concat (map Lexico ["int x = 5;"; ""; "while (x > 0) {"; "x = x - 1;"; "}"]))
             estado_inicial).
Proof.
  split; [ reflexivity | ].
  apply (Lexico_por_lineas ["int x = 5;"; ""; "while (x > 0) {"; "x = x - 1;"; "}"]).
  reflexivity.
Defined.
